(** * selenium-scrape: traffic governor, content extraction and scrape pipeline

  A shallow embedding of the TypeScript sources of the scraper
  (ProxyManager, RateLimiter, ContentExtractor, SeleniumScraper and the
  POST route) together with the properties stated about them.

  Conventions of the embedding.
  - A JavaScript string is a [string]: the sequence of its code units,
    here the code units below 256.
  - A JavaScript integer-valued number is a [Z] (timestamps, sizes) or a
    [nat] (array indices and lengths). Where the sources compute with
    [Math.random()] the numbers are doubles: rationals of the binary64
    format, with every product, sum and difference rounded to the nearest
    double ([Double]).
  - [null]/[undefined] attribute values are [None]; truthiness is written
    out ([truthy]).
  - Code that can throw returns a sum [Err + A]; code that talks to the
    browser, the network or the file system threads an abstract world.
  - Console output is not part of the world.

  Left out, as no property below reads them: [randomDelay] of
  RateLimiter, [getStealthHeaders], the unused private [extractText],
  [extractImages] and [extractLinks] of SeleniumScraper, the text of the
  scripts sent to the page, the GET route and the dashboard page. *)

From Stdlib Require Import ZArith QArith Qround Lqa Ascii String List Lia Sorting.Sorted.
From Stdlib Require Qcanon.
From stdpp Require Import gmap strings list fin_maps.

Local Open Scope string_scope.
Local Open Scope list_scope.
Local Open Scope nat_scope.

(* ===================================================================== *)
(** * Part I. The embedding                                                *)
(* ===================================================================== *)

(* --------------------------------------------------------------------- *)
(** ** Numbers: the arithmetic of doubles                                  *)
(* --------------------------------------------------------------------- *)

(** A finite JavaScript number is a rational of the binary64 format.
    A product, sum or difference is the exact result rounded to the
    nearest number of the format, a tie going to the even significand.
    Results of magnitude 2^1024 and above, which the format makes
    infinite, do not arise from the values the sources compute with. *)
Module Double.

(** The power 2^e. *)
Definition pow2 (e : Z) : Q :=
  match e with
  | Z0 => 1%Q
  | Zpos p => inject_Z (Zpos (2 ^ p))
  | Zneg p => (1 # (2 ^ p))%Q
  end.

(** The exponent of a positive number: the [e] with 2^e <= x < 2^(e+1). *)
Definition exponent (x : Q) : Z :=
  let e := (Z.log2 (Qnum x) - Z.log2 (Zpos (Qden x)))%Z in
  if Qle_bool (pow2 e) x then e else (e - 1)%Z.

(** The nearest integer, a tie going to the even one. *)
Definition nearest_even (y : Q) : Z :=
  let f := Qfloor y in
  match (y - inject_Z f ?= 1 # 2)%Q with
  | Lt => f
  | Gt => (f + 1)%Z
  | Eq => if Z.even f then f else (f + 1)%Z
  end.

(** The distance between neighbouring doubles around a positive number:
    2^(e-52), and 2^-1074 among the subnormal numbers. *)
Definition spacing (x : Q) : Q :=
  (pow2 (Z.max (exponent x) (-1022)) * (1 # 2 ^ 52))%Q.

(** The nearest double to a positive number, in lowest terms. *)
Definition round_pos (x : Q) : Q :=
  Qred (inject_Z (nearest_even (x / spacing x)) * spacing x)%Q.

(** Rounding to the nearest double. *)
Definition round (x : Q) : Q :=
  match Qnum x with
  | Z0 => 0%Q
  | Zpos _ => round_pos x
  | Zneg _ => (- round_pos (- x))%Q
  end.

(** The numbers of the format: a significand below 2^53 in magnitude
    times a power of two not below 2^-1074. *)
Definition representable (x : Q) : Prop :=
  exists m e : Z,
    (x == inject_Z m * pow2 e)%Q /\ (Z.abs m < 2 ^ 53)%Z /\ (-1074 <= e)%Z.

(** [x * y], [x + y], [x - y] and [Math.floor(x)]. *)
Definition mul (x y : Q) : Q := round (x * y)%Q.
Definition add (x y : Q) : Q := round (x + y)%Q.
Definition sub (x y : Q) : Q := round (x - y)%Q.
Definition floor (x : Q) : Z := Qfloor x.

End Double.

(* --------------------------------------------------------------------- *)
(** ** Proxy rotation (class ProxyManager)                                 *)
(* --------------------------------------------------------------------- *)

Module ProxyManager.

Inductive ProxyType := http | https | socks4 | socks5.

Record ProxyConfig := {
  host : string;
  port : Z;
  username : option string;
  password : option string;
  type : ProxyType
}.

(** The object state: [private proxies], [private currentIndex]. *)
Record t := {
  proxies : list ProxyConfig;
  currentIndex : nat
}.

(** [constructor(proxies = [])] *)
Definition new (ps : list ProxyConfig) : t :=
  {| proxies := ps; currentIndex := 0 |}.

(** [addProxy]: [this.proxies.push(proxy)] *)
Definition addProxy (p : ProxyConfig) (m : t) : t :=
  {| proxies := proxies m ++ [p]; currentIndex := currentIndex m |}.

(** What a getter hands back: [null], the [undefined] of an array read
    out of range, or a proxy. *)
Inductive result :=
| Null
| Undefined
| Proxy (p : ProxyConfig).

(** [this.proxies[i]] for an integer-valued index. *)
Definition at_index (ps : list ProxyConfig) (i : Z) : result :=
  if (i <? 0)%Z then Undefined
  else match nth_error ps (Z.to_nat i) with
       | Some p => Proxy p
       | None => Undefined
       end.

(** [getRandomProxy]; [r] is the double [Math.random()] returns. *)
Definition getRandomProxy (r : Q) (m : t) : result :=
  if length (proxies m) =? 0 then Null
  else
    let randomIndex :=
      Double.floor (Double.mul r (inject_Z (Z.of_nat (length (proxies m))))) in
    at_index (proxies m) randomIndex.

(** [getNextProxy]: the result and the object afterwards. *)
Definition getNextProxy (m : t) : result * t :=
  if length (proxies m) =? 0 then (Null, m)
  else
    let proxy := at_index (proxies m) (Z.of_nat (currentIndex m)) in
    (proxy,
     {| proxies := proxies m;
        currentIndex := (currentIndex m + 1) mod length (proxies m) |}).

(** [k] successive calls of [getNextProxy]: the results in call order and
    the object after the last call. *)
Fixpoint callNext (k : nat) (m : t) : list result * t :=
  match k with
  | 0 => ([], m)
  | S k' =>
      let '(r, m') := getNextProxy m in
      let '(rs, m'') := callNext k' m' in
      (r :: rs, m'')
  end.

#[global] Instance ProxyType_eq_dec : EqDecision ProxyType.
Proof. solve_decision. Defined.

#[global] Instance ProxyConfig_eq_dec : EqDecision ProxyConfig.
Proof. solve_decision. Defined.

#[global] Instance result_eq_dec : EqDecision result.
Proof. solve_decision. Defined.

(** How many of the results are the proxy [p]. *)
Definition occurrences (p : ProxyConfig) (rs : list result) : nat :=
  length (filter (λ r, r = Proxy p) rs).

(** ⌊k/n⌋ and ⌈k/n⌉ on naturals. *)
Definition floor_div (k n : nat) : nat := k / n.
Definition ceil_div (k n : nat) : nat := (k + n - 1) / n.

(** How many of the calls [0 .. k-1], started at index [i0] over [n]
    proxies, read slot [i]. *)
Definition visits (n i0 i k : nat) : nat :=
  length (List.filter (fun j => (i0 + j) mod n =? i) (seq 0 k)).

End ProxyManager.

(* --------------------------------------------------------------------- *)
(** ** Request cadence (class RateLimiter)                                 *)
(* --------------------------------------------------------------------- *)

Module RateLimiter.

(** [maxRequests] and [timeWindow] (milliseconds), fixed at construction. *)
Record config := {
  maxRequests : Z;
  timeWindow : Z
}.

(** [constructor(maxRequests = 10, timeWindowMinutes = 1)] *)
Definition new (maxRequests timeWindowMinutes : Z) : config :=
  {| maxRequests := maxRequests; timeWindow := timeWindowMinutes * 60 * 1000 |}.

(** [checkRateLimit(identifier)]; [now] is what [Date.now()] returns and
    [requests] the [Map<string, number[]>]. The pruned array is a fresh
    one ([filter]), stored only when the request is allowed. *)
Definition checkRateLimit (cfg : config) (identifier : string) (now : Z)
    (requests : gmap string (list Z)) : bool * gmap string (list Z) :=
  let reqs := default [] (requests !! identifier) in
  let validRequests :=
    filter (λ timestamp, (now - timestamp < timeWindow cfg)%Z) reqs in
  if decide (maxRequests cfg ≤ Z.of_nat (length validRequests))%Z
  then (false, requests)
  else (true, <[identifier := validRequests ++ [now]]> requests).

(** A run of the limiter: the calls in order, each with its identifier
    and the clock reading it saw; the log pairs each call with the
    answer. *)
Fixpoint serve (cfg : config) (calls : list (string * Z))
    (requests : gmap string (list Z)) : list (string * Z * bool) :=
  match calls with
  | [] => []
  | (identifier, now) :: rest =>
      let '(ok, requests') := checkRateLimit cfg identifier now requests in
      (identifier, now, ok) :: serve cfg rest requests'
  end.

(** The clock readings of the allowed calls of [identifier]. *)
Definition allowed_times (identifier : string)
    (log : list (string * Z * bool)) : list Z :=
  omap (λ e, if decide (e.1.1 = identifier ∧ e.2 = true) then Some e.1.2 else None)
       log.

(** How many readings fall in the interval [a, a + window). *)
Definition in_window (a window : Z) (ts : list Z) : nat :=
  length (filter (λ t, (a ≤ t < a + window)%Z) ts).

(** The clock never runs backwards over the calls. *)
Definition clock_monotone (calls : list (string * Z)) : Prop :=
  Sorted Z.le (map snd calls).

(** [getRandomDelay(min, max)] of RateLimiter; [r] is the double
    [Math.random()] returns. *)
Definition getRandomDelay (r min max : Q) : Q :=
  Double.add
    (inject_Z (Double.floor (Double.mul r (Double.add (Double.sub max min) 1))))
    min.

(** The map after a run of calls. *)
Fixpoint final (cfg : config) (calls : list (string * Z))
    (requests : gmap string (list Z)) : gmap string (list Z) :=
  match calls with
  | [] => requests
  | (identifier, now) :: rest =>
      final cfg rest (snd (checkRateLimit cfg identifier now requests))
  end.

End RateLimiter.

(* --------------------------------------------------------------------- *)
(** ** JavaScript strings                                                  *)
(* --------------------------------------------------------------------- *)

Module JsString.

Definition code (c : ascii) : nat := nat_of_ascii c.

Definition between (lo hi : nat) (c : ascii) : bool :=
  (lo <=? code c) && (code c <=? hi).

Definition is_digit : ascii -> bool := between 48 57.
Definition is_upper : ascii -> bool := between 65 90.
Definition is_lower : ascii -> bool := between 97 122.
Definition is_alnum (c : ascii) : bool := is_upper c || is_lower c || is_digit c.

(** The class [\w]. *)
Definition is_word (c : ascii) : bool := is_alnum c || (code c =? 95).

(** The class [\s], which is also what [trim] strips: white space and
    line terminators (tab, LF, VT, FF, CR, space, no-break space). *)
Definition is_space (c : ascii) : bool :=
  between 9 13 c || (code c =? 32) || (code c =? 160).

Definition one_of (set : string) (c : ascii) : bool :=
  existsb (Ascii.eqb c) (list_ascii_of_string set).

(** [toLowerCase] on one code unit: A-Z and the Latin-1 capitals. *)
Definition lower_char (c : ascii) : ascii :=
  if is_upper c || between 192 214 c || between 216 222 c
  then ascii_of_nat (code c + 32)
  else c.

Fixpoint toLowerCase (s : string) : string :=
  match s with
  | EmptyString => EmptyString
  | String c s' => String (lower_char c) (toLowerCase s')
  end.

Fixpoint startsWith (s searchString : string) : bool :=
  match searchString, s with
  | EmptyString, _ => true
  | String a p, String b s' => Ascii.eqb a b && startsWith s' p
  | String _ _, EmptyString => false
  end.

Definition reverse (s : string) : string :=
  string_of_list_ascii (List.rev (list_ascii_of_string s)).

Definition endsWith (s searchString : string) : bool :=
  startsWith (reverse s) (reverse searchString).

Fixpoint includes (s searchString : string) : bool :=
  startsWith s searchString
  || match s with
     | EmptyString => false
     | String _ s' => includes s' searchString
     end.

(** [s.split(sep)] for a one-character separator: never an empty array. *)
Fixpoint split (sep : ascii) (s : string) : list string :=
  match s with
  | EmptyString => [""]
  | String c s' =>
      if Ascii.eqb c sep then "" :: split sep s'
      else match split sep s' with
           | piece :: pieces => String c piece :: pieces
           | [] => [String c ""]
           end
  end.

(** [array.pop()] read for its value: the last element, [undefined] on an
    empty array. *)
Definition pop (pieces : list string) : option string := List.last (map Some pieces) None.

Fixpoint trimStart (s : string) : string :=
  match s with
  | String c s' => if is_space c then trimStart s' else s
  | EmptyString => EmptyString
  end.

Definition trim (s : string) : string := reverse (trimStart (reverse (trimStart s))).

(** Truthiness of a value that is a string, [null] or [undefined]. *)
Definition truthy (v : option string) : bool :=
  match v with
  | Some s => negb (String.eqb s "")
  | None => false
  end.

(** [v || undefined]; also the value of [v] where a condition [if (v)]
    has let it through. *)
Definition or_undefined (v : option string) : option string :=
  if truthy v then v else None.

(** [v || d] for a string default [d]. *)
Definition or_default (v : option string) (d : string) : string :=
  match v with
  | Some s => if String.eqb s "" then d else s
  | None => d
  end.

(** [[...new Set(xs)]]: the distinct elements in order of first occurrence. *)
Fixpoint set_add (seen : list string) (x : string) : list string :=
  match seen with
  | [] => [x]
  | y :: seen' => if String.eqb y x then seen else y :: set_add seen' x
  end.

Definition spread_set (xs : list string) : list string :=
  fold_left set_add xs [].

(** Decimal digits of a non-negative integer, as [`${n}`] prints them. *)
Fixpoint digits_of (fuel : nat) (n : N) (acc : string) : string :=
  match fuel with
  | 0 => acc
  | S fuel' =>
      let acc' := String (ascii_of_N (48 + N.modulo n 10)) acc in
      if (N.div n 10 =? 0)%N then acc' else digits_of fuel' (N.div n 10) acc'
  end.

Definition show_Z (z : Z) : string :=
  match z with
  | Z0 => "0"
  | Zpos p => digits_of (S (N.to_nat (N.log2 (Npos p)))) (Npos p) ""
  | Zneg p => String "-" (digits_of (S (N.to_nat (N.log2 (Npos p)))) (Npos p) "")
  end.

End JsString.

(* --------------------------------------------------------------------- *)
(** ** Regular expressions, as the patterns of the sources use them        *)
(* --------------------------------------------------------------------- *)

Module Regex.
Import JsString.

(** Pattern terms. Groups capture nothing that the sources read, so a
    group is its body. [Quant min max r] is [r{min,max}], greedy, with
    [max = None] for no upper bound. *)
Inductive regex :=
| Empty
| Class (p : ascii -> bool)
| Seq (r1 r2 : regex)
| Alt (r1 r2 : regex)
| Quant (min : nat) (max : option nat) (r : regex)
| WordBoundary
| EndOfInput.

Definition Chr (c : ascii) : regex := Class (Ascii.eqb c).

Fixpoint Lit (s : string) : regex :=
  match s with
  | EmptyString => Empty
  | String c EmptyString => Chr c
  | String c s' => Seq (Chr c) (Lit s')
  end.

Definition Opt : regex -> regex := Quant 0 (Some 1).
Definition Star : regex -> regex := Quant 0 None.
Definition Plus : regex -> regex := Quant 1 None.
Definition Times (n : nat) : regex -> regex := Quant n (Some n).
Definition AtLeast (n : nat) : regex -> regex := Quant n None.

Fixpoint Seqs (rs : list regex) : regex :=
  match rs with
  | [] => Empty
  | [r] => r
  | r :: rs' => Seq r (Seqs rs')
  end.

Fixpoint Alts (rs : list regex) : regex :=
  match rs with
  | [] => Empty
  | [r] => r
  | r :: rs' => Alt r (Alts rs')
  end.

(** A position in the subject: the code unit before it, and what is left. *)
Record state := {
  prev : option ascii;
  rest : list ascii
}.

Definition at_boundary (x : state) : bool :=
  let a := match prev x with Some c => is_word c | None => false end in
  let b := match rest x with c :: _ => is_word c | [] => false end in
  xorb a b.

(** The backtracking matcher, in continuation style: [run r k x] is the
    end state of the first successful way to match [r] at [x] and then
    [k]. A quantifier is greedy; once its minimum is met, an iteration that
    consumes nothing is rejected. *)
Fixpoint run (r : regex) (k : state -> option state) (x : state) {struct r}
    : option state :=
  match r with
  | Empty => k x
  | Class p =>
      match rest x with
      | c :: t => if p c then k {| prev := Some c; rest := t |} else None
      | [] => None
      end
  | Seq r1 r2 => run r1 (run r2 k) x
  | Alt r1 r2 =>
      match run r1 k x with
      | Some y => Some y
      | None => run r2 k x
      end
  | Quant min max r' =>
      let optional :=
        fix optional (budget : nat) (x : state) : option state :=
          match budget with
          | 0 => k x
          | S budget' =>
              match run r'
                      (fun y =>
                         if length (rest y) =? length (rest x) then None
                         else optional budget' y)
                      x
              with
              | Some z => Some z
              | None => k x
              end
          end in
      (fix mandatory (n : nat) (x : state) : option state :=
         match n with
         | 0 =>
             optional
               (match max with
                | Some m => m - min
                | None => length (rest x)
                end) x
         | S n' => run r' (mandatory n') x
         end) min x
  | WordBoundary => if at_boundary x then k x else None
  | EndOfInput =>
      match rest x with
      | [] => k x
      | _ :: _ => None
      end
  end.

Definition exec (r : regex) (x : state) : option state := run r Some x.

(** A pattern may apply a quantifier to an assertion ([$?]). The pattern
    grammar of ECMAScript has no such term, so evaluating the literal
    throws a SyntaxError ("Nothing to repeat"); an engine that accepts the
    term reads it as "the assertion or nothing". This says which engine
    runs the code. *)
Inductive quantified_assertion := Rejected | Optional.

Definition advance (x : state) : option state :=
  match rest x with
  | c :: t => Some {| prev := Some c; rest := t |}
  | [] => None
  end.

Definition matched (x y : state) : list ascii :=
  take (length (rest x) - length (rest y)) (rest x).

(** The successive matches of a global ([g]) pattern from [x] on; after an
    empty match the scan moves one code unit further. *)
Fixpoint scan (fuel : nat) (r : regex) (x : state) : list (list ascii) :=
  match fuel with
  | 0 => []
  | S fuel' =>
      match exec r x with
      | Some y =>
          matched x y ::
          (if length (rest y) =? length (rest x)
           then match advance x with
                | Some x' => scan fuel' r x'
                | None => []
                end
           else scan fuel' r y)
      | None =>
          match advance x with
          | Some x' => scan fuel' r x'
          | None => []
          end
      end
  end.

(** [s.match(r) || []] for a global pattern [r]. *)
Definition match_all (r : regex) (s : string) : list string :=
  map string_of_list_ascii
    (scan (S (String.length s)) r {| prev := None; rest := list_ascii_of_string s |}).

Fixpoint substitute (fuel : nat) (r : regex) (replacement : list ascii)
    (x : state) : list ascii :=
  match fuel with
  | 0 => rest x
  | S fuel' =>
      match exec r x with
      | Some y =>
          replacement ++
          (if length (rest y) =? length (rest x)
           then match rest x with
                | c :: t => c :: substitute fuel' r replacement {| prev := Some c; rest := t |}
                | [] => []
                end
           else substitute fuel' r replacement y)
      | None =>
          match rest x with
          | c :: t => c :: substitute fuel' r replacement {| prev := Some c; rest := t |}
          | [] => []
          end
      end
  end.

(** [s.replace(r, replacement)] for a global pattern and a replacement
    without [$] references. *)
Definition replace_all (r : regex) (replacement : string) (s : string) : string :=
  string_of_list_ascii
    (substitute (S (String.length s)) r (list_ascii_of_string replacement)
       {| prev := None; rest := list_ascii_of_string s |}).

End Regex.

(* --------------------------------------------------------------------- *)
(** ** Effects: exceptions, awaited operations and mutable locals          *)
(* --------------------------------------------------------------------- *)

Module Effects.

(** A thrown value, by its message. *)
Definition Err : Type := string.

(** An operation of the environment (the browser session, the network,
    the file system): it reads and changes the world [W] and returns or
    throws. An [async] method that has finished is such an operation too. *)
Definition M (W A : Type) : Type := W -> (Err + A) * W.

(** A piece of a method body with mutable variables [S] in scope (the
    locals, or the fields of [this]): what was assigned before a throw
    stays assigned. *)
Definition T (W S A : Type) : Type := S -> W -> (Err + A) * S * W.

Section Combinators.
Context {W S : Type}.

Definition ret {A} (a : A) : T W S A := fun s w => (inr a, s, w).

Definition throw {A} (e : Err) : T W S A := fun s w => (inl e, s, w).

Definition bind {A B} (c : T W S A) (f : A -> T W S B) : T W S B :=
  fun s w =>
    match c s w with
    | (inl e, s', w') => (inl e, s', w')
    | (inr a, s', w') => f a s' w'
    end.

(** [await op] *)
Definition await {A} (op : M W A) : T W S A :=
  fun s w => let '(r, w') := op w in (r, s, w').

Definition get : T W S S := fun s w => (inr s, s, w).

Definition modify (f : S -> S) : T W S unit := fun s w => (inr tt, f s, w).

(** [try { body } catch (e) { handler }] *)
Definition try_catch {A} (body : T W S A) (handler : Err -> T W S A) : T W S A :=
  fun s w =>
    match body s w with
    | (inl e, s', w') => handler e s' w'
    | (inr a, s', w') => (inr a, s', w')
    end.

(** [try { body } finally { final }]: [final] runs on every way out of
    [body]; when it throws, its error is the result. *)
Definition try_finally {A} (body : T W S A) (final : T W S unit) : T W S A :=
  fun s w =>
    match body s w with
    | (r, s', w') =>
        match final s' w' with
        | (inl e, s'', w'') => (inl e, s'', w'')
        | (inr _, s'', w'') => (r, s'', w'')
        end
    end.

(** [if (b) { c }] *)
Definition when (b : bool) (c : T W S unit) : T W S unit :=
  if b then c else ret tt.

(** [for (const x of xs) { body }] over the array as it was. *)
Fixpoint for_of {X} (xs : list X) (body : X -> T W S unit) : T W S unit :=
  match xs with
  | [] => ret tt
  | x :: xs' => bind (body x) (fun _ => for_of xs' body)
  end.

End Combinators.

(** A method body run on fresh locals: the result of the call. *)
Definition scope {W S A} (init : S) (body : T W S A) : M W A :=
  fun w => let '(r, _, w') := body init w in (r, w').

(** A computation returns normally from every state. *)
Definition returns {W S A} (c : T W S A) : Prop :=
  forall s w, exists a s' w', c s w = (inr a, s', w').

Definition op_returns {W A} (op : M W A) : Prop :=
  forall w, exists a w', op w = (inr a, w').

(** The variables after the computation, however it ended. *)
Definition final_state {W S A} (c : T W S A) (s : S) (w : W) : S := snd (fst (c s w)).

(** A property of the variables that the computation keeps. *)
Definition preserves {W S A} (I : S -> Prop) (c : T W S A) : Prop :=
  forall s w, I s -> I (final_state c s w).

End Effects.

Declare Scope js_scope.
Delimit Scope js_scope with js.
Notation "'let!' x ':=' c1 'in' c2" :=
  (Effects.bind c1 (fun x => c2))
  (at level 10, x pattern, c1 at level 100, c2 at level 200) : js_scope.
Notation "c1 >> c2" :=
  (Effects.bind c1 (fun _ => c2))
  (at level 190, right associativity) : js_scope.

(* --------------------------------------------------------------------- *)
(** ** The extracted content model (the interfaces of content-extractor)   *)
(* --------------------------------------------------------------------- *)

Module Heading.
Record t := { level : nat; text : string; id : option string }.
End Heading.

(** interface [List] *)
Module ListBlock.
Inductive kind := ordered | unordered.
Record t := { type : kind; items : list string }.
End ListBlock.

Module Table.
Record t := {
  headers : list string;
  rows : list (list string);
  caption : option string
}.
End Table.

Module FormField.
Record t := {
  name : option string;
  type : string;
  label : option string;
  placeholder : option string;
  required : bool;
  options : option (list string)
}.
End FormField.

Module Form.
Record t := {
  action : option string;
  method : option string;
  fields : list FormField.t
}.
End Form.

Module ImageData.
Record t := {
  src : string;
  alt : string;
  title : option string;
  width : option string;
  height : option string;
  format : option string;
  size : option nat;
  downloaded : option bool;
  localPath : option string
}.
End ImageData.

Module LinkData.
Inductive kind := internal | external | email | phone | file.
Record t := {
  href : string;
  text : string;
  title : option string;
  type : kind;
  domain : option string
}.
End LinkData.

Module Metadata.
Record t (Json : Type) := {
  charset : option string;
  viewport : option string;
  robots : option string;
  canonical : option string;
  openGraph : gmap string string;
  twitterCard : gmap string string;
  jsonLd : list Json
}.
Arguments charset {Json}.
Arguments viewport {Json}.
Arguments robots {Json}.
Arguments canonical {Json}.
Arguments openGraph {Json}.
Arguments twitterCard {Json}.
Arguments jsonLd {Json}.
End Metadata.

(** An entry of [structuredData: any[]]: a parsed JSON-LD block, or the
    object built from a microdata scope (its keys with their values). *)
Module StructuredData.
Inductive t (Json : Type) :=
| JsonLd (value : Json)
| Microdata (object : gmap string (option string)).
Arguments JsonLd {Json}.
Arguments Microdata {Json}.
End StructuredData.

Module ContactInfo.
Record t := {
  emails : list string;
  phones : list string;
  addresses : list string
}.
End ContactInfo.

Module ExtractedContent.
Record t (Json : Type) := {
  url : string;
  title : string;
  description : string;
  keywords : list string;
  author : string;
  publishDate : string;
  language : string;
  textContent : string;
  cleanedText : string;
  headings : list Heading.t;
  paragraphs : list string;
  lists : list ListBlock.t;
  tables : list Table.t;
  forms : list Form.t;
  images : list ImageData.t;
  links : list LinkData.t;
  metadata : Metadata.t Json;
  structuredData : list (StructuredData.t Json);
  socialMedia : gmap string string;
  contactInfo : ContactInfo.t;
  downloadedImages : option (list (option string));
  captchaDetected : option bool;
  timestamp : option string
}.
Arguments url {Json}.
Arguments title {Json}.
Arguments images {Json}.
Arguments links {Json}.
Arguments contactInfo {Json}.
Arguments downloadedImages {Json}.
Arguments captchaDetected {Json}.
Arguments timestamp {Json}.
End ExtractedContent.

(* --------------------------------------------------------------------- *)
(** ** What the code is given: the platform and the browser session        *)
(* --------------------------------------------------------------------- *)

(** A parsed URL, by the parts the sources read. *)
Module URL.
Record t := { href : string; hostname : string; pathname : string }.
End URL.

(** The response of [fetch]. *)
Module Response.
Record t (W : Type) := {
  ok : bool;
  buffer : Effects.M W (list ascii)
}.
Arguments ok {W}.
Arguments buffer {W}.
End Response.

(** The runtime the modules import: the URL and JSON parsers, [path],
    [fs/promises], [node-fetch], the clock, the random source, the
    environment, the user-agent builder, and the options and the builder
    of the web driver. A parser that throws is [None]. The two option
    methods are given by what calling them does, returning or throwing:
    the binding of the web driver for JavaScript has no method
    [setExperimentalOption] on its Chrome options, so that there the call
    throws a TypeError. *)
Record Runtime (W Json : Type) := {
  URL_parse : string -> option URL.t;
  URL_resolve : string -> string -> option URL.t;
  JSON_parse : string -> option Json;
  RegExp_quantified_assertion : Regex.quantified_assertion;
  path_join : string -> string -> string;
  fs_mkdir : string -> Effects.M W unit;
  fs_writeFile : string -> list ascii -> Effects.M W unit;
  fetch : string -> Effects.M W (Response.t W);
  Date_now : W -> Z;
  Date_toISOString : W -> string;
  Math_random : W -> Q * W;
  NODE_ENV : option string;
  UserAgent_desktop : Effects.M W string;
  Options_setExperimentalOption : string -> Effects.Err + unit;
  Options_setUserPreferences : Effects.Err + unit;
  Builder_build : list string -> Effects.M W unit
}.
Arguments URL_parse {W Json}.
Arguments URL_resolve {W Json}.
Arguments JSON_parse {W Json}.
Arguments RegExp_quantified_assertion {W Json}.
Arguments path_join {W Json}.
Arguments fs_mkdir {W Json}.
Arguments fs_writeFile {W Json}.
Arguments fetch {W Json}.
Arguments Date_now {W Json}.
Arguments Date_toISOString {W Json}.
Arguments Math_random {W Json}.
Arguments NODE_ENV {W Json}.
Arguments UserAgent_desktop {W Json}.
Arguments Options_setExperimentalOption {W Json}.
Arguments Options_setUserPreferences {W Json}.
Arguments Builder_build {W Json}.

(** The scripts the sources send to the page, by what they do: the
    stealth patches of [initDriver] (with the viewport they report), the
    mouse moves and the scroll of [simulateHumanBehavior], the stepwise
    scroll of [scrollToBottom], and [return document.documentElement.lang]. *)
Inductive Script :=
| StealthPatches (width height : Z)
| RandomMouseMoves
| HumanScroll
| ScrollToBottom
| DocumentLang.

(** Element locators. *)
Inductive By :=
| css (selector : string)
| tagName (name : string).

(** The commands of a web-driver session over element handles [E];
    [navigate] is [driver.get]. *)
Record WebDriver (W E : Type) := {
  getCurrentUrl : Effects.M W string;
  getTitle : Effects.M W string;
  executeScript : Script -> Effects.M W (option string);
  findElement : By -> Effects.M W E;
  findElements : By -> Effects.M W (list E);
  getAttribute : E -> string -> Effects.M W (option string);
  getText : E -> Effects.M W string;
  findElementIn : E -> By -> Effects.M W E;
  findElementsIn : E -> By -> Effects.M W (list E);
  navigate : string -> Effects.M W unit;
  sleep : Q -> Effects.M W unit;
  quit : Effects.M W unit
}.
Arguments getCurrentUrl {W E}.
Arguments getTitle {W E}.
Arguments executeScript {W E}.
Arguments findElement {W E}.
Arguments findElements {W E}.
Arguments getAttribute {W E}.
Arguments getText {W E}.
Arguments findElementIn {W E}.
Arguments findElementsIn {W E}.
Arguments navigate {W E}.
Arguments sleep {W E}.
Arguments quit {W E}.

(** The session [driver] with [q] for its [quit]. A computation that is
    the same on the two, whatever [q] is, does not call [quit]. *)
Definition with_quit {W E : Type} (q : Effects.M W unit) (driver : WebDriver W E)
    : WebDriver W E :=
  {| getCurrentUrl := getCurrentUrl driver;
     getTitle := getTitle driver;
     executeScript := executeScript driver;
     findElement := findElement driver;
     findElements := findElements driver;
     getAttribute := getAttribute driver;
     getText := getText driver;
     findElementIn := findElementIn driver;
     findElementsIn := findElementsIn driver;
     navigate := navigate driver;
     sleep := sleep driver;
     quit := q |}.

(* --------------------------------------------------------------------- *)
(** ** class ContentExtractor                                              *)
(* --------------------------------------------------------------------- *)

Module ContentExtractor.
Import JsString Regex Effects.
Local Open Scope js_scope.

(** The double quote, and a quoted attribute value of a selector. *)
Definition dq : string := String (ascii_of_nat 34) EmptyString.
Definition quoted (s : string) : string := dq +:+ s +:+ dq.

Definition LF : ascii := ascii_of_nat 10.

(** [text.trim()] read as a condition. *)
Definition nonblank (text : string) : bool := negb (String.eqb (trim text) "").

(** [xs.push(x)] *)
Definition push {A} (x : A) (xs : list A) : list A := xs ++ [x].

(** [Array.prototype.sort] with a comparator: a stable sort. *)
Fixpoint sort_insert {A} (cmp : A -> A -> Z) (x : A) (sorted : list A) : list A :=
  match sorted with
  | [] => [x]
  | y :: sorted' =>
      if (cmp x y <=? 0)%Z then x :: sorted else y :: sort_insert cmp x sorted'
  end.

Definition sort {A} (cmp : A -> A -> Z) (xs : list A) : list A :=
  fold_right (sort_insert cmp) [] xs.

(** *** The patterns *)

Definition emailRegex : regex :=
  Seqs [ WordBoundary;
         Plus (Class (fun c => is_alnum c || one_of "._%+-" c));
         Chr "@";
         Plus (Class (fun c => is_alnum c || one_of ".-" c));
         Chr ".";
         AtLeast 2 (Class (fun c => is_upper c || one_of "|" c || is_lower c));
         WordBoundary ].

(** The phone pattern of the source,
    [(\+?1?[-.\s]?)?$$?([0-9]{3})$$?[-.\s]?([0-9]{3})[-.\s]?([0-9]{4})],
    applies [?] to the assertion [$], twice: see [quantified_assertion].
    [phoneRegex] is [None] when evaluating the literal throws. *)
Definition phoneSeparator : regex := Class (fun c => one_of "-." c || is_space c).

Definition phoneRegex (engine : quantified_assertion) : option regex :=
  match engine with
  | Rejected => None
  | Optional =>
      Some (Seqs [ Opt (Seqs [Opt (Chr "+"); Opt (Chr "1"); Opt phoneSeparator]);
                   EndOfInput; Opt EndOfInput;
                   Times 3 (Class is_digit);
                   EndOfInput; Opt EndOfInput;
                   Opt phoneSeparator;
                   Times 3 (Class is_digit);
                   Opt phoneSeparator;
                   Times 4 (Class is_digit) ])
  end.

Definition streetWords : list string :=
  [ "Street"; "St"; "Avenue"; "Ave"; "Road"; "Rd"; "Boulevard"; "Blvd";
    "Lane"; "Ln"; "Drive"; "Dr"; "Court"; "Ct"; "Place"; "Pl" ].

Definition addressRegex : regex :=
  Seqs [ Plus (Class is_digit);
         Plus (Class is_space);
         Plus (Class (fun c => is_alnum c || is_space c || one_of ",.-" c));
         Alts (map Lit streetWords);
         Star (Class is_space); Opt (Chr ","); Star (Class is_space);
         Plus (Class (fun c => is_upper c || is_lower c || is_space c));
         Opt (Chr ","); Star (Class is_space);
         Times 2 (Class is_upper);
         Star (Class is_space);
         Times 5 (Class is_digit) ].

(** [cleanText] *)
Definition cleanText (text : string) : string :=
  trim
    (replace_all (Seqs [Chr LF; Star (Class is_space); Chr LF]) (String LF "")
       (replace_all (Plus (Class is_space)) " " text)).

(** [getImageFormat] *)
Definition imageFormats : list string :=
  [ "jpg"; "jpeg"; "png"; "gif"; "webp"; "svg"; "bmp"; "ico" ].

Definition getImageFormat (url : string) : option string :=
  let extension := option_map toLowerCase (pop (split "." url)) in
  if existsb (String.eqb (or_default extension "")) imageFormats
  then extension
  else None.

Definition fileExtensions : list string :=
  [ ".pdf"; ".doc"; ".docx"; ".xls"; ".xlsx"; ".zip"; ".rar"; ".mp3"; ".mp4"; ".avi" ].

Section WithSession.
Context {W E Json : Type}.
Variable rt : Runtime W Json.
Variable driver : WebDriver W E.
Variable baseUrl : string.

(** [new URL(s)], which throws a TypeError on a string that is no
    absolute URL; [new URL(s, base)]; [JSON.parse]. *)
Definition new_URL {S} (s : string) : T W S URL.t :=
  match URL_parse rt s with
  | Some u => ret u
  | None => throw "TypeError: Invalid URL"
  end.

Definition new_URL_with_base {S} (s base : string) : T W S URL.t :=
  match URL_resolve rt s base with
  | Some u => ret u
  | None => throw "TypeError: Invalid URL"
  end.

Definition JSON_parse_or_throw {S} (s : string) : T W S Json :=
  match JSON_parse rt s with
  | Some v => ret v
  | None => throw "SyntaxError: Unexpected token in JSON"
  end.

(** [getLinkType]: the [catch] covers both [new URL] calls. *)
Definition getLinkType (href baseUrl : string) : LinkData.kind :=
  if startsWith href "mailto:" then LinkData.email
  else if startsWith href "tel:" then LinkData.phone
  else if startsWith href "#" || startsWith href "/" then LinkData.internal
  else
    match URL_parse rt href with
    | None => LinkData.internal
    | Some url =>
        match URL_parse rt baseUrl with
        | None => LinkData.internal
        | Some baseUrlObj =>
            if existsb (fun ext => endsWith (toLowerCase (URL.pathname url)) ext)
                       fileExtensions
            then LinkData.file
            else if String.eqb (URL.hostname url) (URL.hostname baseUrlObj)
                 then LinkData.internal
                 else LinkData.external
        end
    end.

(** [getMetaContent] *)
Definition getMetaContent (name : string) : M W (option string) :=
  scope tt
    (try_catch
       (let! element := await (findElement driver
                          (css ("meta[name=" +:+ quoted name +:+ "], meta[property="
                                +:+ quoted name +:+ "]"))) in
        await (getAttribute driver element "content"))
       (fun _ => ret None)).

(** [getLinkHref] *)
Definition getLinkHref (rel : string) : M W (option string) :=
  scope tt
    (try_catch
       (let! element := await (findElement driver
                          (css ("link[rel=" +:+ quoted rel +:+ "]"))) in
        await (getAttribute driver element "href"))
       (fun _ => ret None)).

(** [extractMetadata]; the variable in scope is [metadata]. *)
Definition set_charset (v : option string) (m : Metadata.t Json) : Metadata.t Json :=
  {| Metadata.charset := v; Metadata.viewport := Metadata.viewport m;
     Metadata.robots := Metadata.robots m; Metadata.canonical := Metadata.canonical m;
     Metadata.openGraph := Metadata.openGraph m;
     Metadata.twitterCard := Metadata.twitterCard m; Metadata.jsonLd := Metadata.jsonLd m |}.

Definition set_viewport (v : option string) (m : Metadata.t Json) : Metadata.t Json :=
  {| Metadata.charset := Metadata.charset m; Metadata.viewport := v;
     Metadata.robots := Metadata.robots m; Metadata.canonical := Metadata.canonical m;
     Metadata.openGraph := Metadata.openGraph m;
     Metadata.twitterCard := Metadata.twitterCard m; Metadata.jsonLd := Metadata.jsonLd m |}.

Definition set_robots (v : option string) (m : Metadata.t Json) : Metadata.t Json :=
  {| Metadata.charset := Metadata.charset m; Metadata.viewport := Metadata.viewport m;
     Metadata.robots := v; Metadata.canonical := Metadata.canonical m;
     Metadata.openGraph := Metadata.openGraph m;
     Metadata.twitterCard := Metadata.twitterCard m; Metadata.jsonLd := Metadata.jsonLd m |}.

Definition set_canonical (v : option string) (m : Metadata.t Json) : Metadata.t Json :=
  {| Metadata.charset := Metadata.charset m; Metadata.viewport := Metadata.viewport m;
     Metadata.robots := Metadata.robots m; Metadata.canonical := v;
     Metadata.openGraph := Metadata.openGraph m;
     Metadata.twitterCard := Metadata.twitterCard m; Metadata.jsonLd := Metadata.jsonLd m |}.

Definition set_openGraph (property content : string) (m : Metadata.t Json) : Metadata.t Json :=
  {| Metadata.charset := Metadata.charset m; Metadata.viewport := Metadata.viewport m;
     Metadata.robots := Metadata.robots m; Metadata.canonical := Metadata.canonical m;
     Metadata.openGraph := <[property := content]> (Metadata.openGraph m);
     Metadata.twitterCard := Metadata.twitterCard m; Metadata.jsonLd := Metadata.jsonLd m |}.

Definition set_twitterCard (name content : string) (m : Metadata.t Json) : Metadata.t Json :=
  {| Metadata.charset := Metadata.charset m; Metadata.viewport := Metadata.viewport m;
     Metadata.robots := Metadata.robots m; Metadata.canonical := Metadata.canonical m;
     Metadata.openGraph := Metadata.openGraph m;
     Metadata.twitterCard := <[name := content]> (Metadata.twitterCard m);
     Metadata.jsonLd := Metadata.jsonLd m |}.

Definition push_jsonLd (v : Json) (m : Metadata.t Json) : Metadata.t Json :=
  {| Metadata.charset := Metadata.charset m; Metadata.viewport := Metadata.viewport m;
     Metadata.robots := Metadata.robots m; Metadata.canonical := Metadata.canonical m;
     Metadata.openGraph := Metadata.openGraph m;
     Metadata.twitterCard := Metadata.twitterCard m;
     Metadata.jsonLd := push v (Metadata.jsonLd m) |}.

Definition extractMetadata : M W (Metadata.t Json) :=
  scope
    {| Metadata.charset := None; Metadata.viewport := None; Metadata.robots := None;
       Metadata.canonical := None; Metadata.openGraph := ∅;
       Metadata.twitterCard := ∅; Metadata.jsonLd := [] |}
    (try_catch
       (let! charset := await (getMetaContent "charset") in
        modify (set_charset charset) >>
        let! viewport := await (getMetaContent "viewport") in
        modify (set_viewport viewport) >>
        let! robots := await (getMetaContent "robots") in
        modify (set_robots robots) >>
        let! canonical := await (getLinkHref "canonical") in
        modify (set_canonical canonical) >>
        let! ogTags := await (findElements driver
                         (css ("meta[property^=" +:+ quoted "og:" +:+ "]"))) in
        for_of ogTags (fun tag =>
          let! property := await (getAttribute driver tag "property") in
          let! content := await (getAttribute driver tag "content") in
          match or_undefined property, or_undefined content with
          | Some p, Some c => modify (set_openGraph p c)
          | _, _ => ret tt
          end) >>
        let! twitterTags := await (findElements driver
                              (css ("meta[name^=" +:+ quoted "twitter:" +:+ "]"))) in
        for_of twitterTags (fun tag =>
          let! name := await (getAttribute driver tag "name") in
          let! content := await (getAttribute driver tag "content") in
          match or_undefined name, or_undefined content with
          | Some n, Some c => modify (set_twitterCard n c)
          | _, _ => ret tt
          end) >>
        let! jsonLdScripts := await (findElements driver
                                (css ("script[type=" +:+ quoted "application/ld+json" +:+ "]"))) in
        for_of jsonLdScripts (fun script =>
          try_catch
            (let! content := await (getAttribute driver script "innerHTML") in
             match or_undefined content with
             | Some c => let! v := JSON_parse_or_throw c in modify (push_jsonLd v)
             | None => ret tt
             end)
            (fun _ => ret tt)))
       (fun _ => ret tt) >>
     get).

(** [extractKeywords] *)
Definition extractKeywords : M W (list string) :=
  scope tt
    (let! found :=
       try_catch
         (let! keywordsContent := await (getMetaContent "keywords") in
          match or_undefined keywordsContent with
          | Some content =>
              ret (Some (List.filter (fun k => 0 <? String.length k)
                           (map trim (split "," content))))
          | None => ret None
          end)
         (fun _ => ret None) in
     match found with
     | Some keywords => ret keywords
     | None => ret []
     end).

(** [extractTextContent] *)
Definition extractTextContent : M W string :=
  scope tt
    (try_catch
       (let! body := await (findElement driver (tagName "body")) in
        await (getText driver body))
       (fun _ => ret "")).

(** [extractHeadings] *)
Definition extractHeadings : M W (list Heading.t) :=
  scope []
    (try_catch
       (for_of (seq 1 6) (fun level =>
          let! elements := await (findElements driver
                             (tagName ("h" +:+ show_Z (Z.of_nat level)))) in
          for_of elements (fun element =>
            let! text := await (getText driver element) in
            let! id := await (getAttribute driver element "id") in
            when (nonblank text)
              (modify (push {| Heading.level := level;
                               Heading.text := trim text;
                               Heading.id := or_undefined id |})))))
       (fun _ => ret tt) >>
     let! headings := get in
     ret (sort (fun a b => (Z.of_nat (Heading.level a) - Z.of_nat (Heading.level b))%Z)
               headings)).

(** [extractParagraphs] *)
Definition extractParagraphs : M W (list string) :=
  scope []
    (try_catch
       (let! elements := await (findElements driver (tagName "p")) in
        for_of elements (fun element =>
          let! text := await (getText driver element) in
          when (nonblank text && (10 <? String.length text))
            (modify (push (trim text)))))
       (fun _ => ret tt) >>
     get).

(** The inner loop of [extractLists]: the [listItems] of one list. *)
Definition listItemsOf (items : list E) : M W (list string) :=
  scope []
    (for_of items (fun item =>
       let! text := await (getText driver item) in
       when (nonblank text) (modify (push (trim text)))) >>
     get).

(** [extractLists] *)
Definition extractLists : M W (list ListBlock.t) :=
  scope []
    (try_catch
       (let! olElements := await (findElements driver (tagName "ol")) in
        for_of olElements (fun ol =>
          let! items := await (findElementsIn driver ol (tagName "li")) in
          let! listItems := await (listItemsOf items) in
          when (0 <? length listItems)
            (modify (push {| ListBlock.type := ListBlock.ordered;
                             ListBlock.items := listItems |}))) >>
        let! ulElements := await (findElements driver (tagName "ul")) in
        for_of ulElements (fun ul =>
          let! items := await (findElementsIn driver ul (tagName "li")) in
          let! listItems := await (listItemsOf items) in
          when (0 <? length listItems)
            (modify (push {| ListBlock.type := ListBlock.unordered;
                             ListBlock.items := listItems |}))))
       (fun _ => ret tt) >>
     get).

(** The three guarded blocks of [extractTables], for one table. *)
Definition tableCaption (table : E) : M W (option string) :=
  scope None
    (try_catch
       (let! captionElement := await (findElementIn driver table (tagName "caption")) in
        let! text := await (getText driver captionElement) in
        modify (fun _ => Some text))
       (fun _ => ret tt) >>
     get).

Definition tableHeaders (table : E) : M W (list string) :=
  scope []
    (try_catch
       (let! headerElements := await (findElementsIn driver table
                                 (css "thead th, tr:first-child th")) in
        for_of headerElements (fun header =>
          let! text := await (getText driver header) in
          modify (push (trim text))))
       (fun _ => ret tt) >>
     get).

Definition rowDataOf (cellElements : list E) : M W (list string) :=
  scope []
    (for_of cellElements (fun cell =>
       let! text := await (getText driver cell) in
       modify (push (trim text))) >>
     get).

Definition tableRows (table : E) : M W (list (list string)) :=
  scope []
    (try_catch
       (let! rowElements := await (findElementsIn driver table (css "tbody tr, tr")) in
        for_of rowElements (fun row =>
          let! cellElements := await (findElementsIn driver row (css "td, th")) in
          let! rowData := await (rowDataOf cellElements) in
          when (0 <? length rowData) (modify (push rowData))))
       (fun _ => ret tt) >>
     get).

(** [extractTables] *)
Definition extractTables : M W (list Table.t) :=
  scope []
    (try_catch
       (let! tableElements := await (findElements driver (tagName "table")) in
        for_of tableElements (fun table =>
          let! caption := await (tableCaption table) in
          let! headers := await (tableHeaders table) in
          let! rows := await (tableRows table) in
          when (0 <? length rows)
            (modify (push {| Table.headers := headers;
                             Table.rows := rows;
                             Table.caption := caption |}))))
       (fun _ => ret tt) >>
     get).

(** The guarded blocks of [extractForms], for one field. *)
Definition fieldLabel (input : E) : M W (option string) :=
  scope None
    (try_catch
       (let! id := await (getAttribute driver input "id") in
        match or_undefined id with
        | Some id' =>
            let! labelElement := await (findElement driver
                                   (css ("label[for=" +:+ quoted id' +:+ "]"))) in
            let! text := await (getText driver labelElement) in
            modify (fun _ => Some text)
        | None => ret tt
        end)
       (fun _ => ret tt) >>
     get).

Definition fieldOptions (input : E) : M W (option (list string)) :=
  scope None
    (try_catch
       (let! optionElements := await (findElementsIn driver input (tagName "option")) in
        modify (fun _ => Some []) >>
        for_of optionElements (fun option =>
          let! text := await (getText driver option) in
          when (nonblank text)
            (modify (fun options => Some (push (trim text) (default [] options))))))
       (fun _ => ret tt) >>
     get).

Definition formFields (inputElements : list E) : M W (list FormField.t) :=
  scope []
    (for_of inputElements (fun input =>
       let! typeAttr := await (getAttribute driver input "type") in
       let type := or_default typeAttr "text" in
       let! name := await (getAttribute driver input "name") in
       let! placeholder := await (getAttribute driver input "placeholder") in
       let! requiredAttr := await (getAttribute driver input "required") in
       let required := match requiredAttr with Some _ => true | None => false end in
       let! label := await (fieldLabel input) in
       let! options :=
         (if String.eqb type "select" then await (fieldOptions input) else ret None) in
       modify (push {| FormField.name := or_undefined name;
                       FormField.type := type;
                       FormField.label := or_undefined label;
                       FormField.placeholder := or_undefined placeholder;
                       FormField.required := required;
                       FormField.options := options |})) >>
     get).

(** [extractForms] *)
Definition extractForms : M W (list Form.t) :=
  scope []
    (try_catch
       (let! formElements := await (findElements driver (tagName "form")) in
        for_of formElements (fun form =>
          let! action := await (getAttribute driver form "action") in
          let! method := await (getAttribute driver form "method") in
          let! inputElements := await (findElementsIn driver form
                                  (css "input, textarea, select")) in
          let! fields := await (formFields inputElements) in
          modify (push {| Form.action := or_undefined action;
                          Form.method := or_undefined method;
                          Form.fields := fields |})))
       (fun _ => ret tt) >>
     get).

(** [extractImages] *)
Definition extractImages : M W (list ImageData.t) :=
  scope []
    (try_catch
       (let! imgElements := await (findElements driver (tagName "img")) in
        for_of imgElements (fun img =>
          let! src := await (getAttribute driver img "src") in
          let! altAttr := await (getAttribute driver img "alt") in
          let alt := or_default altAttr "" in
          let! title := await (getAttribute driver img "title") in
          let! width := await (getAttribute driver img "width") in
          let! height := await (getAttribute driver img "height") in
          match or_undefined src with
          | Some src' =>
              let! resolved := new_URL_with_base src' baseUrl in
              let absoluteSrc := URL.href resolved in
              let format := getImageFormat absoluteSrc in
              modify (push {| ImageData.src := absoluteSrc;
                              ImageData.alt := alt;
                              ImageData.title := or_undefined title;
                              ImageData.width := or_undefined width;
                              ImageData.height := or_undefined height;
                              ImageData.format := format;
                              ImageData.size := None;
                              ImageData.downloaded := None;
                              ImageData.localPath := None |})
          | None => ret tt
          end))
       (fun _ => ret tt) >>
     get).

(** [extractLinks] *)
Definition extractLinks : M W (list LinkData.t) :=
  scope []
    (try_catch
       (let! linkElements := await (findElements driver (tagName "a")) in
        for_of linkElements (fun link =>
          let! href := await (getAttribute driver link "href") in
          let! text := await (getText driver link) in
          let! title := await (getAttribute driver link "title") in
          match or_undefined href with
          | Some href' =>
              let type := getLinkType href' baseUrl in
              let! domain :=
                match type with
                | LinkData.external =>
                    let! url := new_URL href' in ret (Some (URL.hostname url))
                | _ => ret None
                end in
              modify (push {| LinkData.href := href';
                              LinkData.text := trim text;
                              LinkData.title := or_undefined title;
                              LinkData.type := type;
                              LinkData.domain := domain |})
          | None => ret tt
          end))
       (fun _ => ret tt) >>
     get).

(** The microdata properties of one scope: the inner loop of
    [extractStructuredData]. *)
Definition microdataProperties (propElements : list E) : M W (gmap string string) :=
  scope ∅
    (for_of propElements (fun prop =>
       let! name := await (getAttribute driver prop "itemprop") in
       let! contentAttr := await (getAttribute driver prop "content") in
       let! content :=
         match or_undefined contentAttr with
         | Some c => ret (Some c)
         | None => let! text := await (getText driver prop) in ret (Some text)
         end in
       match or_undefined name, or_undefined content with
       | Some n, Some c => modify (fun properties => <[n := c]> properties)
       | _, _ => ret tt
       end) >>
     get).

(** [{ "@type": itemType, ...properties }] *)
Definition microdataObject (itemType : option string) (properties : gmap string string)
    : gmap string (option string) :=
  (Some <$> properties) ∪ {[ "@type" := itemType ]}.

(** [extractStructuredData] *)
Definition extractStructuredData : M W (list (StructuredData.t Json)) :=
  scope []
    (try_catch
       (let! jsonLdElements := await (findElements driver
                                 (css ("script[type=" +:+ quoted "application/ld+json" +:+ "]"))) in
        for_of jsonLdElements (fun element =>
          try_catch
            (let! content := await (getAttribute driver element "innerHTML") in
             match or_undefined content with
             | Some c =>
                 let! v := JSON_parse_or_throw c in
                 modify (push (StructuredData.JsonLd v))
             | None => ret tt
             end)
            (fun _ => ret tt)) >>
        let! microdataElements := await (findElements driver (css "[itemscope]")) in
        for_of microdataElements (fun element =>
          try_catch
            (let! itemType := await (getAttribute driver element "itemtype") in
             let! propElements := await (findElementsIn driver element (css "[itemprop]")) in
             let! properties := await (microdataProperties propElements) in
             when (0 <? size properties)
               (modify (push (StructuredData.Microdata
                                (microdataObject itemType properties)))))
            (fun _ => ret tt)))
       (fun _ => ret tt) >>
     get).

(** [extractSocialMedia] *)
Definition socialSelectors : list (string * string) :=
  [ ("facebook", "a[href*=" +:+ quoted "facebook.com" +:+ "], a[href*="
                 +:+ quoted "fb.com" +:+ "]");
    ("twitter", "a[href*=" +:+ quoted "twitter.com" +:+ "], a[href*="
                +:+ quoted "x.com" +:+ "]");
    ("instagram", "a[href*=" +:+ quoted "instagram.com" +:+ "]");
    ("linkedin", "a[href*=" +:+ quoted "linkedin.com" +:+ "]");
    ("youtube", "a[href*=" +:+ quoted "youtube.com" +:+ "], a[href*="
                +:+ quoted "youtu.be" +:+ "]");
    ("tiktok", "a[href*=" +:+ quoted "tiktok.com" +:+ "]") ].

Definition extractSocialMedia : M W (gmap string string) :=
  scope ∅
    (try_catch
       (for_of socialSelectors (fun '(platform, selector) =>
          try_catch
            (let! element := await (findElement driver (css selector)) in
             let! href := await (getAttribute driver element "href") in
             match or_undefined href with
             | Some h => modify (fun socialMedia => <[platform := h]> socialMedia)
             | None => ret tt
             end)
            (fun _ => ret tt)))
       (fun _ => ret tt) >>
     get).

(** [extractContactInfo]; the variable in scope is [contactInfo]. *)
Definition set_emails (v : list string) (c : ContactInfo.t) : ContactInfo.t :=
  {| ContactInfo.emails := v; ContactInfo.phones := ContactInfo.phones c;
     ContactInfo.addresses := ContactInfo.addresses c |}.

Definition set_phones (v : list string) (c : ContactInfo.t) : ContactInfo.t :=
  {| ContactInfo.emails := ContactInfo.emails c; ContactInfo.phones := v;
     ContactInfo.addresses := ContactInfo.addresses c |}.

Definition set_addresses (v : list string) (c : ContactInfo.t) : ContactInfo.t :=
  {| ContactInfo.emails := ContactInfo.emails c; ContactInfo.phones := ContactInfo.phones c;
     ContactInfo.addresses := v |}.

Definition extractContactInfo : M W ContactInfo.t :=
  scope
    {| ContactInfo.emails := []; ContactInfo.phones := []; ContactInfo.addresses := [] |}
    (try_catch
       (let! bodyText := await extractTextContent in
        let emails := match_all emailRegex bodyText in
        modify (set_emails (spread_set emails)) >>
        let! phonePattern :=
          match phoneRegex (RegExp_quantified_assertion rt) with
          | Some r => ret r
          | None => throw "SyntaxError: Invalid regular expression: Nothing to repeat"
          end in
        let phones := match_all phonePattern bodyText in
        modify (set_phones (spread_set phones)) >>
        let addresses := match_all addressRegex bodyText in
        modify (set_addresses (spread_set addresses)))
       (fun _ => ret tt) >>
     get).

(** [a || (await getMetaContent(name)) || ""]: the meta tag is read only
    when [a] is falsy. *)
Definition or_meta_content (a : option string) (name : string) : M W string :=
  scope tt
    match or_undefined a with
    | Some v => ret v
    | None => let! v := await (getMetaContent name) in ret (or_default v "")
    end.

(** [extractAll] *)
Definition extractAll : M W (ExtractedContent.t Json) :=
  scope tt
    (let! url := await (getCurrentUrl driver) in
     let! title := await (getTitle driver) in
     let! metadata := await extractMetadata in
     let! description :=
       await (or_meta_content (Metadata.openGraph metadata !! "og:description")
                "description") in
     let! keywords := await extractKeywords in
     let! author :=
       await (or_meta_content (Metadata.openGraph metadata !! "og:author") "author") in
     let! publishDate :=
       await (or_meta_content (Metadata.openGraph metadata !! "og:published_time")
                "article:published_time") in
     let! lang := await (executeScript driver DocumentLang) in
     let language := or_default lang "en" in
     let! textContent := await extractTextContent in
     let cleanedText := cleanText textContent in
     let! headings := await extractHeadings in
     let! paragraphs := await extractParagraphs in
     let! lists := await extractLists in
     let! tables := await extractTables in
     let! forms := await extractForms in
     let! images := await extractImages in
     let! links := await extractLinks in
     let! structuredData := await extractStructuredData in
     let! socialMedia := await extractSocialMedia in
     let! contactInfo := await extractContactInfo in
     ret {| ExtractedContent.url := url;
            ExtractedContent.title := title;
            ExtractedContent.description := description;
            ExtractedContent.keywords := keywords;
            ExtractedContent.author := author;
            ExtractedContent.publishDate := publishDate;
            ExtractedContent.language := language;
            ExtractedContent.textContent := textContent;
            ExtractedContent.cleanedText := cleanedText;
            ExtractedContent.headings := headings;
            ExtractedContent.paragraphs := paragraphs;
            ExtractedContent.lists := lists;
            ExtractedContent.tables := tables;
            ExtractedContent.forms := forms;
            ExtractedContent.images := images;
            ExtractedContent.links := links;
            ExtractedContent.metadata := metadata;
            ExtractedContent.structuredData := structuredData;
            ExtractedContent.socialMedia := socialMedia;
            ExtractedContent.contactInfo := contactInfo;
            ExtractedContent.downloadedImages := None;
            ExtractedContent.captchaDetected := None;
            ExtractedContent.timestamp := None |}).

(** [Date.now()] *)
Definition clock : M W Z := fun w => (inr (Date_now rt w), w).

(** [generateImageFilename]; [new URL] may throw. *)
Definition generateImageFilename (url : string) (format : option string) : M W string :=
  scope tt
    (let! urlObj := new_URL url in
     let pathname := URL.pathname urlObj in
     let filename := or_default (pop (split "/" pathname)) "image" in
     match (if negb (includes filename ".") then or_undefined format else None) with
     | Some fmt => ret (filename +:+ "." +:+ fmt)
     | None =>
         if negb (String.eqb filename "")
         then ret filename
         else let! now := await clock in
              ret ("image_" +:+ show_Z now +:+ ".jpg")
     end).

(** [{ ...image, size, downloaded: true, localPath }] and
    [{ ...image, downloaded: false }] *)
Definition image_downloaded (image : ImageData.t) (size : nat) (localPath : string)
    : ImageData.t :=
  {| ImageData.src := ImageData.src image;
     ImageData.alt := ImageData.alt image;
     ImageData.title := ImageData.title image;
     ImageData.width := ImageData.width image;
     ImageData.height := ImageData.height image;
     ImageData.format := ImageData.format image;
     ImageData.size := Some size;
     ImageData.downloaded := Some true;
     ImageData.localPath := Some localPath |}.

Definition image_failed (image : ImageData.t) : ImageData.t :=
  {| ImageData.src := ImageData.src image;
     ImageData.alt := ImageData.alt image;
     ImageData.title := ImageData.title image;
     ImageData.width := ImageData.width image;
     ImageData.height := ImageData.height image;
     ImageData.format := ImageData.format image;
     ImageData.size := ImageData.size image;
     ImageData.downloaded := Some false;
     ImageData.localPath := ImageData.localPath image |}.

(** [downloadImages(images, downloadDir)] *)
Definition downloadImages (images : list ImageData.t) (downloadDir : string)
    : M W (list ImageData.t) :=
  scope []
    (try_catch
       (await (fs_mkdir rt downloadDir) >>
        for_of images (fun image =>
          try_catch
            (let! response := await (fetch rt (ImageData.src image)) in
             when (Response.ok response)
               (let! buffer := await (Response.buffer response) in
                let! filename := await (generateImageFilename (ImageData.src image)
                                          (ImageData.format image)) in
                let localPath := path_join rt downloadDir filename in
                await (fs_writeFile rt localPath buffer) >>
                modify (push (image_downloaded image (length buffer) localPath))))
            (fun _ => modify (push (image_failed image)))))
       (fun _ => ret tt) >>
     get).

End WithSession.
End ContentExtractor.

(* --------------------------------------------------------------------- *)
(** ** class SeleniumScraper and the POST route                            *)
(* --------------------------------------------------------------------- *)

Module ScrapingConfig.
Record t := {
  extractText : bool;
  extractImages : bool;
  extractLinks : bool;
  bypassAntiBot : bool;
  useProxy : option bool;
  waitTime : Q;
  scrollToBottom : bool;
  proxyUrl : option string;
  humanBehavior : option bool;
  stealthMode : option bool
}.
End ScrapingConfig.

Module SeleniumScraper.
Import JsString Effects.
Local Open Scope js_scope.

(** What happens to the browser session during a request: [Built] when
    [Builder.build] has returned the session, [QuitCalled] when
    [driver.quit()] is called, [Failed] when the route's [catch] receives
    an error. The trace is a ghost variable of the model. *)
Inductive Event :=
| Built
| QuitCalled
| Failed (error : Err).

(** The mutable state of one request: whether [this.driver] holds a
    session (it is [null] otherwise), and the trace. *)
Record state := {
  this_driver : bool;
  trace : list Event
}.

Definition record (ev : Event) (s : state) : state :=
  {| this_driver := this_driver s; trace := trace s ++ [ev] |}.

Definition set_driver (b : bool) (s : state) : state :=
  {| this_driver := b; trace := trace s |}.

(** [this.driver = await new Builder()...build()], once [build] has
    returned. *)
Definition session_built (s : state) : state :=
  record Built (set_driver true s).

(** The arguments [initDriver] adds when [bypassAntiBot] is set, before
    the user agent and the window size. *)
Definition stealthArguments : list string :=
  [ "--no-sandbox"; "--disable-dev-shm-usage";
    "--disable-blink-features=AutomationControlled"; "--disable-extensions";
    "--disable-plugins"; "--disable-gpu"; "--no-first-run";
    "--no-default-browser-check"; "--disable-default-apps";
    "--disable-popup-blocking"; "--disable-translate";
    "--disable-background-timer-throttling"; "--disable-renderer-backgrounding";
    "--disable-backgrounding-occluded-windows";
    "--disable-client-side-phishing-detection"; "--disable-sync";
    "--disable-features=TranslateUI,BlinkGenPropertyTrees";
    "--disable-ipc-flooding-protection"; "--disable-hang-monitor";
    "--disable-prompt-on-repost"; "--disable-domain-reliability";
    "--disable-component-extensions-with-background-pages";
    "--disable-background-networking"; "--disable-breakpad";
    "--disable-component-update"; "--disable-features=VizDisplayCompositor";
    "--disable-features=AudioServiceOutOfProcess";
    "--disable-features=VizServiceDisplayCompositor"; "--disable-logging";
    "--disable-login-animations"; "--disable-notifications";
    "--disable-permissions-api"; "--disable-web-security";
    "--allow-running-insecure-content"; "--ignore-certificate-errors";
    "--ignore-ssl-errors"; "--ignore-certificate-errors-spki-list" ].

Definition viewports : list (Z * Z) :=
  [ (1920, 1080); (1366, 768); (1440, 900); (1536, 864);
    (1280, 720); (1600, 900); (1024, 768) ]%Z.

Definition captchaSelectors : list string :=
  [ "[class*=" +:+ ContentExtractor.quoted "captcha" +:+ "]";
    "[id*=" +:+ ContentExtractor.quoted "captcha" +:+ "]";
    "[class*=" +:+ ContentExtractor.quoted "recaptcha" +:+ "]";
    "[id*=" +:+ ContentExtractor.quoted "recaptcha" +:+ "]";
    "iframe[src*=" +:+ ContentExtractor.quoted "recaptcha" +:+ "]";
    ".g-recaptcha";
    "#cf-challenge-stage";
    ".cf-browser-verification";
    "[class*=" +:+ ContentExtractor.quoted "cloudflare" +:+ "]" ].

(** [a[i]] for an index computed from a random draw. *)
Definition at_index {A} (xs : list A) (i : Z) : option A :=
  if (i <? 0)%Z then None else nth_error xs (Z.to_nat i).

Definition is_true (v : option bool) : bool := default false v.

Section WithRuntime.
Context {W E Json : Type}.
Variable rt : Runtime W Json.
Variable driver : WebDriver W E.
Variable config : ScrapingConfig.t.

(** [Math.random()] *)
Definition random : M W Q :=
  fun w => let '(r, w') := Math_random rt w in (inr r, w').

(** [AntiDetectionUtils.getRandomDelay(min, max)] *)
Definition getRandomDelay (min max : Q) : M W Q :=
  scope tt
    (let! r := await random in
     ret (Double.add
            (inject_Z (Double.floor
                         (Double.mul r (Double.add (Double.sub max min) 1))))
            min)).

(** [AntiDetectionUtils.getRandomViewport()], [undefined] out of range. *)
Definition getRandomViewport : M W (option (Z * Z)) :=
  scope tt
    (let! r := await random in
     ret (at_index viewports
            (Double.floor (Double.mul r (inject_Z (Z.of_nat (length viewports))))))).

(** [simulateHumanBehavior] *)
Definition simulateHumanBehavior : T W state unit :=
  let! s := get in
  if negb (this_driver s) then ret tt
  else
    try_catch
      (await (executeScript driver RandomMouseMoves) >>
       await (executeScript driver HumanScroll) >>
       let! delay := await (getRandomDelay 500 1500) in
       await (sleep driver delay))
      (fun _ => ret tt).

(** A call of a method of the options: it returns or throws. *)
Definition method_call (outcome : Err + unit) : T W state unit :=
  match outcome with
  | inl e => throw e
  | inr _ => ret tt
  end.

(** [initDriver]. The options are the command-line arguments in the
    order they are added, followed by the calls that set the two
    experimental options and the preferences (by whether they throw;
    their values are read by no property). *)
Definition initDriver : T W state unit :=
  let! viewport := await getRandomViewport in
  let! stealth :=
    (if ScrapingConfig.bypassAntiBot config
     then
       let! userAgent := await (UserAgent_desktop rt) in
       let! size :=
         match viewport with
         | Some (width, height) =>
             ret ("--window-size=" +:+ show_Z width +:+ "," +:+ show_Z height)
         | None => throw "TypeError: Cannot read properties of undefined"
         end in
       method_call (Options_setExperimentalOption rt "excludeSwitches") >>
       method_call (Options_setExperimentalOption rt "useAutomationExtension") >>
       method_call (Options_setUserPreferences rt) >>
       ret (stealthArguments ++ [ "--user-agent=" +:+ userAgent; size ])
     else ret []) in
  let proxy :=
    match ScrapingConfig.proxyUrl config with
    | Some proxyUrl =>
        if is_true (ScrapingConfig.useProxy config) && negb (String.eqb proxyUrl "")
        then [ "--proxy-server=" +:+ proxyUrl ]
        else []
    | None => []
    end in
  let headless :=
    match NODE_ENV rt with
    | Some env => if String.eqb env "production" then [ "--headless=new" ] else []
    | None => []
    end in
  await (Builder_build rt (stealth ++ proxy ++ headless)) >>
  modify session_built >>
  when (ScrapingConfig.bypassAntiBot config)
    (match viewport with
     | Some (width, height) => await (executeScript driver (StealthPatches width height))
     | None => throw "TypeError: Cannot read properties of undefined"
     end >>
     when (is_true (ScrapingConfig.humanBehavior config)) simulateHumanBehavior).

(** The loop of [detectCaptcha]: the first selector that finds an
    element answers [true]; a selector whose lookup throws is skipped. *)
Fixpoint firstCaptcha (selectors : list string) : T W state bool :=
  match selectors with
  | [] => ret false
  | selector :: selectors' =>
      let! found :=
        try_catch
          (let! elements := await (findElements driver (css selector)) in
           ret (0 <? length elements))
          (fun _ => ret false) in
      if found then ret true else firstCaptcha selectors'
  end.

(** [detectCaptcha] *)
Definition detectCaptcha : T W state bool :=
  let! s := get in
  if negb (this_driver s) then ret false
  else try_catch (firstCaptcha captchaSelectors) (fun _ => ret false).

(** [scrollToBottom] *)
Definition scrollToBottom : T W state unit :=
  let! s := get in
  if negb (this_driver s) then ret tt
  else await (executeScript driver ScrollToBottom) >> ret tt.

(** [{ ...extractedContent, images, downloadedImages }] and the returned
    [{ ...extractedContent, captchaDetected, timestamp }]. *)
Definition with_downloads (c : ExtractedContent.t Json)
    (images : list ImageData.t) (paths : list (option string)) : ExtractedContent.t Json :=
  {| ExtractedContent.url := ExtractedContent.url c;
     ExtractedContent.title := ExtractedContent.title c;
     ExtractedContent.description := ExtractedContent.description _ c;
     ExtractedContent.keywords := ExtractedContent.keywords _ c;
     ExtractedContent.author := ExtractedContent.author _ c;
     ExtractedContent.publishDate := ExtractedContent.publishDate _ c;
     ExtractedContent.language := ExtractedContent.language _ c;
     ExtractedContent.textContent := ExtractedContent.textContent _ c;
     ExtractedContent.cleanedText := ExtractedContent.cleanedText _ c;
     ExtractedContent.headings := ExtractedContent.headings _ c;
     ExtractedContent.paragraphs := ExtractedContent.paragraphs _ c;
     ExtractedContent.lists := ExtractedContent.lists _ c;
     ExtractedContent.tables := ExtractedContent.tables _ c;
     ExtractedContent.forms := ExtractedContent.forms _ c;
     ExtractedContent.images := images;
     ExtractedContent.links := ExtractedContent.links c;
     ExtractedContent.metadata := ExtractedContent.metadata _ c;
     ExtractedContent.structuredData := ExtractedContent.structuredData _ c;
     ExtractedContent.socialMedia := ExtractedContent.socialMedia _ c;
     ExtractedContent.contactInfo := ExtractedContent.contactInfo c;
     ExtractedContent.downloadedImages := Some paths;
     ExtractedContent.captchaDetected := ExtractedContent.captchaDetected c;
     ExtractedContent.timestamp := ExtractedContent.timestamp c |}.

Definition with_stamp (c : ExtractedContent.t Json)
    (hasCaptcha : bool) (timestamp : string) : ExtractedContent.t Json :=
  {| ExtractedContent.url := ExtractedContent.url c;
     ExtractedContent.title := ExtractedContent.title c;
     ExtractedContent.description := ExtractedContent.description _ c;
     ExtractedContent.keywords := ExtractedContent.keywords _ c;
     ExtractedContent.author := ExtractedContent.author _ c;
     ExtractedContent.publishDate := ExtractedContent.publishDate _ c;
     ExtractedContent.language := ExtractedContent.language _ c;
     ExtractedContent.textContent := ExtractedContent.textContent _ c;
     ExtractedContent.cleanedText := ExtractedContent.cleanedText _ c;
     ExtractedContent.headings := ExtractedContent.headings _ c;
     ExtractedContent.paragraphs := ExtractedContent.paragraphs _ c;
     ExtractedContent.lists := ExtractedContent.lists _ c;
     ExtractedContent.tables := ExtractedContent.tables _ c;
     ExtractedContent.forms := ExtractedContent.forms _ c;
     ExtractedContent.images := ExtractedContent.images c;
     ExtractedContent.links := ExtractedContent.links c;
     ExtractedContent.metadata := ExtractedContent.metadata _ c;
     ExtractedContent.structuredData := ExtractedContent.structuredData _ c;
     ExtractedContent.socialMedia := ExtractedContent.socialMedia _ c;
     ExtractedContent.contactInfo := ExtractedContent.contactInfo c;
     ExtractedContent.downloadedImages := ExtractedContent.downloadedImages c;
     ExtractedContent.captchaDetected := Some hasCaptcha;
     ExtractedContent.timestamp := Some timestamp |}.

(** [new Date().toISOString()] *)
Definition isoNow : M W string := fun w => (inr (Date_toISOString rt w), w).

(** [scrapeUrl] *)
Definition scrapeUrl (url : string) : T W state (ExtractedContent.t Json) :=
  let! s := get in
  when (negb (this_driver s)) initDriver >>
  let! s := get in
  if negb (this_driver s) then throw "Failed to initialize WebDriver"
  else
    try_catch
      (await (navigate driver url) >>
       let! settle := await (getRandomDelay 2000 4000) in
       await (sleep driver settle) >>
       let! hasCaptcha := detectCaptcha in
       when hasCaptcha (await (sleep driver 5000)) >>
       when (is_true (ScrapingConfig.humanBehavior config)) simulateHumanBehavior >>
       let! pause := await (getRandomDelay (ScrapingConfig.waitTime config)
                              (Double.add (ScrapingConfig.waitTime config) 2000)) in
       await (sleep driver pause) >>
       when (ScrapingConfig.scrollToBottom config) scrollToBottom >>
       let! extractedContent := await (ContentExtractor.extractAll rt driver url) in
       let! extractedContent :=
         (if ScrapingConfig.extractImages config
             && (0 <? length (ExtractedContent.images extractedContent))
          then
            let! downloadedImages :=
              await (ContentExtractor.downloadImages rt
                       (ExtractedContent.images extractedContent) "./downloads") in
            ret (with_downloads extractedContent downloadedImages
                   (map ImageData.localPath
                      (List.filter (fun img => is_true (ImageData.downloaded img))
                         downloadedImages)))
          else ret extractedContent) in
       let! timestamp := await isoNow in
       ret (with_stamp extractedContent hasCaptcha timestamp))
      (fun error => throw error).

(** [close] *)
Definition close : T W state unit :=
  let! s := get in
  when (this_driver s)
    (modify (record QuitCalled) >>
     await (quit driver) >>
     modify (set_driver false)).

End WithRuntime.
End SeleniumScraper.

Module Route.
Import JsString Effects SeleniumScraper.
Local Open Scope js_scope.

(** The body of a [NextResponse.json(...)]. *)
Inductive body (Json : Type) :=
| Results (content : ExtractedContent.t Json)
| ErrorBody (error : string) (details : option string).
Arguments Results {Json}.
Arguments ErrorBody {Json}.

Record NextResponse (Json : Type) := {
  status : nat;
  json : body Json
}.
Arguments status {Json}.
Arguments json {Json}.

(** The state of the scraper a request starts with: no session, and
    nothing recorded. *)
Definition fresh : state := {| this_driver := false; trace := [] |}.

(** The answer of the [catch] of the route to an error. *)
Definition failure {Json : Type} (error : string) : NextResponse Json :=
  {| status := 500; json := ErrorBody "Scraping failed" (Some error) |}.

Section WithRuntime.
Context {W E Json : Type}.
Variable rt : Runtime W Json.
Variable driver : WebDriver W E.

(** [POST(request)]; [request_json] is [request.json()], which yields the
    [url] (possibly missing) and the [config]. The response comes with
    the trace of the request. *)
Definition POST (request_json : M W (option string * ScrapingConfig.t))
    : M W (NextResponse Json * list Event) :=
  scope {| this_driver := false; trace := [] |}
    (let! response :=
       try_catch
         (let! request := await request_json in
          let '(url, config) := request in
          match or_undefined url with
          | None =>
              ret {| status := 400; json := ErrorBody "URL is required" None |}
          | Some url' =>
              match URL_parse rt url' with
              | None =>
                  ret {| status := 400; json := ErrorBody "Invalid URL format" None |}
              | Some _ =>
                  try_finally
                    (let! results := scrapeUrl rt driver config url' in
                     ret {| status := 200; json := Results results |})
                    (close driver)
              end
          end)
         (fun error =>
            modify (record (Failed error)) >>
            ret {| status := 500; json := ErrorBody "Scraping failed" (Some error) |}) in
     let! s := get in
     ret (response, trace s)).

End WithRuntime.
End Route.

(* --------------------------------------------------------------------- *)
(** ** ProxyManager: proxy URLs, probing, and sequences of calls           *)
(* --------------------------------------------------------------------- *)

Module ProxyProbe.
Import JsString Effects ProxyManager.
Local Open Scope js_scope.

Definition type_name (t : ProxyType) : string :=
  match t with
  | http => "http"
  | https => "https"
  | socks4 => "socks4"
  | socks5 => "socks5"
  end.

(** [formatProxyUrl]; the port is an integer. *)
Definition formatProxyUrl (proxy : ProxyConfig) : string :=
  let auth :=
    match or_undefined (username proxy), or_undefined (password proxy) with
    | Some u, Some p => u +:+ ":" +:+ p +:+ "@"
    | _, _ => ""
    end in
  type_name (type proxy) +:+ "://" +:+ auth +:+ host proxy +:+ ":" +:+ show_Z (port proxy).

Section Async.
Context {W : Type}.

(** [testProxy]: the probe formats the URL, logs it and answers [true]. *)
Definition testProxy (proxy : ProxyConfig) : M W bool :=
  scope tt
    (try_catch
       (let proxyUrl := formatProxyUrl proxy in
        ret true)
       (fun _ => ret false)).

(** [getWorkingProxies] *)
Definition getWorkingProxies (m : t) : M W (list ProxyConfig) :=
  scope []
    (for_of (proxies m) (fun proxy =>
       let! working := await (testProxy proxy) in
       when working (modify (fun workingProxies => workingProxies ++ [proxy]))) >>
     get).

End Async.

(** A call made on a manager, and the manager after a sequence of calls. *)
Inductive call :=
| AddProxy (p : ProxyConfig)
| GetNextProxy
| GetRandomProxy (r : Q).

Definition step (m : t) (c : call) : t :=
  match c with
  | AddProxy p => addProxy p m
  | GetNextProxy => snd (getNextProxy m)
  | GetRandomProxy _ => m
  end.

Definition after (calls : list call) (m : t) : t := fold_left step calls m.

(** The index of a manager is within its list, or at the start of an
    empty one. *)
Definition index_in_range (m : t) : Prop :=
  currentIndex m < length (proxies m) \/ (proxies m = [] /\ currentIndex m = 0).

End ProxyProbe.

(* --------------------------------------------------------------------- *)
(** ** RateLimiter: waiting for a slot                                     *)
(* --------------------------------------------------------------------- *)

Module RateLimiterWait.
Import Effects RateLimiter.
Local Open Scope js_scope.

(** The clock and the timers: [clock_read] is [Date.now()], which may
    find the clock advanced; [timeout ms] is the world when
    [await new Promise((resolve) => setTimeout(resolve, ms))] resumes. *)
Record Timers (W : Type) := {
  clock_read : W -> Z * W;
  timeout : Z -> W -> W
}.
Arguments clock_read {W}.
Arguments timeout {W}.

(** [Math.min(...requests)] of a non-empty array; [None] stands for the
    empty array, on which the source does not take the minimum. *)
Definition oldest (requests : list Z) : option Z :=
  match requests with
  | [] => None
  | t :: ts => Some (fold_left Z.min ts t)
  end.

Section Waiting.
Context {W : Type}.
Variable timers : Timers W.
Variable cfg : config.

Definition Date_now : M W Z :=
  fun w => let '(t, w') := clock_read timers w in (inr t, w').

Definition setTimeout (ms : Z) : M W unit :=
  fun w => (inr tt, timeout timers ms w).

(** [checkRateLimit] as a method: the map is [this.requests]. *)
Definition checkRateLimit (identifier : string) : T W (gmap string (list Z)) bool :=
  let! now := await Date_now in
  let! requests := get in
  modify (fun _ => snd (RateLimiter.checkRateLimit cfg identifier now requests)) >>
  ret (fst (RateLimiter.checkRateLimit cfg identifier now requests)).

(** [waitForRateLimit]: the [while] loop, run for at most [fuel]
    checks; [None] when the checks are used up with none allowed. *)
Fixpoint waitForRateLimit (fuel : nat) (identifier : string)
    : T W (gmap string (list Z)) (option unit) :=
  match fuel with
  | 0 => ret None
  | S fuel' =>
      let! allowed := checkRateLimit identifier in
      if allowed then ret (Some tt)
      else
        let! requests := get in
        match oldest (default [] (requests !! identifier)) with
        | Some oldestRequest =>
            let! now := await Date_now in
            let waitTime := (timeWindow cfg - (now - oldestRequest) + 1000)%Z in
            when (0 <? waitTime)%Z (await (setTimeout waitTime))
        | None => ret tt
        end >>
        waitForRateLimit fuel' identifier
  end.

End Waiting.

(** A clock given by the world itself, with timers that fire on time. *)
Definition exactTimers : Timers Z :=
  {| clock_read := fun w => (w, w);
     timeout := fun ms w => (w + ms)%Z |}.

End RateLimiterWait.

(* --------------------------------------------------------------------- *)
(** ** What a pattern matches, stated without the matcher                  *)
(* --------------------------------------------------------------------- *)

Module Denotation.
Import JsString Regex.

(** [n] matches in a row, each starting where the one before ended. *)
Fixpoint iter (R : state -> state -> Prop) (n : nat) (x y : state) : Prop :=
  match n with
  | 0 => y = x
  | S n' => exists m, R x m /\ iter R n' m y
  end.

(** The pattern [r] matches from position [x] to position [y]. *)
Fixpoint matches (r : regex) (x y : state) : Prop :=
  match r with
  | Empty => y = x
  | Class p => exists c, rest x = c :: rest y /\ p c = true /\ prev y = Some c
  | Seq r1 r2 => exists m, matches r1 x m /\ matches r2 m y
  | Alt r1 r2 => matches r1 x y \/ matches r2 x y
  | Quant min max r' =>
      exists n,
        min <= n
        /\ match max with Some m => n <= Nat.max min m | None => True end
        /\ iter (matches r') n x y
  | WordBoundary => y = x /\ at_boundary x = true
  | EndOfInput => y = x /\ rest x = []
  end.

(** The shape of what the e-mail pattern accepts: a local part, an at
    sign, a domain, a dot and a top-level part of two or more characters,
    each a letter or the bar that the class [[A-Z|a-z]] lets in. *)
Definition email_shape (e : string) : Prop :=
  exists localPart domain tld,
    e = localPart +:+ "@" +:+ domain +:+ "." +:+ tld
    /\ localPart <> "" /\ domain <> ""
    /\ 2 <= String.length tld
    /\ List.Forall (fun c => is_upper c || one_of "|" c || is_lower c = true)
         (list_ascii_of_string tld)
    /\ List.Forall (fun c => is_alnum c || one_of "._%+-" c = true)
         (list_ascii_of_string localPart)
    /\ List.Forall (fun c => is_alnum c || one_of ".-" c = true)
         (list_ascii_of_string domain).

End Denotation.

(* --------------------------------------------------------------------- *)
(** ** Plain functions the code is compared with                           *)
(* --------------------------------------------------------------------- *)

Module Plain.
Import JsString.

(** Every maximal run of white space made one space; [in_run] says that
    the position is inside a run. *)
Fixpoint squeeze (in_run : bool) (cs : list ascii) : list ascii :=
  match cs with
  | [] => []
  | c :: t =>
      if is_space c
      then if in_run then squeeze true t else " "%char :: squeeze true t
      else c :: squeeze false t
  end.

(** The text with its white space collapsed and the ends trimmed. *)
Definition collapsed (text : string) : string :=
  trim (string_of_list_ascii (squeeze false (list_ascii_of_string text))).

End Plain.

(* --------------------------------------------------------------------- *)
(** ** Notions in the words of the specification                           *)
(* --------------------------------------------------------------------- *)

(** What the specification speaks of, defined on its own terms; Part II
    compares the code with these. *)
Module Stated.

(** What follows the last occurrence of [sep] in [s], when there is one. *)
Fixpoint after_last (sep : ascii) (s : string) : option string :=
  match s with
  | EmptyString => None
  | String c s' =>
      match after_last sep s' with
      | Some e => Some e
      | None => if Ascii.eqb c sep then Some s' else None
      end
  end.

(** The trailing extension of a URL: what follows its last dot. *)
Definition trailing_extension (url : string) : option string := after_last "." url.

(** The last segment of a path: what follows its last slash. *)
Definition last_segment (pathname : string) : string :=
  default pathname (after_last "/" pathname).

(** [s] starts with [p]; [s] ends with [q]. *)
Definition starts_with (p s : string) : Prop := exists t, s = p +:+ t.
Definition ends_with (q s : string) : Prop := exists t, s = t +:+ q.

(** The path names a file: lower-cased, it ends with one of the ten
    extensions. *)
Definition file_path (pathname : string) : Prop :=
  exists ext, In ext ContentExtractor.fileExtensions
              /\ ends_with ext (JsString.toLowerCase pathname).

(** What a link record says: its type is the classification of its href,
    and its domain is set, to the host name of the href, exactly when the
    type is external. *)
Definition classified_link {W Json : Type} (rt : Runtime W Json) (baseUrl : string)
    (link : LinkData.t) : Prop :=
  LinkData.type link = ContentExtractor.getLinkType rt (LinkData.href link) baseUrl
  /\ (forall d, LinkData.domain link = Some d
        <-> LinkData.type link = LinkData.external
            /\ exists url, URL_parse rt (LinkData.href link) = Some url
                           /\ URL.hostname url = d).

(** What an image record says: its src is the href of some string
    resolved against the base URL, and its format is the format of that
    src. *)
Definition resolved_image {W Json : Type} (rt : Runtime W Json) (baseUrl : string)
    (img : ImageData.t) : Prop :=
  (exists src u, URL_resolve rt src baseUrl = Some u /\ ImageData.src img = URL.href u)
  /\ ImageData.format img = ContentExtractor.getImageFormat (ImageData.src img).

(** The image record made of an element: the session read the src
    attribute of the element, it was not empty, and the src of the record
    is its href once resolved against the base URL; the format is the
    format of that href. *)
Definition image_of {W E Json : Type} (rt : Runtime W Json) (driver : WebDriver W E)
    (baseUrl : string) (record : ImageData.t) (img : E) : Prop :=
  exists (w0 w1 : W) (attr : option string) (src : string) (u : URL.t),
    getAttribute driver img "src" w0 = (inr attr, w1)
    /\ JsString.or_undefined attr = Some src
    /\ URL_resolve rt src baseUrl = Some u
    /\ ImageData.src record = URL.href u
    /\ ImageData.format record = ContentExtractor.getImageFormat (URL.href u).

(** The heading record made of an element at a level: the session read
    the text of the element and then its id, the text was not blank, and
    the record holds the level, the trimmed text and the id. *)
Definition heading_of {W E : Type} (driver : WebDriver W E) (level : nat)
    (record : Heading.t) (element : E) : Prop :=
  exists (w0 w1 w2 : W) (text : string) (id : option string),
    getText driver element w0 = (inr text, w1)
    /\ getAttribute driver element "id" w1 = (inr id, w2)
    /\ ContentExtractor.nonblank text = true
    /\ record = {| Heading.level := level;
                   Heading.text := JsString.trim text;
                   Heading.id := JsString.or_undefined id |}.

(** The headings of one level keep the order of the page: there is none,
    or the session found the elements of the tag of the level and the
    headings are made, one by one and in order, of some of these
    elements in their order. *)
Definition headings_of_level {W E : Type} (driver : WebDriver W E) (level : nat)
    (records : list Heading.t) : Prop :=
  records = []
  \/ exists (w0 w1 : W) (elements kept : list E),
       findElements driver (tagName ("h" +:+ JsString.show_Z (Z.of_nat level))) w0
       = (inr elements, w1)
       /\ sublist kept elements
       /\ Forall2 (heading_of driver level) records kept.

(** What holds of every contact record: no phone number is recorded, and
    the three lists are free of duplicates. *)
Definition deduplicated_without_phones (info : ContactInfo.t) : Prop :=
  ContactInfo.phones info = []
  /\ List.NoDup (ContactInfo.emails info)
  /\ List.NoDup (ContactInfo.phones info)
  /\ List.NoDup (ContactInfo.addresses info).

(** A value the operation returned, from some state of the world. *)
Definition returned {W A : Type} (op : Effects.M W A) (a : A) : Prop :=
  exists w0 w1, op w0 = (inr a, w1).

(** Every field of the aggregate that an extractor fills holds a value
    that its own extractor returned. *)
Definition from_extractors {W E Json : Type} (rt : Runtime W Json)
    (driver : WebDriver W E) (baseUrl : string) (c : ExtractedContent.t Json) : Prop :=
  returned (ContentExtractor.extractMetadata rt driver) (ExtractedContent.metadata _ c)
  /\ returned (ContentExtractor.extractKeywords driver) (ExtractedContent.keywords _ c)
  /\ returned (ContentExtractor.extractTextContent driver)
       (ExtractedContent.textContent _ c)
  /\ returned (ContentExtractor.extractHeadings driver) (ExtractedContent.headings _ c)
  /\ returned (ContentExtractor.extractParagraphs driver)
       (ExtractedContent.paragraphs _ c)
  /\ returned (ContentExtractor.extractLists driver) (ExtractedContent.lists _ c)
  /\ returned (ContentExtractor.extractTables driver) (ExtractedContent.tables _ c)
  /\ returned (ContentExtractor.extractForms driver) (ExtractedContent.forms _ c)
  /\ returned (ContentExtractor.extractImages rt driver baseUrl)
       (ExtractedContent.images c)
  /\ returned (ContentExtractor.extractLinks rt driver baseUrl)
       (ExtractedContent.links c)
  /\ returned (ContentExtractor.extractStructuredData rt driver)
       (ExtractedContent.structuredData _ c)
  /\ returned (ContentExtractor.extractSocialMedia driver)
       (ExtractedContent.socialMedia _ c)
  /\ returned (ContentExtractor.extractContactInfo rt driver)
       (ExtractedContent.contactInfo c).

(** When [lookup] throws, [op] run from the same state returns [empty]
    and leaves the world as the lookup left it. *)
Definition empty_when_throws {W A B : Type} (lookup : Effects.M W B)
    (op : Effects.M W A) (empty : A) : Prop :=
  forall w e w1, lookup w = (inl e, w1) -> op w = (inr empty, w1).

(** The extractors that begin with one lookup of elements answer the
    empty value when that lookup throws. *)
Definition empty_when_first_lookup_throws {W E Json : Type} (rt : Runtime W Json)
    (driver : WebDriver W E) (baseUrl : string) : Prop :=
  empty_when_throws (findElement driver (tagName "body"))
    (ContentExtractor.extractTextContent driver) ""
  /\ empty_when_throws (findElements driver (tagName "h1"))
       (ContentExtractor.extractHeadings driver) []
  /\ empty_when_throws (findElements driver (tagName "p"))
       (ContentExtractor.extractParagraphs driver) []
  /\ empty_when_throws (findElements driver (tagName "ol"))
       (ContentExtractor.extractLists driver) []
  /\ empty_when_throws (findElements driver (tagName "table"))
       (ContentExtractor.extractTables driver) []
  /\ empty_when_throws (findElements driver (tagName "form"))
       (ContentExtractor.extractForms driver) []
  /\ empty_when_throws (findElements driver (tagName "img"))
       (ContentExtractor.extractImages rt driver baseUrl) []
  /\ empty_when_throws (findElements driver (tagName "a"))
       (ContentExtractor.extractLinks rt driver baseUrl) [].

(** One of the three reads [extractAll] makes itself, outside any
    [try], throws [e] and leaves the world [w']: the current URL, the
    title, or the document language. *)
Definition direct_read_throws {W E : Type} (driver : WebDriver W E)
    (e : Effects.Err) (w' : W) : Prop :=
  exists w0,
    getCurrentUrl driver w0 = (inl e, w')
    \/ getTitle driver w0 = (inl e, w')
    \/ executeScript driver DocumentLang w0 = (inl e, w').

End Stated.

(* --------------------------------------------------------------------- *)
(** ** Sample platform, pages and inputs                                   *)
(* --------------------------------------------------------------------- *)

(** Concrete instances on which the definitions above can be run. The
    URL functions follow the platform's on plain URLs of the shape
    [scheme://host/path?query#fragment] (no credentials, no port, no dot
    segments, nothing to escape) and on references without a scheme,
    which [new URL] rejects when it is given no base; they are used on
    such strings only. The general statements of Part II hold for every
    platform and do not rest on them. *)
Module Samples.
Import JsString Effects.

Fixpoint break (p : ascii -> bool) (s : string) : string * string :=
  match s with
  | EmptyString => (EmptyString, EmptyString)
  | String c s' =>
      if p c then (EmptyString, s)
      else let '(a, b) := break p s' in (String c a, b)
  end.

(** The scheme of [s] and what follows ["://"]. *)
Fixpoint after_scheme (s : string) : option (string * string) :=
  match s with
  | EmptyString => None
  | String c s' =>
      if startsWith s "://" then Some (EmptyString, substring 3 (String.length s) s)
      else if is_alnum c
           then match after_scheme s' with
                | Some (scheme, r) => Some (String c scheme, r)
                | None => None
                end
           else None
  end.

Definition parse_url (s : string) : option URL.t :=
  match after_scheme s with
  | Some (String c scheme, r) =>
      let '(authority, tail) := break (fun c => one_of "/?#" c) r in
      let '(path, suffix) := break (fun c => one_of "?#" c) tail in
      let pathname := if String.eqb path "" then "/" else path in
      if String.eqb authority "" then None
      else Some {| URL.href := toLowerCase (String c scheme) +:+ "://"
                                +:+ toLowerCase authority +:+ pathname +:+ suffix;
                   URL.hostname := toLowerCase authority;
                   URL.pathname := pathname |}
  | _ => None
  end.

(** [new URL(s, base)] for an absolute [s], a path from the root, or a
    file name against a base whose path is the root. The base is parsed
    first: with a base that does not parse the constructor throws,
    whatever [s] is. *)
Definition resolve_url (s base : string) : option URL.t :=
  match parse_url base with
  | None => None
  | Some _ =>
      match parse_url s with
      | Some u => Some u
      | None =>
          match after_scheme base with
          | Some (scheme, r) =>
              let '(authority, _) := break (fun c => one_of "/?#" c) r in
              if startsWith s "/"
              then parse_url (scheme +:+ "://" +:+ authority +:+ s)
              else parse_url (scheme +:+ "://" +:+ authority +:+ "/" +:+ s)
          | None => None
          end
      end
  end.

(** [path.join(dir, name)] for a directory written [./d] or [d]. *)
Definition join_path (dir name : string) : string :=
  (if startsWith dir "./" then substring 2 (String.length dir) dir else dir)
  +:+ "/" +:+ name.

(** The world: the files written so far. *)
Definition Files : Type := list (string * list ascii).

(** What the network answers for a URL: an error, or whether the status
    is a 2xx one and the body. *)
Definition Network : Type := list (string * (Err + bool * list ascii)).

Fixpoint answer (net : Network) (url : string) : Err + bool * list ascii :=
  match net with
  | [] => inl "FetchError: request failed"
  | (u, a) :: net' => if String.eqb u url then a else answer net' url
  end.

Definition runtime (engine : Regex.quantified_assertion) (net : Network)
    : Runtime Files unit :=
  {| URL_parse := parse_url;
     URL_resolve := resolve_url;
     JSON_parse := fun _ => None;
     RegExp_quantified_assertion := engine;
     path_join := join_path;
     fs_mkdir := fun _ w => (inr tt, w);
     fs_writeFile := fun path bytes w => (inr tt, w ++ [(path, bytes)]);
     fetch := fun url w =>
       (match answer net url with
        | inl e => inl e
        | inr (ok, bytes) =>
            inr {| Response.ok := ok; Response.buffer := fun w => (inr bytes, w) |}
        end, w);
     Date_now := fun _ => 1700000000000%Z;
     Date_toISOString := fun _ => "2023-11-14T22:13:20.000Z";
     Math_random := fun w => ((6004799503160661 # 18014398509481984)%Q, w);
     NODE_ENV := Some "production";
     UserAgent_desktop := fun w => (inr "Mozilla/5.0", w);
     Options_setExperimentalOption := fun _ =>
       inl "TypeError: options.setExperimentalOption is not a function";
     Options_setUserPreferences := inr tt;
     Builder_build := fun _ w => (inr tt, w) |}.

(** A static page: its address, its title (or the error reading it
    throws), its language, the rendered text of the body, and the
    attributes and text of its [img] and [a] elements. An element handle
    is the body, a node of the page, or a node that has left the document
    since it was found, which throws when it is read. *)
Record Page := {
  address : string;
  heading : Err + string;
  lang : option string;
  bodyText : string;
  imgs : list (list (string * string));
  anchors : list (list (string * string) * string)
}.

Inductive Elem :=
| Body
| Node (attributes : list (string * string)) (text : string)
| Gone.

Fixpoint attribute (attributes : list (string * string)) (name : string) : option string :=
  match attributes with
  | [] => None
  | (n, v) :: attributes' => if String.eqb n name then Some v else attribute attributes' name
  end.

Definition session (p : Page) : WebDriver Files Elem :=
  {| getCurrentUrl := fun w => (inr (address p), w);
     getTitle := fun w => (heading p, w);
     executeScript := fun _ w => (inr (lang p), w);
     findElement := fun by_ w =>
       (match by_ with
        | tagName "body" => inr Body
        | _ => inl "NoSuchElementError"
        end, w);
     findElements := fun by_ w =>
       (match by_ with
        | tagName "img" => inr (map (fun a => Node a "") (imgs p))
        | tagName "a" => inr (map (fun '(a, t) => Node a t) (anchors p))
        | _ => inr []
        end, w);
     getAttribute := fun e name w =>
       (match e with
        | Body => inr None
        | Node a _ => inr (attribute a name)
        | Gone => inl "StaleElementReferenceError: stale element not found"
        end, w);
     getText := fun e w =>
       (match e with
        | Body => inr (bodyText p)
        | Node _ t => inr t
        | Gone => inl "StaleElementReferenceError: stale element not found"
        end, w);
     findElementIn := fun _ _ w => (inl "NoSuchElementError", w);
     findElementsIn := fun _ _ w => (inr [], w);
     navigate := fun _ w => (inr tt, w);
     sleep := fun _ w => (inr tt, w);
     quit := fun w => (inr tt, w) |}.

(** The session on [p] when its [img] element at position [k] has left
    the document by the time it is read. *)
Definition session_losing (k : nat) (p : Page) : WebDriver Files Elem :=
  {| getCurrentUrl := getCurrentUrl (session p);
     getTitle := getTitle (session p);
     executeScript := executeScript (session p);
     findElement := findElement (session p);
     findElements := fun by_ w =>
       match by_ with
       | tagName "img" => (inr (<[k := Gone]> (map (fun a => Node a "") (imgs p))), w)
       | _ => findElements (session p) by_ w
       end;
     getAttribute := getAttribute (session p);
     getText := getText (session p);
     findElementIn := findElementIn (session p);
     findElementsIn := findElementsIn (session p);
     navigate := navigate (session p);
     sleep := sleep (session p);
     quit := quit (session p) |}.

Definition proxyA : ProxyManager.ProxyConfig :=
  {| ProxyManager.host := "10.0.0.1"; ProxyManager.port := 8080;
     ProxyManager.username := None; ProxyManager.password := None;
     ProxyManager.type := ProxyManager.http |}.

Definition proxyB : ProxyManager.ProxyConfig :=
  {| ProxyManager.host := "10.0.0.2"; ProxyManager.port := 1080;
     ProxyManager.username := Some "u"; ProxyManager.password := Some "p";
     ProxyManager.type := ProxyManager.socks5 |}.

Definition proxyC : ProxyManager.ProxyConfig :=
  {| ProxyManager.host := "10.0.0.3"; ProxyManager.port := 3128;
     ProxyManager.username := None; ProxyManager.password := None;
     ProxyManager.type := ProxyManager.https |}.

(** The text of the contact scenario. *)
Definition contactText : string := "Contact us at a@b.com or (212) 555-1234".

Definition contactPage : Page :=
  {| address := "https://x.com/"; heading := inr "Contact"; lang := Some "en";
     bodyText := contactText; imgs := []; anchors := [] |}.

(** A page with two images and three links. *)
Definition galleryPage : Page :=
  {| address := "https://x.com/"; heading := inr "Gallery"; lang := None;
     bodyText := "Gallery";
     imgs := [ [("src", "/img/Logo.PNG"); ("alt", "logo")];
               [("src", "https://cdn.y.com/a/banner.jpeg?v=2")] ];
     anchors := [ ([("href", "/about")], "About");
                  ([("href", "https://y.com/z.pdf")], "Paper");
                  ([("href", "https://y.com/")], "Y") ] |}.

(** A page whose title cannot be read. *)
Definition brokenTitlePage : Page :=
  {| address := "https://x.com/"; heading := inl "NoSuchWindowError: target window already closed";
     lang := Some "en"; bodyText := "text"; imgs := []; anchors := [] |}.

(** A page with an absolute image, a relative one and another absolute
    one. *)
Definition mixedPage : Page :=
  {| address := "https://x.com/"; heading := inr "Mixed"; lang := None;
     bodyText := "";
     imgs := [ [("src", "https://x.com/a.png")];
               [("src", "b.png")];
               [("src", "https://x.com/c.png")] ];
     anchors := [] |}.

Definition someImage (src : string) (format : option string) : ImageData.t :=
  {| ImageData.src := src; ImageData.alt := ""; ImageData.title := None;
     ImageData.width := None; ImageData.height := None; ImageData.format := format;
     ImageData.size := None; ImageData.downloaded := None; ImageData.localPath := None |}.

(** A configuration without the anti-bot measures. *)
Definition plainConfig (extractImages : bool) : ScrapingConfig.t :=
  {| ScrapingConfig.extractText := true;
     ScrapingConfig.extractImages := extractImages;
     ScrapingConfig.extractLinks := true;
     ScrapingConfig.bypassAntiBot := false;
     ScrapingConfig.useProxy := None;
     ScrapingConfig.waitTime := 1000;
     ScrapingConfig.scrollToBottom := true;
     ScrapingConfig.proxyUrl := None;
     ScrapingConfig.humanBehavior := Some true;
     ScrapingConfig.stealthMode := None |}.

(** A configuration with the anti-bot measures. *)
Definition someConfig (extractImages : bool) : ScrapingConfig.t :=
  {| ScrapingConfig.extractText := true;
     ScrapingConfig.extractImages := extractImages;
     ScrapingConfig.extractLinks := true;
     ScrapingConfig.bypassAntiBot := true;
     ScrapingConfig.useProxy := None;
     ScrapingConfig.waitTime := 1000;
     ScrapingConfig.scrollToBottom := true;
     ScrapingConfig.proxyUrl := None;
     ScrapingConfig.humanBehavior := Some true;
     ScrapingConfig.stealthMode := None |}.

End Samples.

(* ===================================================================== *)
(** * Part II. Properties                                                  *)
(* ===================================================================== *)

Section ProxyManagerFacts.
Import ProxyManager.

Lemma getNextProxy_nonempty (m : t) :
  proxies m <> [] ->
  getNextProxy m =
    (at_index (proxies m) (Z.of_nat (currentIndex m)),
     {| proxies := proxies m;
        currentIndex := (currentIndex m + 1) mod length (proxies m) |}).
Proof.
  intros Hne. unfold getNextProxy.
  destruct (proxies m) as [|p ps] eqn:E; [congruence|]. reflexivity.
Qed.

Lemma callNext_trace (k : nat) : forall (m : t),
  proxies m <> [] ->
  currentIndex m < length (proxies m) ->
  fst (callNext k m) =
    map (fun j => at_index (proxies m)
                    (Z.of_nat ((currentIndex m + j) mod length (proxies m))))
        (seq 0 k)
  /\ proxies (snd (callNext k m)) = proxies m
  /\ currentIndex (snd (callNext k m)) = (currentIndex m + k) mod length (proxies m).
Proof.
  induction k as [|k IH]; intros m Hne Hlt.
  - simpl. repeat split. rewrite Nat.add_0_r, Nat.mod_small; auto.
  - cbn [callNext]. rewrite (getNextProxy_nonempty m Hne).
    set (m' := {| proxies := proxies m;
                  currentIndex := (currentIndex m + 1) mod length (proxies m) |}).
    assert (Hn : length (proxies m) <> 0) by (destruct (proxies m); simpl; congruence).
    assert (Hlt' : currentIndex m' < length (proxies m')).
    { unfold m'; simpl. apply Nat.mod_upper_bound; auto. }
    destruct (IH m' Hne Hlt') as (IH1 & IH2 & IH3).
    destruct (callNext k m') as [rs m''] eqn:E. simpl in *.
    repeat split.
    + f_equal.
      * rewrite Nat.add_0_r, Nat.mod_small; auto.
      * rewrite IH1. rewrite <- seq_shift, map_map.
        apply map_ext; intros j. do 2 f_equal.
        rewrite Nat.Div0.add_mod_idemp_l. f_equal. lia.
    + exact IH2.
    + rewrite IH3. rewrite Nat.Div0.add_mod_idemp_l. f_equal. lia.
Qed.

End ProxyManagerFacts.

Section ProxyCounting.
Import ProxyManager.

Lemma div_succ_step (n a : nat) :
  n <> 0 -> (a + 1) / n = a / n + (if (a + 1) mod n =? 0 then 1 else 0).
Proof.
  intros Hn.
  pose proof (Nat.div_mod_eq a n) as Ha.
  pose proof (Nat.mod_upper_bound a n Hn) as Hr.
  destruct (Nat.eq_dec (a mod n + 1) n) as [E|E].
  - assert (Hm : (a + 1) mod n = 0).
    { symmetry. apply (Nat.mod_unique (a + 1) n (a / n + 1) 0); nia. }
    rewrite Hm. simpl. symmetry.
    apply (Nat.div_unique (a + 1) n (a / n + 1) 0); nia.
  - assert (Hm : (a + 1) mod n = a mod n + 1).
    { symmetry. apply (Nat.mod_unique (a + 1) n (a / n) (a mod n + 1)); nia. }
    rewrite Hm. replace (a mod n + 1 =? 0) with false by (symmetry; apply Nat.eqb_neq; lia).
    rewrite Nat.add_0_r. symmetry.
    apply (Nat.div_unique (a + 1) n (a / n) (a mod n + 1)); nia.
Qed.

Lemma slot_hit (n i x : nat) :
  n <> 0 -> i < n ->
  ((x + n - 1 - i + 1) mod n =? 0) = (x mod n =? i).
Proof.
  intros Hn Hi.
  pose proof (Nat.div_mod_eq x n) as Hx.
  pose proof (Nat.mod_upper_bound x n Hn) as Hr.
  destruct (Nat.eq_dec (x mod n) i) as [E|E].
  - rewrite (proj2 (Nat.eqb_eq _ _) E). apply Nat.eqb_eq.
    symmetry. apply (Nat.mod_unique _ n (x / n + 1) 0); nia.
  - rewrite (proj2 (Nat.eqb_neq _ _) E). apply Nat.eqb_neq.
    destruct (Nat.lt_ge_cases (x mod n) i) as [L|G].
    + intros H0. assert (Hm : (x + n - 1 - i + 1) mod n = x mod n + n - i).
      { symmetry. apply (Nat.mod_unique _ n (x / n) (x mod n + n - i)); nia. }
      lia.
    + intros H0. assert (Hm : (x + n - 1 - i + 1) mod n = x mod n - i).
      { symmetry. apply (Nat.mod_unique _ n (x / n + 1) (x mod n - i)); nia. }
      lia.
Qed.

Lemma visits_succ (n i0 i k : nat) :
  visits n i0 i (S k) = visits n i0 i k + (if (i0 + k) mod n =? i then 1 else 0).
Proof.
  unfold visits. rewrite seq_S, List.filter_app, length_app. simpl.
  destruct ((i0 + k) mod n =? i); reflexivity.
Qed.

(** The visits of slot [i] are the multiples-of-[n] crossings between the
    start index and the start index plus [k]. *)
Lemma visits_closed_form (n i0 i k : nat) :
  n <> 0 -> i < n ->
  visits n i0 i k = (i0 + n - 1 - i + k) / n - (i0 + n - 1 - i) / n.
Proof.
  intros Hn Hi. induction k as [|k IH].
  - unfold visits; simpl. rewrite Nat.add_0_r. lia.
  - rewrite visits_succ, IH.
    replace (i0 + n - 1 - i + S k) with ((i0 + n - 1 - i + k) + 1) by lia.
    rewrite (div_succ_step n _ Hn).
    replace (i0 + n - 1 - i + k) with ((i0 + k) + n - 1 - i) by lia.
    rewrite (slot_hit n i (i0 + k) Hn Hi).
    assert (Hle : (i0 + n - 1 - i) / n <= (i0 + k + n - 1 - i) / n)
      by (apply Nat.Div0.div_le_mono; lia).
    lia.
Qed.

Lemma window_count (n a k : nat) :
  n <> 0 ->
  (a + k) / n - a / n = floor_div k n \/ (a + k) / n - a / n = ceil_div k n.
Proof.
  intros Hn. unfold floor_div, ceil_div.
  pose proof (Nat.div_mod_eq a n) as Ha.
  pose proof (Nat.mod_upper_bound a n Hn) as Hra.
  pose proof (Nat.div_mod_eq k n) as Hk.
  pose proof (Nat.mod_upper_bound k n Hn) as Hrk.
  destruct (Nat.lt_ge_cases (a mod n + k mod n) n) as [L|G].
  - left.
    assert (E : (a + k) / n = a / n + k / n).
    { symmetry. apply (Nat.div_unique _ n _ (a mod n + k mod n)); nia. }
    lia.
  - right.
    assert (E : (a + k) / n = a / n + k / n + 1).
    { symmetry. apply (Nat.div_unique _ n _ (a mod n + k mod n - n)); nia. }
    assert (E' : (k + n - 1) / n = k / n + 1).
    { symmetry. apply (Nat.div_unique _ n _ (k mod n - 1)); nia. }
    lia.
Qed.

Lemma visits_floor_or_ceil (n i0 i k : nat) :
  n <> 0 -> i < n ->
  visits n i0 i k = floor_div k n \/ visits n i0 i k = ceil_div k n.
Proof.
  intros Hn Hi. rewrite (visits_closed_form n i0 i k Hn Hi).
  apply window_count; assumption.
Qed.

End ProxyCounting.

Section ProxyRotation.
Import ProxyManager.

Lemma at_index_in_range (ps : list ProxyConfig) (x : nat) :
  x < length ps ->
  exists q, nth_error ps x = Some q /\ at_index ps (Z.of_nat x) = Proxy q.
Proof.
  intros Hx. unfold at_index.
  replace (Z.of_nat x <? 0)%Z with false by (symmetry; apply Z.ltb_ge; lia).
  rewrite Nat2Z.id.
  destruct (nth_error ps x) as [q|] eqn:E.
  - exists q; split; reflexivity.
  - apply nth_error_None in E. lia.
Qed.

Lemma occurrences_visits (ps : list ProxyConfig) (i0 i : nat) (p : ProxyConfig)
    (js : list nat) :
  ps <> [] -> List.NoDup ps -> nth_error ps i = Some p ->
  occurrences p
    (map (fun j => at_index ps (Z.of_nat ((i0 + j) mod length ps))) js)
  = length (List.filter (fun j => (i0 + j) mod length ps =? i) js).
Proof.
  intros Hne Hnd Hi.
  assert (Hn : length ps <> 0) by (destruct ps; simpl; congruence).
  unfold occurrences. induction js as [|j js IH]; [reflexivity|].
  cbn [map List.filter].
  destruct (at_index_in_range ps ((i0 + j) mod length ps)) as (q & Hq & Hat).
  { apply Nat.mod_upper_bound; assumption. }
  rewrite Hat, filter_cons.
  destruct (Nat.eqb_spec ((i0 + j) mod length ps) i) as [E|E].
  - rewrite E in Hq. assert (q = p) by congruence. subst q.
    rewrite decide_True by reflexivity. simpl. rewrite <- IH. reflexivity.
  - rewrite decide_False; [exact IH|].
    intros Heq. inversion Heq; subst q. apply E.
    apply (proj1 (NoDup_nth_error ps) Hnd).
    + apply Nat.mod_upper_bound; assumption.
    + congruence.
Qed.

(** C5. Over a non-empty list of n proxies, k successive calls of
    getNextProxy return the proxies in list order, cyclically from the
    current index with wraparound; every slot of the list is read either
    ⌊k/n⌋ or ⌈k/n⌉ times, and so is every proxy when the list names each
    proxy once. *)
Theorem getNextProxy_round_robin (m : t) (k : nat) :
  proxies m <> [] ->
  currentIndex m < length (proxies m) ->
  fst (callNext k m) =
    map (fun j => at_index (proxies m)
                    (Z.of_nat ((currentIndex m + j) mod length (proxies m))))
        (seq 0 k)
  /\ (forall i, i < length (proxies m) ->
        visits (length (proxies m)) (currentIndex m) i k
          = floor_div k (length (proxies m))
        \/ visits (length (proxies m)) (currentIndex m) i k
          = ceil_div k (length (proxies m)))
  /\ (List.NoDup (proxies m) ->
      forall p, In p (proxies m) ->
        occurrences p (fst (callNext k m)) = floor_div k (length (proxies m))
        \/ occurrences p (fst (callNext k m)) = ceil_div k (length (proxies m))).
Proof.
  intros Hne Hlt.
  assert (Hn : length (proxies m) <> 0) by (destruct (proxies m); simpl; congruence).
  destruct (callNext_trace k m Hne Hlt) as (Htr & _ & _).
  split; [exact Htr|]. split.
  - intros i Hi. apply visits_floor_or_ceil; assumption.
  - intros Hnd p Hin. rewrite Htr.
    destruct (In_nth_error _ _ Hin) as [i Hi].
    assert (Hi' : i < length (proxies m)).
    { apply nth_error_Some. congruence. }
    rewrite (occurrences_visits (proxies m) (currentIndex m) i p (seq 0 k) Hne Hnd Hi).
    apply (visits_floor_or_ceil (length (proxies m)) (currentIndex m) i k Hn Hi').
Qed.

(** C10. With an empty proxy list both getters return null, whatever the
    rotation index and the random draw, and getNextProxy leaves the object
    (its index included) as it was. *)
Theorem empty_proxy_list_returns_null (idx : nat) (r : Q) :
  getNextProxy {| proxies := []; currentIndex := idx |}
    = (Null, {| proxies := []; currentIndex := idx |})
  /\ currentIndex (snd (getNextProxy {| proxies := []; currentIndex := idx |})) = idx
  /\ getRandomProxy r {| proxies := []; currentIndex := idx |} = Null.
Proof. repeat split. Qed.

End ProxyRotation.

Section RateLimiterFacts.
Import RateLimiter.

Variable cfg : config.

Lemma length_filter_impl {A} (P Q : A → Prop)
    `{!∀ x, Decision (P x), !∀ x, Decision (Q x)} (l : list A) :
  (∀ x, P x → Q x) → length (filter P l) ≤ length (filter Q l).
Proof.
  intros HPQ. induction l as [|x l IH]; [done|].
  rewrite !filter_cons. destruct (decide (P x)) as [HP|HP].
  - rewrite decide_True by auto. simpl. lia.
  - destruct (decide (Q x)); simpl; lia.
Qed.

(** Pruning at an earlier reading and again at a later one is pruning at
    the later one. *)
Lemma prune_later (now now' : Z) (l : list Z) :
  (now ≤ now')%Z →
  filter (λ ts, (now' - ts < timeWindow cfg)%Z)
    (filter (λ ts, (now - ts < timeWindow cfg)%Z) l)
  = filter (λ ts, (now' - ts < timeWindow cfg)%Z) l.
Proof. intros Hle. apply list_filter_filter_l. intros ts. lia. Qed.

Lemma in_window_app (a w : Z) (l1 l2 : list Z) :
  in_window a w (l1 ++ l2) = in_window a w l1 + in_window a w l2.
Proof. unfold in_window. by rewrite filter_app, length_app. Qed.

Lemma in_window_recent (a now : Z) (l : list Z) :
  (a ≤ now < a + timeWindow cfg)%Z →
  in_window a (timeWindow cfg) l
    ≤ length (filter (λ ts, (now - ts < timeWindow cfg)%Z) l).
Proof. intros Hin. apply length_filter_impl. intros t. lia. Qed.

(** What one call does to the stored timestamps of every identifier. *)
Lemma checkRateLimit_denied (identifier : string) (now : Z)
    (requests : gmap string (list Z)) :
  (maxRequests cfg ≤ Z.of_nat (length
     (filter (λ ts, (now - ts < timeWindow cfg)%Z)
             (default [] (requests !! identifier)))))%Z →
  checkRateLimit cfg identifier now requests = (false, requests).
Proof. intros H. unfold checkRateLimit. by rewrite decide_True. Qed.

Lemma checkRateLimit_allowed (identifier : string) (now : Z)
    (requests : gmap string (list Z)) :
  (Z.of_nat (length
     (filter (λ ts, (now - ts < timeWindow cfg)%Z)
             (default [] (requests !! identifier)))) < maxRequests cfg)%Z →
  checkRateLimit cfg identifier now requests
  = (true,
     <[identifier :=
         filter (λ ts, (now - ts < timeWindow cfg)%Z)
                (default [] (requests !! identifier)) ++ [now]]> requests).
Proof. intros H. unfold checkRateLimit. rewrite decide_False by lia. done. Qed.

Lemma allowed_times_cons (identifier : string) (e : string * Z * bool)
    (log : list (string * Z * bool)) :
  allowed_times identifier (e :: log)
  = if decide (e.1.1 = identifier ∧ e.2 = true)
    then e.1.2 :: allowed_times identifier log
    else allowed_times identifier log.
Proof. unfold allowed_times. simpl. by destruct (decide _). Qed.

(** The invariant of a run, for one identifier: [past] are the readings
    of its allowed calls so far; pruning the stored array at any reading
    from [T] on gives what pruning [past] gives. *)
Lemma serve_window_bound (identifier : string) :
  ∀ (calls : list (string * Z)) (requests : gmap string (list Z))
    (past : list Z) (T : Z),
  StronglySorted Z.le (map snd calls) →
  Forall (λ c, (T ≤ c.2)%Z) calls →
  (∀ now, (T ≤ now)%Z →
     filter (λ ts, (now - ts < timeWindow cfg)%Z) (default [] (requests !! identifier))
     = filter (λ ts, (now - ts < timeWindow cfg)%Z) past) →
  (∀ a, (Z.of_nat (in_window a (timeWindow cfg) past) ≤ maxRequests cfg)%Z) →
  ∀ a, (Z.of_nat (in_window a (timeWindow cfg)
                    (past ++ allowed_times identifier (serve cfg calls requests)))
        ≤ maxRequests cfg)%Z.
Proof.
  induction calls as [|[id' now] rest IH]; intros requests past T Hs HT Hinv Hb a.
  - simpl. rewrite app_nil_r. apply Hb.
  - simpl in Hs. apply StronglySorted_inv in Hs as [Hs Hhd].
    apply Forall_cons in HT as [HTnow _]. simpl in HTnow.
    assert (Hrest : Forall (λ c : string * Z, (now ≤ c.2)%Z) rest).
    { apply Forall_forall. intros c Hc.
      rewrite List.Forall_forall in Hhd. apply Hhd.
      apply in_map. by apply list_elem_of_In. }
    cbn [serve].
    destruct (decide (maxRequests cfg ≤ Z.of_nat (length
       (filter (λ ts, (now - ts < timeWindow cfg)%Z)
               (default [] (requests !! id')))))%Z) as [Hfull|Hroom].
    + rewrite checkRateLimit_denied by done.
      rewrite allowed_times_cons, decide_False by (intros [_ ?]; done).
      apply (IH requests past now); try done.
      intros now' Hle. apply Hinv. lia.
    + rewrite checkRateLimit_allowed by lia.
      rewrite allowed_times_cons. cbn [fst snd].
      destruct (decide (id' = identifier)) as [->|Hne].
      * rewrite decide_True by done.
        replace (past ++ now :: allowed_times identifier
                   (serve cfg rest (<[identifier:=filter (λ ts, (now - ts < timeWindow cfg)%Z)
                       (default [] (requests !! identifier)) ++ [now]]> requests)))
          with ((past ++ [now]) ++ allowed_times identifier
                   (serve cfg rest (<[identifier:=filter (λ ts, (now - ts < timeWindow cfg)%Z)
                       (default [] (requests !! identifier)) ++ [now]]> requests)))
          by (by rewrite <- app_assoc).
        apply (IH _ (past ++ [now]) now); try done.
        -- intros now' Hle. rewrite lookup_insert_eq. simpl.
           rewrite !filter_app, prune_later by done.
           rewrite Hinv by lia. done.
        -- intros a'. rewrite in_window_app.
           destruct (decide (a' ≤ now < a' + timeWindow cfg)%Z) as [Hin|Hout].
           ++ pose proof (in_window_recent a' now past Hin) as Hrec.
              rewrite <- Hinv in Hrec by done.
              unfold in_window at 2. rewrite filter_cons_True by done. simpl. lia.
           ++ unfold in_window at 2. rewrite filter_cons_False by done. simpl.
              specialize (Hb a'). lia.
      * rewrite decide_False by (intros [? _]; done).
        apply (IH _ past now); try done.
        intros now' Hle. rewrite lookup_insert_ne by done. apply Hinv. lia.
Qed.

End RateLimiterFacts.

Section RateLimiterClaim.
Import RateLimiter.

(** C4. For every identifier and every run of checkRateLimit calls made
    under a clock that does not run backwards, at most maxRequests calls
    are allowed in any interval [a, a + timeWindow); each call prunes the
    identifier's timestamps older than the window, denies with the stored
    map unchanged when at least maxRequests survive, and otherwise stores
    the survivors followed by the current time and allows. *)
Theorem checkRateLimit_rolling_window (cfg : config)
    (calls : list (string * Z)) (identifier : string) (a : Z) :
  (0 ≤ maxRequests cfg)%Z →
  clock_monotone calls →
  (Z.of_nat (in_window a (timeWindow cfg)
               (allowed_times identifier (serve cfg calls ∅)))
   ≤ maxRequests cfg)%Z
  ∧ (∀ (requests : gmap string (list Z)) (id : string) (now : Z),
       ((maxRequests cfg ≤ Z.of_nat (length
            (filter (λ ts, (now - ts < timeWindow cfg)%Z)
                    (default [] (requests !! id)))))%Z →
        checkRateLimit cfg id now requests = (false, requests))
       ∧ ((Z.of_nat (length
            (filter (λ ts, (now - ts < timeWindow cfg)%Z)
                    (default [] (requests !! id)))) < maxRequests cfg)%Z →
          checkRateLimit cfg id now requests
          = (true,
             <[id := filter (λ ts, (now - ts < timeWindow cfg)%Z)
                            (default [] (requests !! id)) ++ [now]]> requests))).
Proof.
  intros Hmax Hclock. split.
  - destruct calls as [|[id0 now0] rest] eqn:Ecalls.
    + simpl. unfold in_window. simpl. lia.
    + rewrite <- Ecalls in *.
      apply (serve_window_bound cfg identifier calls ∅ [] now0).
      * apply Sorted_StronglySorted; [|exact Hclock].
        intros x y z; apply Z.le_trans.
      * unfold clock_monotone in Hclock.
        apply Sorted_StronglySorted in Hclock; [|intros x y z; apply Z.le_trans].
        rewrite Ecalls in *. simpl in Hclock.
        apply StronglySorted_inv in Hclock as [_ Hhd].
        apply Forall_cons. split; [simpl; lia|].
        apply Forall_forall. intros c Hc.
        rewrite List.Forall_forall in Hhd. apply Hhd.
        apply in_map. by apply list_elem_of_In.
      * intros now _. rewrite lookup_empty. done.
      * intros a'. unfold in_window. simpl. lia.
  - intros requests id now. split.
    + apply checkRateLimit_denied.
    + apply checkRateLimit_allowed.
Qed.

End RateLimiterClaim.

(** The clock matters: were it to run backwards between calls, a window
    could hold more allowed calls than the limit. *)
Example serve_clock_backwards :
  RateLimiter.in_window 100 10
    (RateLimiter.allowed_times "ip"
       (RateLimiter.serve {| RateLimiter.maxRequests := 3; RateLimiter.timeWindow := 10 |}
          [("ip", 100); ("ip", 101); ("ip", 200); ("ip", 105); ("ip", 106)]%Z ∅))
  = 4.
Proof. vm_compute. reflexivity. Qed.

(* --------------------------------------------------------------------- *)
(** ** Reasoning about effects                                             *)
(* --------------------------------------------------------------------- *)

Create HintDb js_returns.
Create HintDb js_keeps.

Section EffectFacts.
Import Effects.
Context {W S : Type}.

Lemma returns_ret {A} (a : A) : returns (@ret W S A a).
Proof. intros s w. unfold ret. eauto. Qed.

Lemma returns_get : returns (@get W S).
Proof. intros s w. unfold get. eauto. Qed.

Lemma returns_modify (f : S -> S) : returns (@modify W S f).
Proof. intros s w. unfold modify. eauto. Qed.

Lemma returns_await {A} (op : M W A) :
  op_returns op -> returns (@await W S A op).
Proof.
  intros Hop s w. unfold await. destruct (Hop w) as (a & w' & ->). eauto.
Qed.

Lemma returns_bind {A B} (c : T W S A) (f : A -> T W S B) :
  returns c -> (forall a, returns (f a)) -> returns (bind c f).
Proof.
  intros Hc Hf s w. unfold bind.
  destruct (Hc s w) as (a & s' & w' & ->). apply Hf.
Qed.

Lemma returns_try_catch {A} (body : T W S A) (handler : Err -> T W S A) :
  (forall e, returns (handler e)) -> returns (try_catch body handler).
Proof.
  intros Hh s w. unfold try_catch.
  destruct (body s w) as [[[e|a] s'] w']; [apply Hh | eauto].
Qed.

Lemma returns_when (b : bool) (c : T W S unit) :
  returns c -> returns (when b c).
Proof. intros Hc. destruct b; simpl; [exact Hc | apply returns_ret]. Qed.

Lemma returns_for_of {X} (xs : list X) (body : X -> T W S unit) :
  (forall x, returns (body x)) -> returns (for_of xs body).
Proof.
  intros Hb. induction xs as [|x xs IH]; simpl.
  - apply returns_ret.
  - apply returns_bind; auto.
Qed.

Lemma op_returns_scope {A} (init : S) (body : T W S A) :
  returns body -> op_returns (scope init body).
Proof.
  intros Hb w. unfold scope. destruct (Hb init w) as (a & s' & w' & ->). eauto.
Qed.

(** What a computation keeps true of the variables. *)
Lemma preserves_ret (I : S -> Prop) {A} (a : A) : preserves I (@ret W S A a).
Proof. intros s w H. exact H. Qed.

Lemma preserves_throw (I : S -> Prop) {A} (e : Err) : preserves I (@throw W S A e).
Proof. intros s w H. exact H. Qed.

Lemma preserves_get (I : S -> Prop) : preserves I (@get W S).
Proof. intros s w H. exact H. Qed.

Lemma preserves_await (I : S -> Prop) {A} (op : M W A) : preserves I (@await W S A op).
Proof.
  intros s w H. unfold final_state, await. destruct (op w) as [r w']. exact H.
Qed.

Lemma preserves_modify (I : S -> Prop) (f : S -> S) :
  (forall s, I s -> I (f s)) -> preserves I (@modify W S f).
Proof. intros Hf s w H. apply Hf, H. Qed.

Lemma preserves_bind (I : S -> Prop) {A B} (c : T W S A) (f : A -> T W S B) :
  preserves I c -> (forall a, preserves I (f a)) -> preserves I (bind c f).
Proof.
  intros Hc Hf s w H. specialize (Hc s w H).
  unfold final_state, bind in *.
  destruct (c s w) as [[[e|a] s'] w']; simpl in *; [exact Hc|].
  apply (Hf a s' w' Hc).
Qed.

Lemma preserves_try_catch (I : S -> Prop) {A}
    (body : T W S A) (handler : Err -> T W S A) :
  preserves I body -> (forall e, preserves I (handler e)) ->
  preserves I (try_catch body handler).
Proof.
  intros Hb Hh s w H. specialize (Hb s w H).
  unfold final_state, try_catch in *.
  destruct (body s w) as [[[e|a] s'] w']; simpl in *; [|exact Hb].
  apply (Hh e s' w' Hb).
Qed.

Lemma preserves_when (I : S -> Prop) (b : bool) (c : T W S unit) :
  preserves I c -> preserves I (when b c).
Proof. intros Hc. destruct b; simpl; [exact Hc | apply preserves_ret]. Qed.

Lemma preserves_for_of (I : S -> Prop) {X} (xs : list X) (body : X -> T W S unit) :
  (forall x, preserves I (body x)) -> preserves I (for_of xs body).
Proof.
  intros Hb. induction xs as [|x xs IH]; simpl.
  - apply preserves_ret.
  - apply preserves_bind; auto.
Qed.

(** A method that ends by handing back its variable hands back a value
    with every property the body kept. *)
Lemma scope_get_keeps (I : S -> Prop) (init : S) (body : T W S unit)
    (w w' : W) (v : S) :
  I init -> preserves I body ->
  scope init (bind body (fun _ => get)) w = (inr v, w') -> I v.
Proof.
  intros Hinit Hb Hrun. specialize (Hb init w Hinit).
  unfold scope, bind, get, final_state in *.
  destruct (body init w) as [[[e|a] s'] w'']; simpl in *; [discriminate|].
  inversion Hrun; subst. exact Hb.
Qed.

End EffectFacts.

#[export] Hint Resolve returns_ret returns_get returns_modify returns_await
  returns_bind returns_try_catch returns_when returns_for_of op_returns_scope
  : js_returns.
#[export] Hint Resolve preserves_ret preserves_throw preserves_get preserves_await
  preserves_modify preserves_bind preserves_try_catch preserves_when
  preserves_for_of : js_keeps.

(** What a computation that returned went through. *)
Section InversionFacts.
Import Effects.
Context {W S : Type}.

Lemma bind_inr {A B} (c : T W S A) (f : A -> T W S B) (s s' : S) (w w' : W) (b : B) :
  bind c f s w = (inr b, s', w') ->
  exists a s1 w1, c s w = (inr a, s1, w1) /\ f a s1 w1 = (inr b, s', w').
Proof.
  unfold bind. destruct (c s w) as [[[e|a] s1] w1]; [discriminate|]. eauto.
Qed.

Lemma await_inr {A} (op : M W A) (s s' : S) (w w' : W) (a : A) :
  await op s w = (inr a, s', w') -> op w = (inr a, w') /\ s' = s.
Proof.
  unfold await. destruct (op w) as [r w1]. intros [= -> -> ->]. auto.
Qed.

Lemma ret_inr {A} (a b : A) (s s' : S) (w w' : W) :
  ret a s w = (inr b, s', w') -> b = a.
Proof. intros [= -> _ _]. reflexivity. Qed.


Lemma scope_inr {A} (init : S) (body : T W S A) (w w' : W) (a : A) :
  scope init body w = (inr a, w') -> exists s', body init w = (inr a, s', w').
Proof.
  unfold scope. destruct (body init w) as [[r s1] w1]. intros [= -> ->]. eauto.
Qed.

End InversionFacts.

(** Walk down a sequence of binds that returned. *)
Ltac bind_step H :=
  let a := fresh "v" in
  let s1 := fresh "s" in
  let w1 := fresh "w" in
  let H1 := fresh "Hstep" in
  apply bind_inr in H as (a & s1 & w1 & H1 & H).

(** How the variables end, step by step. *)
Section FinalStateFacts.
Import Effects.
Context {W S : Type}.

Lemma final_state_bind {A B} (c : T W S A) (f : A -> T W S B) (s : S) (w : W) :
  final_state (bind c f) s w =
  match c s w with
  | (inl _, s', _) => s'
  | (inr a, s', w') => final_state (f a) s' w'
  end.
Proof. unfold final_state, bind. destruct (c s w) as [[[e|a] s'] w']; reflexivity. Qed.

Lemma final_state_await {A B} (op : M W A) (f : A -> T W S B) (s : S) (w : W) :
  final_state (bind (await op) f) s w =
  match op w with
  | (inl _, _) => s
  | (inr a, w') => final_state (f a) s w'
  end.
Proof.
  unfold final_state, bind, await. destruct (op w) as [[e|a] w']; reflexivity.
Qed.

Lemma final_state_catch_nothing (body : T W S unit) (s : S) (w : W) :
  final_state (try_catch body (fun _ => ret tt)) s w = final_state body s w.
Proof.
  unfold final_state, try_catch, ret.
  destruct (body s w) as [[[e|a] s'] w']; reflexivity.
Qed.

Lemma scope_get_final (init : S) (body : T W S unit) (w : W) :
  exists w', scope init (bind (try_catch body (fun _ => ret tt)) (fun _ => get)) w
             = (inr (final_state body init w), w').
Proof.
  unfold scope, bind, try_catch, get, ret, final_state.
  destruct (body init w) as [[[e|a] s'] w']; eexists; reflexivity.
Qed.

End FinalStateFacts.

(** Loops that collect: when each turn adds at most one entry, which then
    stands in [R] to the element of the turn, the entries added stand in
    [R], one by one and in order, to some of the elements in their
    order. A turn that throws ends the loop with what it had. *)
Section CollectFacts.
Import Effects.
Context {W X Y : Type}.
Variable R : Y -> X -> Prop.
Variable body : X -> T W (list Y) unit.
Hypothesis turn : forall x acc w,
  final_state (body x) acc w = acc
  \/ exists y, final_state (body x) acc w = acc ++ [y] /\ R y x.

Lemma for_of_collects (xs : list X) :
  forall acc w, exists out kept,
    final_state (for_of xs body) acc w = acc ++ out
    /\ sublist kept xs /\ Forall2 R out kept.
Proof.
  induction xs as [|x xs IH]; intros acc w.
  - exists [], []. cbn. rewrite app_nil_r. repeat split; constructor.
  - cbn [for_of]. rewrite final_state_bind.
    pose proof (turn x acc w) as Hx. unfold final_state in Hx.
    destruct (body x acc w) as [[[e|[]] s1] w1]; cbn [fst snd] in Hx.
    + destruct Hx as [->|(y & -> & Hy)].
      * exists [], []. rewrite app_nil_r. repeat split; [apply sublist_nil_l | constructor].
      * exists [y], [x]. repeat split.
        -- apply sublist_skip, sublist_nil_l.
        -- constructor; [exact Hy | constructor].
    + destruct (IH s1 w1) as (out & kept & -> & Hsub & Hall).
      destruct Hx as [->|(y & -> & Hy)].
      * exists out, kept. repeat split; [apply sublist_cons, Hsub | exact Hall].
      * exists (y :: out), (x :: kept). rewrite <- app_assoc. repeat split.
        -- apply sublist_skip, Hsub.
        -- constructor; assumption.
Qed.

(** The method around such a loop: an empty list when the lookup of the
    elements throws. *)
Lemma scope_collects (find : M W (list X)) (w : W) :
  exists out w',
    scope [] (bind (try_catch (bind (await find) (fun xs => for_of xs body))
                              (fun _ => ret tt))
                   (fun _ => get)) w = (inr out, w')
    /\ match find w with
       | (inl _, _) => out = []
       | (inr xs, _) => exists kept, sublist kept xs /\ Forall2 R out kept
       end.
Proof.
  destruct (scope_get_final [] (bind (await find) (fun xs => for_of xs body)) w)
    as (w' & Hrun).
  eexists _, w'. split; [exact Hrun|].
  rewrite final_state_await. destruct (find w) as [[e|xs] w1]; [reflexivity|].
  destruct (for_of_collects xs [] w1) as (out & kept & -> & Hsub & Hall).
  exists kept. auto.
Qed.

End CollectFacts.

(* --------------------------------------------------------------------- *)
(** ** Strings                                                             *)
(* --------------------------------------------------------------------- *)

Section StringFacts.
Import JsString Stated.

Lemma startsWith_empty (s : string) : startsWith s "" = true.
Proof. destruct s; reflexivity. Qed.

Lemma startsWith_spec (p : string) : forall s,
  startsWith s p = true <-> starts_with p s.
Proof.
  unfold starts_with. induction p as [|a p IH]; intros s; simpl.
  - split; [intros _; exists s; reflexivity | intros _; destruct s; reflexivity].
  - destruct s as [|b s]; simpl.
    + split; [discriminate | intros [t Ht]; discriminate].
    + rewrite andb_true_iff, IH. split.
      * intros [Hab [t ->]]. apply Ascii.eqb_eq in Hab; subst. exists t; reflexivity.
      * intros [t Ht]. inversion Ht; subst. split; [apply Ascii.eqb_refl | exists t; reflexivity].
Qed.

Lemma list_ascii_of_string_app (a b : string) :
  list_ascii_of_string (a +:+ b) = list_ascii_of_string a ++ list_ascii_of_string b.
Proof. induction a as [|c a IH]; simpl; [reflexivity | by rewrite IH]. Qed.

Lemma string_of_list_ascii_app (a b : list ascii) :
  string_of_list_ascii (a ++ b) = string_of_list_ascii a +:+ string_of_list_ascii b.
Proof. induction a as [|c a IH]; simpl; [reflexivity | by rewrite IH]. Qed.

Lemma reverse_app (a b : string) : reverse (a +:+ b) = reverse b +:+ reverse a.
Proof.
  unfold reverse. by rewrite list_ascii_of_string_app, rev_app_distr, string_of_list_ascii_app.
Qed.

Lemma reverse_involutive (s : string) : reverse (reverse s) = s.
Proof.
  unfold reverse.
  by rewrite list_ascii_of_string_of_list_ascii, rev_involutive, string_of_list_ascii_of_string.
Qed.

Lemma endsWith_spec (s q : string) : endsWith s q = true <-> ends_with q s.
Proof.
  unfold endsWith, ends_with. rewrite startsWith_spec. unfold starts_with. split.
  - intros [t Ht]. exists (reverse t).
    rewrite <- (reverse_involutive s), Ht, reverse_app, reverse_involutive. reflexivity.
  - intros [t ->]. exists (reverse t). apply reverse_app.
Qed.

(** [includes s c] for a one-character [c] looks for that character. *)
Lemma includes_char (c : ascii) (s : string) :
  includes s (String c "") = existsb (Ascii.eqb c) (list_ascii_of_string s).
Proof.
  induction s as [|b s IH]; simpl; [reflexivity|].
  rewrite IH, startsWith_empty, andb_true_r. reflexivity.
Qed.

(** The pieces of a split: the whole string when the separator does not
    occur, and otherwise at least two pieces, the last of which is what
    follows the last separator. *)
Lemma split_shape (sep : ascii) (s : string) :
  (after_last sep s = None -> split sep s = [s])
  /\ (forall e, after_last sep s = Some e ->
        exists piece pieces, split sep s = piece :: pieces ++ [e]).
Proof.
  induction s as [|c s [IHn IHs]]; simpl.
  - split; [reflexivity | discriminate].
  - destruct (after_last sep s) as [e'|] eqn:E.
    + split; [discriminate|]. intros e He; inversion He; subst e'.
      destruct (IHs e eq_refl) as (piece & pieces & Hsp). rewrite Hsp.
      destruct (Ascii.eqb c sep).
      * exists "", (piece :: pieces). reflexivity.
      * exists (String c piece), pieces. reflexivity.
    + rewrite (IHn eq_refl). destruct (Ascii.eqb c sep).
      * split; [discriminate|]. intros e He; inversion He; subst.
        exists "", []. reflexivity.
      * split; [reflexivity | discriminate].
Qed.

Lemma pop_split (sep : ascii) (s : string) :
  pop (split sep s) = Some (default s (after_last sep s)).
Proof.
  destruct (split_shape sep s) as [Hn Hs]. unfold pop.
  destruct (after_last sep s) as [e|] eqn:E.
  - destruct (Hs e eq_refl) as (piece & pieces & ->).
    rewrite map_cons, map_app. simpl map.
    change (Some piece :: map Some pieces ++ [Some e])
      with ((Some piece :: map Some pieces) ++ [Some e]).
    apply last_last.
  - rewrite (Hn eq_refl). reflexivity.
Qed.

Lemma lower_char_colon (c : ascii) :
  Ascii.eqb ":" c = true -> Ascii.eqb ":" (lower_char c) = true.
Proof. intros H. apply Ascii.eqb_eq in H. subst c. reflexivity. Qed.

Lemma toLowerCase_keeps_colon (s : string) :
  includes s ":" = true -> includes (toLowerCase s) ":" = true.
Proof.
  rewrite !includes_char. induction s as [|c s IH]; simpl; [discriminate|].
  rewrite !orb_true_iff. intros [H|H].
  - left. apply lower_char_colon, H.
  - right. apply IH, H.
Qed.

End StringFacts.

(* --------------------------------------------------------------------- *)
(** ** Images: resolution and format                                       *)
(* --------------------------------------------------------------------- *)

(** One step of a proof that a body keeps a property of its variables. *)
Ltac keeps_step :=
  first
    [ apply preserves_ret | apply preserves_get | apply preserves_throw
    | apply preserves_await
    | apply preserves_when
    | apply preserves_for_of; intros ?
    | apply preserves_try_catch; [ | intros ? ]
    | apply preserves_bind; [ | intros ? ] ].

Section ImageFacts.
Import JsString Stated Effects ContentExtractor.
Context {W E Json : Type}.
Variable rt : Runtime W Json.
Variable driver : WebDriver W E.
Variable baseUrl : string.

Lemma or_default_same (x : string) : or_default (Some x) "" = x.
Proof. unfold or_default. destruct (String.eqb_spec x ""); congruence. Qed.

Lemma getImageFormat_spec (url e : string) :
  getImageFormat url = Some e
  <-> e = toLowerCase (default url (trailing_extension url)) /\ In e imageFormats.
Proof.
  unfold getImageFormat, trailing_extension. rewrite pop_split.
  cbn [option_map]. rewrite or_default_same.
  set (x := toLowerCase (default url (after_last "." url))).
  destruct (existsb (String.eqb x) imageFormats) eqn:Ex.
  - apply existsb_exists in Ex as (f & Hin & Hf). apply String.eqb_eq in Hf. subst f.
    split.
    + intros H; inversion H; subst. split; [reflexivity | exact Hin].
    + intros [-> _]. reflexivity.
  - split; [discriminate|]. intros [-> Hin].
    assert (existsb (String.eqb x) imageFormats = true) as Ht.
    { apply existsb_exists. exists x. split; [exact Hin | apply String.eqb_refl]. }
    congruence.
Qed.

Lemma imageFormats_no_colon (e : string) :
  In e imageFormats -> includes e ":" = false.
Proof.
  intros Hin. unfold imageFormats in Hin. simpl in Hin.
  repeat (destruct Hin as [<-|Hin]; [reflexivity|]). contradiction.
Qed.

(** On a string with a colon, as every absolute URL is, the format is the
    lower-cased trailing extension when that is one of the eight formats. *)
Lemma getImageFormat_absolute (url e : string) :
  includes url ":" = true ->
  (getImageFormat url = Some e
   <-> exists ext, trailing_extension url = Some ext
                   /\ e = toLowerCase ext /\ In e imageFormats).
Proof.
  intros Hcolon. rewrite getImageFormat_spec.
  destruct (trailing_extension url) as [ext|] eqn:Eext; simpl.
  - split.
    + intros [-> Hin]. exists ext. auto.
    + intros (ext' & Heq & -> & Hin). inversion Heq; subst. auto.
  - split.
    + intros [-> Hin]. apply imageFormats_no_colon in Hin.
      rewrite (toLowerCase_keeps_colon url Hcolon) in Hin. discriminate.
    + intros (ext' & Heq & _). discriminate.
Qed.

Lemma preserves_new_URL_with_base {S A} (I : S -> Prop) (s base : string)
    (f : URL.t -> T W S A) :
  (forall u, URL_resolve rt s base = Some u -> preserves I (f u)) ->
  preserves I (bind (new_URL_with_base rt s base) f).
Proof.
  intros Hf. unfold new_URL_with_base.
  destruct (URL_resolve rt s base) as [u|] eqn:Eu.
  - intros st w H. specialize (Hf u eq_refl st w H).
    unfold final_state, bind, ret in *. exact Hf.
  - intros st w H. exact H.
Qed.

Local Abbreviation resolved_image := (Stated.resolved_image rt baseUrl).

Lemma extractImages_returns : op_returns (extractImages rt driver baseUrl).
Proof. unfold extractImages. auto 10 with js_returns. Qed.

Lemma extractImages_resolved (w w' : W) (images : list ImageData.t) :
  extractImages rt driver baseUrl w = (inr images, w') ->
  List.Forall resolved_image images.
Proof.
  unfold extractImages.
  apply (scope_get_keeps (List.Forall resolved_image)); [constructor|].
  repeat keeps_step.
  destruct (or_undefined _) as [src'|]; [|keeps_step].
  apply preserves_new_URL_with_base. intros u Hu.
  apply preserves_modify. intros imgs Himgs. unfold push.
  apply List.Forall_app. split; [exact Himgs|]. constructor; [|constructor].
  split; simpl; [|reflexivity]. exists src', u. auto.
Qed.

(** The records are made of the [img] elements of the page, in their
    order, each of the src attribute of its element; none when the lookup
    of the elements throws. *)
Lemma extractImages_of_elements (w : W) :
  exists images w',
    extractImages rt driver baseUrl w = (inr images, w')
    /\ match findElements driver (tagName "img") w with
       | (inl _, _) => images = []
       | (inr elements, _) =>
           exists kept, sublist kept elements
                        /\ Forall2 (Stated.image_of rt driver baseUrl) images kept
       end.
Proof.
  unfold extractImages. apply (scope_collects (Stated.image_of rt driver baseUrl)).
  intros img acc w0.
  rewrite final_state_await.
  destruct (getAttribute driver img "src" w0) as [[e|attr] w1] eqn:Hsrc;
    [left; reflexivity|].
  do 4 (rewrite final_state_await;
        match goal with
        | |- context [getAttribute driver img ?name ?w2] =>
            destruct (getAttribute driver img name w2) as [[?|?] ?];
            [left; reflexivity|]
        end).
  destruct (or_undefined attr) as [src|] eqn:Hattr; [|left; reflexivity].
  unfold new_URL_with_base.
  destruct (URL_resolve rt src baseUrl) as [u|] eqn:Hu; [|left; reflexivity].
  right. eexists. split; [reflexivity|].
  exists w0, w1, attr, src, u. cbn. auto.
Qed.

End ImageFacts.

(** C8. extractImages returns, and its records are made of the img
    elements the session found, in the order of the page: each record
    comes from one element, whose src attribute the session read, and has
    as src the href of that attribute resolved against baseUrl (there is
    no record when the lookup of the elements throws). The format of a
    record is present exactly when the lower-cased trailing extension of
    its src (what follows its last dot) is one of jpg, jpeg, png, gif,
    webp, svg, bmp, ico, and is then that lower-cased extension; an
    absolute URL carries its scheme and so a colon. *)
Theorem extractImages_resolved_format {W E Json : Type}
    (rt : Runtime W Json) (driver : WebDriver W E) (baseUrl : string) (w : W) :
  (forall src u, URL_resolve rt src baseUrl = Some u ->
                 JsString.includes (URL.href u) ":" = true) ->
  exists images w',
    ContentExtractor.extractImages rt driver baseUrl w = (inr images, w')
    /\ match findElements driver (tagName "img") w with
       | (inl _, _) => images = []
       | (inr elements, _) =>
           exists kept, sublist kept elements
                        /\ Forall2 (Stated.image_of rt driver baseUrl) images kept
       end
    /\ List.Forall
         (fun img =>
            (exists src u, URL_resolve rt src baseUrl = Some u
                           /\ ImageData.src img = URL.href u)
            /\ (forall e, ImageData.format img = Some e
                  <-> exists ext,
                        Stated.trailing_extension (ImageData.src img) = Some ext
                        /\ e = JsString.toLowerCase ext
                        /\ In e ContentExtractor.imageFormats))
         images.
Proof.
  intros Habs.
  destruct (extractImages_of_elements rt driver baseUrl w) as (images & w' & Hrun & Hof).
  exists images, w'. split; [exact Hrun|]. split; [exact Hof|].
  pose proof (extractImages_resolved rt driver baseUrl w w' images Hrun) as Hall.
  eapply List.Forall_impl; [|exact Hall].
  intros img [(src & u & Hu & Hsrc) Hfmt]. split.
  - exists src, u. auto.
  - intros e. rewrite Hfmt. apply getImageFormat_absolute.
    rewrite Hsrc. apply (Habs src u Hu).
Qed.

(* --------------------------------------------------------------------- *)
(** ** Links: classification and domain                                    *)
(* --------------------------------------------------------------------- *)

Section LinkFacts.
Import JsString Stated Effects ContentExtractor.
Context {W E Json : Type}.
Variable rt : Runtime W Json.
Variable driver : WebDriver W E.
Variable baseUrl : string.

Lemma file_path_spec (pathname : string) :
  existsb (fun ext => endsWith (toLowerCase pathname) ext) fileExtensions = true
  <-> file_path pathname.
Proof.
  unfold file_path. rewrite existsb_exists.
  split; intros (ext & Hin & H); exists ext; (split; [exact Hin|]);
    apply endsWith_spec; exact H.
Qed.

Lemma startsWith_false (s p : string) :
  startsWith s p = false <-> ~ starts_with p s.
Proof.
  rewrite <- startsWith_spec. destruct (startsWith s p); split; congruence.
Qed.

Lemma getLinkType_email (href : string) :
  starts_with "mailto:" href -> getLinkType rt href baseUrl = LinkData.email.
Proof.
  intros H. apply startsWith_spec in H. unfold getLinkType. rewrite H. reflexivity.
Qed.

Lemma getLinkType_phone (href : string) :
  ~ starts_with "mailto:" href -> starts_with "tel:" href ->
  getLinkType rt href baseUrl = LinkData.phone.
Proof.
  intros Hm Ht. apply startsWith_false in Hm. apply startsWith_spec in Ht.
  unfold getLinkType. rewrite Hm, Ht. reflexivity.
Qed.

Lemma getLinkType_anchor_or_root (href : string) :
  ~ starts_with "mailto:" href -> ~ starts_with "tel:" href ->
  starts_with "#" href \/ starts_with "/" href ->
  getLinkType rt href baseUrl = LinkData.internal.
Proof.
  intros Hm Ht Hs. apply startsWith_false in Hm. apply startsWith_false in Ht.
  unfold getLinkType. rewrite Hm, Ht.
  destruct Hs as [Hs|Hs]; apply startsWith_spec in Hs; rewrite Hs;
    [reflexivity | rewrite orb_true_r; reflexivity].
Qed.

(** Past the prefix tests, the answer is read off the two parsed URLs. *)
Lemma getLinkType_parsed (href : string) :
  ~ starts_with "mailto:" href -> ~ starts_with "tel:" href ->
  ~ starts_with "#" href -> ~ starts_with "/" href ->
  getLinkType rt href baseUrl =
    match URL_parse rt href, URL_parse rt baseUrl with
    | Some url, Some baseUrlObj =>
        if existsb (fun ext => endsWith (toLowerCase (URL.pathname url)) ext)
                   fileExtensions
        then LinkData.file
        else if String.eqb (URL.hostname url) (URL.hostname baseUrlObj)
             then LinkData.internal else LinkData.external
    | _, _ => LinkData.internal
    end.
Proof.
  intros Hm Ht Hh Hr.
  apply startsWith_false in Hm. apply startsWith_false in Ht.
  apply startsWith_false in Hh. apply startsWith_false in Hr.
  unfold getLinkType. rewrite Hm, Ht, Hh, Hr. simpl.
  destruct (URL_parse rt href); [|reflexivity].
  destruct (URL_parse rt baseUrl); reflexivity.
Qed.

(** An external link has an href that parses. *)
Lemma getLinkType_external_parses (href : string) :
  getLinkType rt href baseUrl = LinkData.external ->
  exists url, URL_parse rt href = Some url.
Proof.
  unfold getLinkType.
  destruct (startsWith href "mailto:"); [discriminate|].
  destruct (startsWith href "tel:"); [discriminate|].
  destruct (startsWith href "#" || startsWith href "/"); [discriminate|].
  destruct (URL_parse rt href) as [url|]; [eauto | discriminate].
Qed.

Local Abbreviation classified_link := (Stated.classified_link rt baseUrl).

Lemma extractLinks_returns : op_returns (extractLinks rt driver baseUrl).
Proof. unfold extractLinks. auto 10 with js_returns. Qed.

Lemma classified_without_domain (href text : string) (title : option string)
    (k : LinkData.kind) :
  getLinkType rt href baseUrl = k -> k <> LinkData.external ->
  classified_link
    {| LinkData.href := href; LinkData.text := text; LinkData.title := title;
       LinkData.type := k; LinkData.domain := None |}.
Proof.
  intros Hk Hne. split; simpl; [congruence|].
  intros d. split; [discriminate | intros [? _]; contradiction].
Qed.

Lemma classified_with_domain (href text : string) (title : option string)
    (url : URL.t) :
  getLinkType rt href baseUrl = LinkData.external ->
  URL_parse rt href = Some url ->
  classified_link
    {| LinkData.href := href; LinkData.text := text; LinkData.title := title;
       LinkData.type := LinkData.external;
       LinkData.domain := Some (URL.hostname url) |}.
Proof.
  intros Hk Hurl. split; simpl; [congruence|].
  intros d. split.
  - intros H; inversion H; subst. split; [reflexivity|]. exists url. auto.
  - intros [_ (url' & Hurl' & <-)]. congruence.
Qed.

Lemma extractLinks_classified (w w' : W) (links : list LinkData.t) :
  extractLinks rt driver baseUrl w = (inr links, w') ->
  List.Forall classified_link links.
Proof.
  unfold extractLinks.
  apply (scope_get_keeps (List.Forall classified_link)); [constructor|].
  repeat keeps_step.
  destruct (or_undefined _) as [href'|]; [|keeps_step].
  intros st w0 Hst. unfold final_state, bind.
  destruct (getLinkType rt href' baseUrl) eqn:Ety;
    try (simpl; unfold push; apply List.Forall_app; split; [exact Hst|];
         constructor; [|constructor];
         apply classified_without_domain; [exact Ety | discriminate]).
  destruct (getLinkType_external_parses href' Ety) as [url Hurl].
  unfold new_URL. rewrite Hurl. simpl.
  unfold push; apply List.Forall_app; split; [exact Hst|].
  constructor; [|constructor]. apply classified_with_domain; assumption.
Qed.

End LinkFacts.

Section SampleFacts.
Import JsString Samples.

Lemma includes_app_l (a b : string) :
  includes a ":" = true -> includes (a +:+ b) ":" = true.
Proof.
  rewrite !includes_char, list_ascii_of_string_app, existsb_app.
  intros ->. reflexivity.
Qed.

Lemma includes_app_r (a b : string) :
  includes b ":" = true -> includes (a +:+ b) ":" = true.
Proof.
  rewrite !includes_char, list_ascii_of_string_app, existsb_app.
  intros ->. apply orb_true_r.
Qed.

(** The sample parser returns URLs with their scheme. *)
Lemma parse_url_has_scheme (s : string) (u : URL.t) :
  parse_url s = Some u -> includes (URL.href u) ":" = true.
Proof.
  unfold parse_url.
  destruct (after_scheme s) as [[[|c scheme] r]|]; try discriminate.
  destruct (break _ r) as [authority tail].
  destruct (break _ tail) as [path suffix].
  destruct (String.eqb authority ""); [discriminate|].
  intros [= <-]. cbn [URL.href].
  apply includes_app_r. apply includes_app_l. reflexivity.
Qed.

Lemma resolve_url_has_scheme (s base : string) (u : URL.t) :
  resolve_url s base = Some u -> includes (URL.href u) ":" = true.
Proof.
  unfold resolve_url.
  destruct (parse_url base) as [b|]; [|discriminate].
  destruct (parse_url s) as [u'|] eqn:E.
  - intros H; inversion H; subst. apply (parse_url_has_scheme s), E.
  - destruct (after_scheme base) as [[scheme r]|]; [|discriminate].
    destruct (break _ r) as [authority tail].
    destruct (startsWith s "/"); apply parse_url_has_scheme.
Qed.

End SampleFacts.

(** C8, on the gallery page: the hypothesis holds of the sample platform;
    the page has two images, /img/Logo.PNG and a banner on another host
    with a query string after its extension, and the records are these
    two, resolved, the first with the format png and the second with
    none. *)
Lemma extractImages_resolved_format_witness :
  (forall src u,
     URL_resolve (Samples.runtime Regex.Optional []) src "https://x.com/" = Some u ->
     JsString.includes (URL.href u) ":" = true)
  /\ (exists w',
        ContentExtractor.extractImages (Samples.runtime Regex.Optional [])
          (Samples.session Samples.galleryPage) "https://x.com/" []
        = (inr [ {| ImageData.src := "https://x.com/img/Logo.PNG";
                    ImageData.alt := "logo"; ImageData.title := None;
                    ImageData.width := None; ImageData.height := None;
                    ImageData.format := Some "png"; ImageData.size := None;
                    ImageData.downloaded := None; ImageData.localPath := None |};
                 Samples.someImage "https://cdn.y.com/a/banner.jpeg?v=2" None ], w'))
  /\ exists images w',
       ContentExtractor.extractImages (Samples.runtime Regex.Optional [])
         (Samples.session Samples.galleryPage) "https://x.com/" [] = (inr images, w')
       /\ match findElements (Samples.session Samples.galleryPage) (tagName "img") [] with
          | (inl _, _) => images = []
          | (inr elements, _) =>
              exists kept,
                sublist kept elements
                /\ Forall2 (Stated.image_of (Samples.runtime Regex.Optional [])
                              (Samples.session Samples.galleryPage) "https://x.com/")
                     images kept
          end
       /\ List.Forall
            (fun img =>
               (exists src u,
                  URL_resolve (Samples.runtime Regex.Optional []) src "https://x.com/" = Some u
                  /\ ImageData.src img = URL.href u)
               /\ (forall e, ImageData.format img = Some e
                     <-> exists ext,
                           Stated.trailing_extension (ImageData.src img) = Some ext
                           /\ e = JsString.toLowerCase ext
                           /\ In e ContentExtractor.imageFormats))
            images.
Proof.
  split; [|split].
  - intros src u. apply resolve_url_has_scheme.
  - eexists. reflexivity.
  - apply (extractImages_resolved_format (Samples.runtime Regex.Optional [])
             (Samples.session Samples.galleryPage) "https://x.com/" []).
    intros src u. apply resolve_url_has_scheme.
Defined.

(** C1, as amended. getLinkType answers email for an href that starts
    with mailto:, else phone for one that starts with tel:, else internal
    for one that starts with # or /; otherwise internal when the href or
    the base URL does not parse as an absolute URL, else file when the
    lower-cased path of the href ends with one of the ten extensions
    (whatever the host), else internal when the host names are equal and
    external when they differ. Every link extractLinks returns carries
    that type, and its domain is the host name of its href exactly when
    the type is external. In particular /about on https://x.com/ is
    internal, and https://y.com/z.pdf, whose path is /z.pdf, is file. *)
Theorem getLinkType_classification {W E Json : Type}
    (rt : Runtime W Json) (driver : WebDriver W E) (href baseUrl : string) (w : W) :
  (Stated.starts_with "mailto:" href ->
     ContentExtractor.getLinkType rt href baseUrl = LinkData.email)
  /\ (~ Stated.starts_with "mailto:" href -> Stated.starts_with "tel:" href ->
        ContentExtractor.getLinkType rt href baseUrl = LinkData.phone)
  /\ (~ Stated.starts_with "mailto:" href -> ~ Stated.starts_with "tel:" href ->
        Stated.starts_with "#" href \/ Stated.starts_with "/" href ->
        ContentExtractor.getLinkType rt href baseUrl = LinkData.internal)
  /\ (~ Stated.starts_with "mailto:" href -> ~ Stated.starts_with "tel:" href ->
        ~ Stated.starts_with "#" href -> ~ Stated.starts_with "/" href ->
        (URL_parse rt href = None \/ URL_parse rt baseUrl = None ->
           ContentExtractor.getLinkType rt href baseUrl = LinkData.internal)
        /\ forall url baseUrlObj,
             URL_parse rt href = Some url -> URL_parse rt baseUrl = Some baseUrlObj ->
             (Stated.file_path (URL.pathname url) ->
                ContentExtractor.getLinkType rt href baseUrl = LinkData.file)
             /\ (~ Stated.file_path (URL.pathname url) ->
                   URL.hostname url = URL.hostname baseUrlObj ->
                   ContentExtractor.getLinkType rt href baseUrl = LinkData.internal)
             /\ (~ Stated.file_path (URL.pathname url) ->
                   URL.hostname url <> URL.hostname baseUrlObj ->
                   ContentExtractor.getLinkType rt href baseUrl = LinkData.external))
  /\ (exists links w',
        ContentExtractor.extractLinks rt driver baseUrl w = (inr links, w')
        /\ List.Forall (Stated.classified_link rt baseUrl) links)
  /\ ContentExtractor.getLinkType rt "/about" "https://x.com/" = LinkData.internal
  /\ (forall url baseUrlObj,
        URL_parse rt "https://y.com/z.pdf" = Some url -> URL.pathname url = "/z.pdf" ->
        URL_parse rt "https://x.com/" = Some baseUrlObj ->
        ContentExtractor.getLinkType rt "https://y.com/z.pdf" "https://x.com/"
          = LinkData.file).
Proof.
  repeat apply conj.
  - apply getLinkType_email.
  - apply getLinkType_phone.
  - apply getLinkType_anchor_or_root.
  - intros Hm Ht Hh Hr. split.
    + intros [Hn|Hn];
        rewrite (getLinkType_parsed rt baseUrl href Hm Ht Hh Hr), Hn;
        [reflexivity | destruct (URL_parse rt href); reflexivity].
    + intros url b Hu Hb.
      rewrite (getLinkType_parsed rt baseUrl href Hm Ht Hh Hr), Hu, Hb.
      pose proof (file_path_spec (URL.pathname url)) as Hfile.
      destruct (existsb _ ContentExtractor.fileExtensions).
      * repeat apply conj; [reflexivity | |];
          intros Hnf; exfalso; apply Hnf, Hfile; reflexivity.
      * assert (Hnf : ~ Stated.file_path (URL.pathname url)).
        { intros Hf. apply Hfile in Hf. discriminate. }
        repeat apply conj; [contradiction | |]; intros _ Hhost.
        -- rewrite Hhost, String.eqb_refl. reflexivity.
        -- apply String.eqb_neq in Hhost. rewrite Hhost. reflexivity.
  - destruct (extractLinks_returns rt driver baseUrl w) as (links & w' & Hrun).
    exists links, w'. split; [exact Hrun|].
    apply (extractLinks_classified rt driver baseUrl w w' links Hrun).
  - reflexivity.
  - intros url b Hu Hpath Hb. unfold ContentExtractor.getLinkType.
    cbn [JsString.startsWith Ascii.eqb Bool.eqb andb orb].
    rewrite Hu, Hb, Hpath. reflexivity.
Qed.

(** C1 as first stated fails on the code: an absolute href on the base's
    own host whose path ends in .pdf is classified file, not internal, and
    a relative href that does not parse is classified internal, not
    external. *)
Lemma getLinkType_same_host_file_counterexample :
  (exists url baseUrlObj,
     URL_parse (Samples.runtime Regex.Optional []) "https://x.com/z.pdf" = Some url
     /\ URL_parse (Samples.runtime Regex.Optional []) "https://x.com/" = Some baseUrlObj
     /\ URL.hostname url = URL.hostname baseUrlObj
     /\ ContentExtractor.getLinkType (Samples.runtime Regex.Optional [])
          "https://x.com/z.pdf" "https://x.com/" = LinkData.file
     /\ ContentExtractor.getLinkType (Samples.runtime Regex.Optional [])
          "https://x.com/z.pdf" "https://x.com/" <> LinkData.internal)
  /\ ContentExtractor.getLinkType (Samples.runtime Regex.Optional [])
       "about.html" "https://x.com/" = LinkData.internal
  /\ ContentExtractor.getLinkType (Samples.runtime Regex.Optional [])
       "about.html" "https://x.com/" <> LinkData.external.
Proof.
  split.
  - eexists _, _. repeat split; try reflexivity. discriminate.
  - split; [reflexivity | discriminate].
Qed.

(* --------------------------------------------------------------------- *)
(** ** Download file names                                                 *)
(* --------------------------------------------------------------------- *)

Section FilenameFacts.
Import JsString Stated Effects ContentExtractor.
Context {W Json : Type}.
Variable rt : Runtime W Json.

(** The name [generateImageFilename] gives for a URL that parses: the last
    path segment, or [image] when that is empty, with the format appended
    when the name has no dot and a format is known. The clock is not
    read. *)
Lemma generateImageFilename_name (url : string) (format : option string)
    (u : URL.t) (w : W) :
  URL_parse rt url = Some u ->
  generateImageFilename rt url format w =
    (inr (let segment := last_segment (URL.pathname u) in
          let name := if String.eqb segment "" then "image" else segment in
          match or_undefined format with
          | Some fmt => if includes name "." then name else name +:+ "." +:+ fmt
          | None => name
          end), w).
Proof.
  intros Hu. unfold generateImageFilename, scope, new_URL, bind, ret. rewrite Hu.
  rewrite pop_split. fold (last_segment (URL.pathname u)).
  set (segment := last_segment (URL.pathname u)).
  assert (Hname : or_default (Some segment) "image"
                  = if String.eqb segment "" then "image" else segment) by reflexivity.
  rewrite Hname. cbv zeta.
  set (name := if String.eqb segment "" then "image" else segment).
  assert (Hne : String.eqb name "" = false).
  { unfold name. destruct (String.eqb segment "") eqn:E; [reflexivity | exact E]. }
  destruct (includes name ".") eqn:Edot; simpl.
  - rewrite Hne. simpl. destruct (or_undefined format); reflexivity.
  - destruct (or_undefined format); [reflexivity|]. rewrite Hne. reflexivity.
Qed.

Lemma generateImageFilename_invalid (url : string) (format : option string) (w : W) :
  URL_parse rt url = None ->
  generateImageFilename rt url format w = (inl "TypeError: Invalid URL", w).
Proof.
  intros Hu. unfold generateImageFilename, scope, new_URL, bind, throw.
  rewrite Hu. reflexivity.
Qed.

End FilenameFacts.

(** C9. For the URL https://x.com/, whose path has no last segment, and no
    detected format, generateImageFilename returns the fixed name image,
    not the timestamp-qualified name image_<now>.jpg; for every URL whose
    path has an empty last segment the name is image, or image.<format>
    when a format was detected, whatever the clock reads. *)
Theorem generateImageFilename_empty_segment :
  ContentExtractor.generateImageFilename (Samples.runtime Regex.Optional [])
    "https://x.com/" None [] = (inr "image", [])
  /\ "image" <> "image_" +:+ JsString.show_Z
                   (Date_now (Samples.runtime Regex.Optional []) []) +:+ ".jpg"
  /\ (forall (W Json : Type) (rt : Runtime W Json) (url : string)
             (format : option string) (u : URL.t) (w : W),
        URL_parse rt url = Some u ->
        Stated.last_segment (URL.pathname u) = "" ->
        ContentExtractor.generateImageFilename rt url format w
        = (inr match JsString.or_undefined format with
               | Some fmt => "image." +:+ fmt
               | None => "image"
               end, w)).
Proof.
  split; [reflexivity|]. split; [discriminate|].
  intros W Json rt url format u w Hu Hseg.
  rewrite (generateImageFilename_name rt url format u w Hu), Hseg.
  reflexivity.
Qed.

(* --------------------------------------------------------------------- *)
(** ** Contact information                                                 *)
(* --------------------------------------------------------------------- *)

Section RegexFacts.
Import JsString Regex.

(** A pattern followed by something that never matches never matches. *)
Lemma run_dead_end (r : regex) : forall (k : state -> option state),
  (forall y, k y = None) -> forall x, run r k x = None.
Proof.
  induction r as [ | p | r1 IH1 r2 IH2 | r1 IH1 r2 IH2 | min max r IH | | ];
    intros k Hk x; cbn [run].
  - apply Hk.
  - destruct (rest x) as [|c t]; [reflexivity|]. destruct (p c); [apply Hk | reflexivity].
  - apply IH1. intros y. apply IH2, Hk.
  - rewrite (IH1 k Hk x). apply IH2, Hk.
  - assert (Hopt : forall budget x0,
              (fix optional (budget : nat) (x : state) {struct budget} : option state :=
                 match budget with
                 | 0 => k x
                 | S budget' =>
                     match run r
                             (fun y => if length (rest y) =? length (rest x) then None
                                       else optional budget' y) x
                     with
                     | Some z => Some z
                     | None => k x
                     end
                 end) budget x0 = None).
    { induction budget as [|budget IHb]; intros x0; [apply Hk|].
      rewrite IH; [apply Hk|].
      intros y. destruct (length (rest y) =? length (rest x0)); [reflexivity | apply IHb]. }
    assert (Hmand : forall (budget_of : state -> nat) n x0,
              (fix mandatory (n : nat) (x : state) {struct n} : option state :=
                 match n with
                 | 0 =>
                     (fix optional (budget : nat) (x : state) {struct budget}
                        : option state :=
                        match budget with
                        | 0 => k x
                        | S budget' =>
                            match run r
                                    (fun y => if length (rest y) =? length (rest x)
                                              then None else optional budget' y) x
                            with
                            | Some z => Some z
                            | None => k x
                            end
                        end) (budget_of x) x
                 | S n' => run r (mandatory n') x
                 end) n x0 = None).
    { intros budget_of. induction n as [|n IHn]; intros x0.
      - apply Hopt.
      - apply IH. exact IHn. }
    exact (Hmand (fun x => match max with
                           | Some m => m - min
                           | None => length (rest x)
                           end) min x).
  - destruct (at_boundary x); [apply Hk | reflexivity].
  - destruct (rest x); [apply Hk | reflexivity].
Qed.

Lemma scan_no_match (r : regex) :
  (forall x, exec r x = None) -> forall fuel x, scan fuel r x = [].
Proof.
  intros Hr. induction fuel as [|fuel IH]; intros x; cbn [scan]; [reflexivity|].
  rewrite Hr. unfold advance. destruct (rest x); [reflexivity | apply IH].
Qed.

Lemma run_EndOfInput (k : state -> option state) (x : state) :
  run EndOfInput k x = match rest x with [] => k x | _ :: _ => None end.
Proof. reflexivity. Qed.

Lemma run_Opt (r : regex) (k : state -> option state) (x : state) :
  run (Opt r) k x =
    match run r (fun y => if length (rest y) =? length (rest x) then None else k y) x with
    | Some z => Some z
    | None => k x
    end.
Proof. reflexivity. Qed.

Lemma run_Quant_first (n : nat) (max : option nat) (r : regex)
    (k : state -> option state) (x : state) :
  exists k', run (Quant (S n) max r) k x = run r k' x.
Proof. eexists. reflexivity. Qed.

Lemma run_Class_at_end (p : ascii -> bool) (k : state -> option state) (x : state) :
  rest x = [] -> run (Class p) k x = None.
Proof. intros Hx. cbn [run]. rewrite Hx. reflexivity. Qed.

(** After the end of the input no digit can follow. *)
Lemma digits_after_end (rest_of_pattern : regex) (k : state -> option state) (x : state) :
  run (Seq EndOfInput (Seq (Opt EndOfInput) (Seq (Times 3 (Class is_digit)) rest_of_pattern)))
      k x = None.
Proof.
  change (run EndOfInput
            (run (Seq (Opt EndOfInput) (Seq (Times 3 (Class is_digit)) rest_of_pattern)) k)
            x = None).
  rewrite run_EndOfInput. destruct (rest x) as [|c t] eqn:Ex; [|reflexivity].
  change (run (Opt EndOfInput)
            (run (Seq (Times 3 (Class is_digit)) rest_of_pattern) k) x = None).
  rewrite run_Opt, run_EndOfInput, Ex, Nat.eqb_refl.
  change (run (Times 3 (Class is_digit)) (run rest_of_pattern k) x = None).
  unfold Times. destruct (run_Quant_first 2 (Some 3) (Class is_digit)
                            (run rest_of_pattern k) x) as [k' ->].
  apply run_Class_at_end, Ex.
Qed.

(** The phone pattern of the source matches nowhere, in no text. *)
Lemma phoneRegex_never_matches (r : regex) (text : string) :
  ContentExtractor.phoneRegex Optional = Some r -> match_all r text = [].
Proof.
  intros [= <-]. unfold match_all.
  rewrite scan_no_match; [reflexivity|].
  intros x. unfold exec.
  cbn [Seqs].
  change (run (Opt (Seqs [Opt (Chr "+"); Opt (Chr "1"); Opt ContentExtractor.phoneSeparator]))
            (run (Seq EndOfInput (Seq (Opt EndOfInput) (Seq (Times 3 (Class is_digit))
               (Seq EndOfInput (Seq (Opt EndOfInput) (Seq (Opt ContentExtractor.phoneSeparator)
                 (Seq (Times 3 (Class is_digit)) (Seq (Opt ContentExtractor.phoneSeparator)
                   (Times 4 (Class is_digit)))))))))) Some) x = None).
  apply run_dead_end. intros y. apply digits_after_end.
Qed.

Lemma set_add_NoDup (seen : list string) (x : string) :
  List.NoDup seen -> List.NoDup (set_add seen x).
Proof.
  induction seen as [|y seen IH]; intros Hnd; simpl.
  - constructor; [intros [] | constructor].
  - destruct (String.eqb_spec y x) as [->|Hne]; [exact Hnd|].
    inversion Hnd as [|? ? Hnotin Hnd']; subst. constructor; [|apply IH, Hnd'].
    intros Hin. apply Hnotin. clear -Hin Hne.
    induction seen as [|z seen IH]; simpl in Hin.
    + destruct Hin as [->|[]]. congruence.
    + destruct (String.eqb_spec z x) as [->|Hzx]; [exact Hin|].
      destruct Hin as [->|Hin]; [left; reflexivity | right; apply IH, Hin].
Qed.

(** [[...new Set(xs)]] has no duplicates. *)
Lemma spread_set_NoDup (xs : list string) : List.NoDup (spread_set xs).
Proof.
  unfold spread_set.
  assert (H : forall seen, List.NoDup seen -> List.NoDup (fold_left set_add xs seen)).
  { induction xs as [|x xs IH]; intros seen Hs; simpl; [exact Hs|].
    apply IH, set_add_NoDup, Hs. }
  apply H. constructor.
Qed.

End RegexFacts.

Section ContactFacts.
Import JsString Regex Effects ContentExtractor.
Context {W E Json : Type}.
Variable rt : Runtime W Json.
Variable driver : WebDriver W E.

Lemma extractTextContent_returns : op_returns (extractTextContent driver).
Proof. unfold extractTextContent. auto 10 with js_returns. Qed.

Lemma extractContactInfo_returns : op_returns (extractContactInfo rt driver).
Proof.
  unfold extractContactInfo.
  apply op_returns_scope, returns_bind; [|intros; apply returns_get].
  apply returns_try_catch. intros; apply returns_ret.
Qed.

Lemma preserves_ret_bind {S A B} (I : S -> Prop) (a : A) (f : A -> T W S B) :
  preserves I (f a) -> preserves I (bind (ret a) f).
Proof. intros H s w Hs. exact (H s w Hs). Qed.

Lemma preserves_throw_bind {S A B} (I : S -> Prop) (e : Err) (f : A -> T W S B) :
  preserves I (bind (throw e) f).
Proof. intros s w Hs. exact Hs. Qed.

Lemma extractContactInfo_keeps (w w' : W) (info : ContactInfo.t) :
  extractContactInfo rt driver w = (inr info, w') ->
  Stated.deduplicated_without_phones info.
Proof.
  unfold extractContactInfo.
  apply (scope_get_keeps Stated.deduplicated_without_phones).
  { repeat split; constructor. }
  apply preserves_try_catch; [|intros; apply preserves_ret].
  apply preserves_bind; [apply preserves_await | intros bodyText].
  apply preserves_bind.
  { apply preserves_modify. intros s (Hp & He & Hpn & Ha).
    repeat split; simpl; auto. apply spread_set_NoDup. }
  intros _.
  destruct (phoneRegex (RegExp_quantified_assertion rt)) as [r|] eqn:Er;
    [|apply preserves_throw_bind].
  apply preserves_ret_bind.
  assert (Hnone : match_all r bodyText = []).
  { destruct (RegExp_quantified_assertion rt); [discriminate|].
    apply phoneRegex_never_matches, Er. }
  rewrite Hnone.
  apply preserves_bind.
  { apply preserves_modify. intros s (Hp & He & Hpn & Ha).
    repeat split; simpl; auto. constructor. }
  intros _. apply preserves_modify. intros s (Hp & He & Hpn & Ha).
  repeat split; simpl; auto. apply spread_set_NoDup.
Qed.

End ContactFacts.

(** C6. On the rendered text "Contact us at a@b.com or (212) 555-1234" the
    code returns emails = ["a@b.com"] and an empty phones list, whichever
    way the engine treats the quantified assertions of the phone pattern;
    on every page phones is empty, the pattern asking for digits after the
    end of the input; emails, phones and addresses never hold a
    duplicate. *)
Theorem extractContactInfo_scenario (engine : Regex.quantified_assertion) :
  ContentExtractor.extractContactInfo (Samples.runtime engine [])
    (Samples.session Samples.contactPage) []
  = (inr {| ContactInfo.emails := ["a@b.com"];
            ContactInfo.phones := [];
            ContactInfo.addresses := [] |}, [])
  /\ (forall (W E Json : Type) (rt : Runtime W Json) (driver : WebDriver W E) (w : W),
        exists info w',
          ContentExtractor.extractContactInfo rt driver w = (inr info, w')
          /\ ContactInfo.phones info = []
          /\ List.NoDup (ContactInfo.emails info)
          /\ List.NoDup (ContactInfo.phones info)
          /\ List.NoDup (ContactInfo.addresses info)).
Proof.
  split.
  - destruct engine; vm_compute; reflexivity.
  - intros W E Json rt driver w.
    destruct (extractContactInfo_returns rt driver w) as (info & w' & Hrun).
    exists info, w'. split; [exact Hrun|].
    apply (extractContactInfo_keeps rt driver w w' info Hrun).
Qed.

(* --------------------------------------------------------------------- *)
(** ** Image download                                                      *)
(* --------------------------------------------------------------------- *)

Section DownloadFacts.
Import JsString Effects ContentExtractor.
Context {W Json : Type}.
Variable rt : Runtime W Json.

Lemma downloadImages_returns (images : list ImageData.t) (downloadDir : string) :
  op_returns (downloadImages rt images downloadDir).
Proof. unfold downloadImages. auto 10 with js_returns. Qed.

(** An image whose fetch throws is recorded as not downloaded. *)
Lemma downloadImages_fetch_throws (image : ImageData.t) (downloadDir : string)
    (w w1 w2 : W) (e : Err) :
  fs_mkdir rt downloadDir w = (inr tt, w1) ->
  fetch rt (ImageData.src image) w1 = (inl e, w2) ->
  downloadImages rt [image] downloadDir w = (inr [image_failed image], w2).
Proof.
  intros Hmk Hfetch.
  cbv beta iota zeta delta
    [downloadImages scope try_catch bind await for_of modify get ret when].
  rewrite Hmk. cbv beta iota. rewrite Hfetch. reflexivity.
Qed.

(** An image whose fetch is answered with a status outside 2xx leaves no
    record at all. *)
Lemma downloadImages_non_ok (image : ImageData.t) (downloadDir : string)
    (w w1 w2 : W) (response : Response.t W) :
  fs_mkdir rt downloadDir w = (inr tt, w1) ->
  fetch rt (ImageData.src image) w1 = (inr response, w2) ->
  Response.ok response = false ->
  downloadImages rt [image] downloadDir w = (inr [], w2).
Proof.
  intros Hmk Hfetch Hok.
  cbv beta iota zeta delta
    [downloadImages scope try_catch bind await for_of modify get ret when].
  rewrite Hmk. cbv beta iota. rewrite Hfetch. cbv beta iota. rewrite Hok. reflexivity.
Qed.

(** An image that is fetched, named and written is recorded as
    downloaded, with the byte length of the body and the path written. *)
Lemma downloadImages_success (image : ImageData.t) (downloadDir : string)
    (w w1 w2 w3 w4 w5 : W) (response : Response.t W) (bytes : list ascii)
    (filename : string) :
  fs_mkdir rt downloadDir w = (inr tt, w1) ->
  fetch rt (ImageData.src image) w1 = (inr response, w2) ->
  Response.ok response = true ->
  Response.buffer response w2 = (inr bytes, w3) ->
  generateImageFilename rt (ImageData.src image) (ImageData.format image) w3
    = (inr filename, w4) ->
  fs_writeFile rt (path_join rt downloadDir filename) bytes w4 = (inr tt, w5) ->
  downloadImages rt [image] downloadDir w
  = (inr [image_downloaded image (length bytes) (path_join rt downloadDir filename)], w5).
Proof.
  intros Hmk Hfetch Hok Hbuf Hname Hwrite.
  cbv beta iota zeta delta
    [downloadImages scope try_catch bind await for_of modify get ret when].
  rewrite Hmk. cbv beta iota. rewrite Hfetch. cbv beta iota. rewrite Hok.
  cbv beta iota. rewrite Hbuf. cbv beta iota. rewrite Hname. cbv beta iota.
  rewrite Hwrite. reflexivity.
Qed.

End DownloadFacts.

(** C3. For the one-image list whose image is answered with a 404,
    downloadImages returns the empty list: no record stands for the
    image, where the claim has one with downloaded = false, as the code
    itself records when the fetch throws. *)
Theorem downloadImages_non_ok_dropped :
  ContentExtractor.downloadImages
    (Samples.runtime Regex.Optional
       [("https://x.com/missing.png", inr (false, list_ascii_of_string "Not Found"))])
    [Samples.someImage "https://x.com/missing.png" (Some "png")] "./downloads" []
  = (inr [], [])
  /\ ContentExtractor.downloadImages (Samples.runtime Regex.Optional [])
       [Samples.someImage "https://x.com/missing.png" (Some "png")] "./downloads" []
     = (inr [ContentExtractor.image_failed
                (Samples.someImage "https://x.com/missing.png" (Some "png"))], []).
Proof. split; reflexivity. Qed.

(* --------------------------------------------------------------------- *)
(** ** extractAll: which failures are absorbed                             *)
(* --------------------------------------------------------------------- *)

Section AwaitFacts.
Import Effects.
Context {W : Type}.

Lemma bind_await {S A B} (op : M W A) (f : A -> T W S B) (s : S) (w : W) :
  bind (await op) f s w =
    match op w with
    | (inl e, w') => (inl e, s, w')
    | (inr a, w') => f a s w'
    end.
Proof. unfold bind, await. destruct (op w) as [[e|a] w']; reflexivity. Qed.

Lemma bind_await_returns {S A B} (op : M W A) (f : A -> T W S B) (s : S) (w : W) :
  op_returns op -> exists a w', bind (await op) f s w = f a s w'.
Proof.
  intros Hop. rewrite bind_await. destruct (Hop w) as (a & w' & ->). eauto.
Qed.

End AwaitFacts.

Create HintDb js_extractors.

(** Step over an awaited operation that is known to return. *)
Ltac await_returning :=
  match goal with
  | |- context [Effects.bind (Effects.await ?op) ?f ?s ?w] =>
      let H := fresh "H" in
      let a := fresh "v" in
      let w' := fresh "w" in
      assert (H : Effects.op_returns op) by (solve [auto with js_extractors]);
      rewrite (bind_await op f s w);
      destruct (H w) as (a & w' & ->);
      clear H; cbv beta iota
  end.

Section ExtractAllFacts.
Import JsString Effects ContentExtractor.
Context {W E Json : Type}.
Variable rt : Runtime W Json.
Variable driver : WebDriver W E.
Variable baseUrl : string.

Lemma getMetaContent_returns (name : string) : op_returns (getMetaContent driver name).
Proof. unfold getMetaContent. auto 10 with js_returns. Qed.

Lemma getLinkHref_returns (rel : string) : op_returns (getLinkHref driver rel).
Proof. unfold getLinkHref. auto 10 with js_returns. Qed.

Lemma extractMetadata_returns : op_returns (extractMetadata rt driver).
Proof. unfold extractMetadata. auto 10 with js_returns. Qed.

Lemma extractKeywords_returns : op_returns (extractKeywords driver).
Proof.
  unfold extractKeywords. apply op_returns_scope, returns_bind.
  - auto with js_returns.
  - intros [keywords|]; apply returns_ret.
Qed.

Lemma or_meta_content_returns (a : option string) (name : string) :
  op_returns (or_meta_content driver a name).
Proof.
  unfold or_meta_content. apply op_returns_scope.
  destruct (or_undefined a).
  - apply returns_ret.
  - apply returns_bind; [apply returns_await, getMetaContent_returns|].
    intros; apply returns_ret.
Qed.

Lemma extractHeadings_returns : op_returns (extractHeadings driver).
Proof. unfold extractHeadings. auto 10 with js_returns. Qed.

Lemma extractParagraphs_returns : op_returns (extractParagraphs driver).
Proof. unfold extractParagraphs. auto 10 with js_returns. Qed.

Lemma extractLists_returns : op_returns (extractLists driver).
Proof. unfold extractLists. auto 10 with js_returns. Qed.

Lemma extractTables_returns : op_returns (extractTables driver).
Proof. unfold extractTables. auto 10 with js_returns. Qed.

Lemma extractForms_returns : op_returns (extractForms driver).
Proof. unfold extractForms. auto 10 with js_returns. Qed.

Lemma extractStructuredData_returns : op_returns (extractStructuredData rt driver).
Proof. unfold extractStructuredData. auto 10 with js_returns. Qed.

Lemma extractSocialMedia_returns : op_returns (extractSocialMedia driver).
Proof. unfold extractSocialMedia. auto 10 with js_returns. Qed.

#[local] Hint Resolve getMetaContent_returns getLinkHref_returns extractMetadata_returns
  extractKeywords_returns or_meta_content_returns extractHeadings_returns
  extractParagraphs_returns extractLists_returns extractTables_returns
  extractForms_returns extractStructuredData_returns extractSocialMedia_returns
  extractTextContent_returns extractImages_returns extractLinks_returns
  extractContactInfo_returns : js_extractors.

Lemma extractAll_throws_only_directly (w w' : W) (e : Err) :
  extractAll rt driver baseUrl w = (inl e, w') -> Stated.direct_read_throws driver e w'.
Proof.
  unfold extractAll, scope. rewrite bind_await.
  destruct (getCurrentUrl driver w) as [[e1|url] w1] eqn:Hurl.
  { intros [= <- <-]. exists w. auto. }
  rewrite bind_await.
  destruct (getTitle driver w1) as [[e2|title] w2] eqn:Htitle.
  { intros [= <- <-]. exists w1. auto. }
  await_returning.
  await_returning.
  await_returning.
  await_returning.
  await_returning.
  rewrite bind_await.
  match goal with
  | |- context [executeScript driver DocumentLang ?w7] =>
      destruct (executeScript driver DocumentLang w7) as [[e3|lang] w8] eqn:Hlang;
      [ intros [= <- <-]; exists w7; auto | ]
  end.
  await_returning.
  await_returning.
  await_returning.
  await_returning.
  await_returning.
  await_returning.
  await_returning.
  await_returning.
  await_returning.
  await_returning.
  await_returning.
  unfold ret. discriminate.
Qed.

Lemma extractAll_returns :
  op_returns (getCurrentUrl driver) ->
  op_returns (getTitle driver) ->
  op_returns (executeScript driver DocumentLang) ->
  op_returns (extractAll rt driver baseUrl).
Proof.
  intros Hurl Htitle Hlang w.
  destruct (extractAll rt driver baseUrl w) as [[e|content] w'] eqn:Hrun; [|eauto].
  destruct (extractAll_throws_only_directly w w' e Hrun) as (w0 & [H|[H|H]]).
  - destruct (Hurl w0) as (a & w1 & Ha). congruence.
  - destruct (Htitle w0) as (a & w1 & Ha). congruence.
  - destruct (Hlang w0) as (a & w1 & Ha). congruence.
Qed.

Lemma extractAll_from_extractors (w w' : W) (c : ExtractedContent.t Json) :
  extractAll rt driver baseUrl w = (inr c, w') ->
  Stated.from_extractors rt driver baseUrl c.
Proof.
  unfold extractAll. intros Hrun. apply scope_inr in Hrun as (s1 & Hrun).
  repeat bind_step Hrun.
  apply ret_inr in Hrun. subst c.
  repeat match goal with
         | H : await _ _ _ = (inr _, _, _) |- _ => apply await_inr in H as [H _]
         end.
  unfold Stated.from_extractors, Stated.returned. cbn.
  repeat split; eexists _, _; eassumption.
Qed.

Lemma scope_lookup_throws {S X} (init : S) (find : M W X) (f : X -> T W S unit)
    (w w1 : W) (e : Err) :
  find w = (inl e, w1) ->
  scope init (bind (try_catch (bind (await find) f) (fun _ => ret tt)) (fun _ => get)) w
  = (inr init, w1).
Proof.
  intros Hfind. unfold scope, bind, try_catch, await. rewrite Hfind. reflexivity.
Qed.

Lemma extractors_empty_when_first_lookup_throws :
  Stated.empty_when_first_lookup_throws rt driver baseUrl.
Proof.
  unfold Stated.empty_when_first_lookup_throws, Stated.empty_when_throws.
  repeat split; intros w e w1 Hfind;
    try (apply (scope_lookup_throws _ _ _ w w1 e Hfind)).
  - unfold extractTextContent, scope, try_catch, bind, await. rewrite Hfind. reflexivity.
  - unfold extractHeadings, scope. cbn [seq for_of].
    unfold bind at 1, try_catch at 1, bind at 1, bind at 1, await at 1.
    change (tagName ("h" +:+ show_Z (Z.of_nat 1))) with (tagName "h1").
    rewrite Hfind. reflexivity.
Qed.

End ExtractAllFacts.

(** C2, as amended. Every field extractor of extractAll returns, whatever
    the page and the session do: a failure inside one of them is absorbed
    there. extractAll itself throws only when one of the three reads it
    makes outside any try throws (the current URL, the title, or the
    script that reads the document language), and then with that error;
    when these three reads return, extractAll returns the aggregate.
    Every field of a returned aggregate holds what its own extractor
    returned, so that a failure in one extractor reaches no other field.
    The failed field is the empty value when what threw is the first
    lookup of elements of its extractor (the text, the headings, the
    paragraphs, the lists, the tables, the forms, the images and the
    links begin with one). *)
Theorem extractAll_field_isolation {W E Json : Type}
    (rt : Runtime W Json) (driver : WebDriver W E) (baseUrl : string) :
  (Effects.op_returns (ContentExtractor.extractMetadata rt driver)
   /\ Effects.op_returns (ContentExtractor.extractKeywords driver)
   /\ Effects.op_returns (ContentExtractor.extractTextContent driver)
   /\ Effects.op_returns (ContentExtractor.extractHeadings driver)
   /\ Effects.op_returns (ContentExtractor.extractParagraphs driver)
   /\ Effects.op_returns (ContentExtractor.extractLists driver)
   /\ Effects.op_returns (ContentExtractor.extractTables driver)
   /\ Effects.op_returns (ContentExtractor.extractForms driver)
   /\ Effects.op_returns (ContentExtractor.extractImages rt driver baseUrl)
   /\ Effects.op_returns (ContentExtractor.extractLinks rt driver baseUrl)
   /\ Effects.op_returns (ContentExtractor.extractStructuredData rt driver)
   /\ Effects.op_returns (ContentExtractor.extractSocialMedia driver)
   /\ Effects.op_returns (ContentExtractor.extractContactInfo rt driver))
  /\ (forall w e w',
        ContentExtractor.extractAll rt driver baseUrl w = (inl e, w') ->
        Stated.direct_read_throws driver e w')
  /\ (Effects.op_returns (getCurrentUrl driver) ->
      Effects.op_returns (getTitle driver) ->
      Effects.op_returns (executeScript driver DocumentLang) ->
      Effects.op_returns (ContentExtractor.extractAll rt driver baseUrl))
  /\ (forall w c w',
        ContentExtractor.extractAll rt driver baseUrl w = (inr c, w') ->
        Stated.from_extractors rt driver baseUrl c)
  /\ Stated.empty_when_first_lookup_throws rt driver baseUrl.
Proof.
  split; [|split; [|split; [|split]]].
  - repeat split.
    + apply extractMetadata_returns.
    + apply extractKeywords_returns.
    + apply extractTextContent_returns.
    + apply extractHeadings_returns.
    + apply extractParagraphs_returns.
    + apply extractLists_returns.
    + apply extractTables_returns.
    + apply extractForms_returns.
    + apply extractImages_returns.
    + apply extractLinks_returns.
    + apply extractStructuredData_returns.
    + apply extractSocialMedia_returns.
    + apply extractContactInfo_returns.
  - intros w e w'. apply extractAll_throws_only_directly.
  - apply extractAll_returns.
  - intros w c w'. apply extractAll_from_extractors.
  - apply extractors_empty_when_first_lookup_throws.
Qed.

(** C2, on the gallery page: its three direct reads return, and so does
    extractAll; the images of the aggregate are the two records that
    extractImages returns. *)
Lemma extractAll_field_isolation_witness :
  Effects.op_returns
    (ContentExtractor.extractAll (Samples.runtime Regex.Optional [])
       (Samples.session Samples.galleryPage) "https://x.com/")
  /\ exists c,
       ContentExtractor.extractAll (Samples.runtime Regex.Optional [])
         (Samples.session Samples.galleryPage) "https://x.com/" [] = (inr c, [])
       /\ map ImageData.src (ExtractedContent.images c)
          = ["https://x.com/img/Logo.PNG"; "https://cdn.y.com/a/banner.jpeg?v=2"]
       /\ Stated.from_extractors (Samples.runtime Regex.Optional [])
            (Samples.session Samples.galleryPage) "https://x.com/" c.
Proof.
  split.
  - apply (extractAll_field_isolation (Samples.runtime Regex.Optional [])
             (Samples.session Samples.galleryPage) "https://x.com/");
      intros w; eexists _, _; reflexivity.
  - eexists. split; [reflexivity|]. split; [reflexivity|].
    apply (extractAll_field_isolation (Samples.runtime Regex.Optional [])
             (Samples.session Samples.galleryPage) "https://x.com/") with (w := [])
                                                                         (w' := []).
    reflexivity.
Defined.

(** C2 as first stated fails on the code, in two ways. On a page whose
    title cannot be read, extractAll throws the error of the read and
    returns no aggregate. And a failure inside a field extractor need not
    leave its field empty or absent: on a page with three images of which
    the second has left the document when it is read, reading it throws
    inside extractImages, and the images of the aggregate are the first
    record alone, neither empty nor complete. *)
Lemma extractAll_throws_counterexample :
  ContentExtractor.extractAll (Samples.runtime Regex.Optional [])
    (Samples.session Samples.brokenTitlePage) "https://x.com/" []
  = (inl "NoSuchWindowError: target window already closed", [])
  /\ findElements (Samples.session_losing 1 Samples.mixedPage) (tagName "img") []
     = (inr [ Samples.Node [("src", "https://x.com/a.png")] "";
              Samples.Gone;
              Samples.Node [("src", "https://x.com/c.png")] "" ], [])
  /\ getAttribute (Samples.session_losing 1 Samples.mixedPage) Samples.Gone "src" []
     = (inl "StaleElementReferenceError: stale element not found", [])
  /\ exists c,
       ContentExtractor.extractAll (Samples.runtime Regex.Optional [])
         (Samples.session_losing 1 Samples.mixedPage) "https://x.com/" [] = (inr c, [])
       /\ ExtractedContent.images c = [Samples.someImage "https://x.com/a.png" (Some "png")].
Proof.
  split; [reflexivity|]. split; [reflexivity|]. split; [reflexivity|].
  eexists. split; reflexivity.
Qed.

(* --------------------------------------------------------------------- *)
(** ** The scrape request: the session is quit once                        *)
(* --------------------------------------------------------------------- *)

Section NeutralFacts.
Import Effects.
Context {W S : Type}.

(** A computation that assigns nothing: its variables end as they
    began. *)
Lemma neutral_outcome {A} (c : T W S A) (s : S) (w : W) :
  preserves (fun x => x = s) c ->
  (exists e w', c s w = (inl e, s, w')) \/ (exists a w', c s w = (inr a, s, w')).
Proof.
  intros Hc. specialize (Hc s w eq_refl). unfold final_state in Hc.
  destruct (c s w) as [[[e|a] s'] w']; simpl in Hc; subst s'; eauto.
Qed.

Lemma bind_get {A} (f : S -> T W S A) (s : S) (w : W) :
  bind get f s w = f s s w.
Proof. reflexivity. Qed.

Lemma bind_modify {A} (g : S -> S) (f : unit -> T W S A) (s : S) (w : W) :
  bind (modify g) f s w = f tt (g s) w.
Proof. reflexivity. Qed.

End NeutralFacts.

(** One step of a proof that a body assigns nothing, with the case
    distinctions of the body. *)
Ltac neutral_step :=
  first
    [ keeps_step
    | match goal with
      | |- Effects.preserves _ (if ?b then _ else _) => destruct b
      | |- Effects.preserves _ (match ?x with _ => _ end) => destruct x
      | |- Effects.preserves _ (SeleniumScraper.method_call _) =>
          unfold SeleniumScraper.method_call
      end ].

Section ScraperFacts.
Import JsString Effects SeleniumScraper.
Context {W E Json : Type}.
Variable rt : Runtime W Json.
Variable driver : WebDriver W E.
Variable config : ScrapingConfig.t.

Lemma simulateHumanBehavior_neutral (s0 : state) :
  preserves (fun x => x = s0) (simulateHumanBehavior rt driver).
Proof. unfold simulateHumanBehavior. repeat neutral_step. Qed.

Lemma firstCaptcha_neutral (s0 : state) (selectors : list string) :
  preserves (fun x => x = s0) (firstCaptcha driver selectors).
Proof.
  induction selectors as [|selector selectors IH]; simpl.
  - repeat neutral_step.
  - repeat neutral_step. exact IH.
Qed.

Lemma detectCaptcha_neutral (s0 : state) :
  preserves (fun x => x = s0) (detectCaptcha driver).
Proof.
  unfold detectCaptcha. repeat neutral_step; apply firstCaptcha_neutral.
Qed.

Lemma scrollToBottom_neutral (s0 : state) :
  preserves (fun x => x = s0) (scrollToBottom driver).
Proof. unfold scrollToBottom. repeat neutral_step. Qed.

(** [initDriver] either fails before the session exists, leaving the
    state as it was, or records the session; it returns only with the
    session recorded. *)
Lemma initDriver_outcome (s : state) (w : W) :
  match initDriver rt driver config s w with
  | (inl _, s', _) => s' = s \/ s' = session_built s
  | (inr _, s', _) => s' = session_built s
  end.
Proof.
  unfold initDriver. rewrite bind_await.
  destruct (getRandomViewport rt w) as [[e|viewport] w1]; [left; reflexivity|].
  match goal with
  | |- context [bind ?c ?f s w1] =>
      assert (Hc : preserves (fun x => x = s) c) by (repeat neutral_step);
      destruct (neutral_outcome c s w1 Hc) as [(e & w2 & Hr)|(stealth & w2 & Hr)];
      unfold bind at 1; rewrite Hr; [left; reflexivity|]; clear Hc Hr
  end.
  rewrite bind_await.
  destruct (Builder_build rt _ w2) as [[e|[]] w3]; [left; reflexivity|].
  rewrite bind_modify.
  match goal with
  | |- match ?c (session_built s) w3 with _ => _ end =>
      assert (Hc : preserves (fun x => x = session_built s) c)
        by (repeat neutral_step; apply simulateHumanBehavior_neutral);
      destruct (neutral_outcome c (session_built s) w3 Hc)
        as [(e & w4 & ->)|(a & w4 & ->)]
  end.
  - right; reflexivity.
  - reflexivity.
Qed.

(** [scrapeUrl] on a scraper without a session: like [initDriver], and
    nothing after the session exists assigns a field. *)
Lemma scrapeUrl_outcome (url : string) (s : state) (w : W) :
  this_driver s = false ->
  match scrapeUrl rt driver config url s w with
  | (inl _, s', _) => s' = s \/ s' = session_built s
  | (inr _, s', _) => s' = session_built s
  end.
Proof.
  intros Hs. unfold scrapeUrl. rewrite bind_get, Hs. cbn [negb when].
  unfold bind at 1. pose proof (initDriver_outcome s w) as Hinit.
  destruct (initDriver rt driver config s w) as [[[e|[]] s'] w1]; [exact Hinit|].
  subst s'. rewrite bind_get. cbn [session_built record set_driver this_driver negb].
  match goal with
  | |- match ?c ?s1 w1 with _ => _ end =>
      assert (Hc : preserves (fun x => x = s1) c);
      [ | destruct (neutral_outcome c s1 w1 Hc) as [(e & w2 & ->)|(a & w2 & ->)] ]
  end.
  - repeat neutral_step;
      first [ apply detectCaptcha_neutral | apply simulateHumanBehavior_neutral
            | apply scrollToBottom_neutral ].
  - right; reflexivity.
  - reflexivity.
Qed.

(** [close]: nothing without a session; with one, [quit] is called, and
    the field is cleared when [quit] returns. *)
Lemma close_without_session (s : state) (w : W) :
  this_driver s = false -> close driver s w = (inr tt, s, w).
Proof. intros Hs. unfold close. rewrite bind_get, Hs. reflexivity. Qed.

Lemma close_with_session (s : state) (w : W) :
  this_driver s = true ->
  close driver s w =
    match quit driver w with
    | (inl e, w') => (inl e, record QuitCalled s, w')
    | (inr _, w') => (inr tt, set_driver false (record QuitCalled s), w')
    end.
Proof.
  intros Hs. unfold close. rewrite bind_get, Hs. cbn [when].
  rewrite bind_modify, bind_await.
  destruct (quit driver w) as [[e|[]] w']; reflexivity.
Qed.

End ScraperFacts.

(** The route, path by path: what it answers, what it records and the
    world it leaves, from what [request.json()], [scrapeUrl] and [quit]
    do. *)
Lemma POST_outcome {W E Json : Type}
    (rt : Runtime W Json) (driver : WebDriver W E)
    (request_json : Effects.M W (option string * ScrapingConfig.t)) (w : W) :
  match request_json w with
  | (inl e, w1) =>
      Route.POST rt driver request_json w
      = (inr (Route.failure e, [SeleniumScraper.Failed e]), w1)
  | (inr (url, config), w1) =>
      match JsString.or_undefined url with
      | None =>
          Route.POST rt driver request_json w
          = (inr ({| Route.status := 400;
                     Route.json := Route.ErrorBody "URL is required" None |}, []), w1)
      | Some url' =>
          match URL_parse rt url' with
          | None =>
              Route.POST rt driver request_json w
              = (inr ({| Route.status := 400;
                         Route.json := Route.ErrorBody "Invalid URL format" None |}, []),
                 w1)
          | Some _ =>
              match SeleniumScraper.scrapeUrl rt driver config url' Route.fresh w1 with
              | (inl e, s2, w2) =>
                  (SeleniumScraper.this_driver s2 = false
                   /\ Route.POST rt driver request_json w
                      = (inr (Route.failure e, [SeleniumScraper.Failed e]), w2))
                  \/ (SeleniumScraper.this_driver s2 = true
                      /\ match quit driver w2 with
                         | (inl e', w3) =>
                             Route.POST rt driver request_json w
                             = (inr (Route.failure e',
                                     [SeleniumScraper.Built; SeleniumScraper.QuitCalled;
                                      SeleniumScraper.Failed e']), w3)
                         | (inr _, w3) =>
                             Route.POST rt driver request_json w
                             = (inr (Route.failure e,
                                     [SeleniumScraper.Built; SeleniumScraper.QuitCalled;
                                      SeleniumScraper.Failed e]), w3)
                         end)
              | (inr results, s2, w2) =>
                  SeleniumScraper.this_driver s2 = true
                  /\ match quit driver w2 with
                     | (inl e', w3) =>
                         Route.POST rt driver request_json w
                         = (inr (Route.failure e',
                                 [SeleniumScraper.Built; SeleniumScraper.QuitCalled;
                                  SeleniumScraper.Failed e']), w3)
                     | (inr _, w3) =>
                         Route.POST rt driver request_json w
                         = (inr ({| Route.status := 200;
                                    Route.json := Route.Results results |},
                                 [SeleniumScraper.Built; SeleniumScraper.QuitCalled]), w3)
                     end
              end
          end
      end
  end.
Proof.
  remember (Route.POST rt driver request_json w) as answer eqn:Hpost.
  unfold Route.POST, Effects.scope in Hpost. unfold Effects.bind at 1 in Hpost.
  unfold Effects.try_catch at 1 in Hpost. rewrite bind_await in Hpost.
  destruct (request_json w) as [[e|[url config]] w1]; [exact Hpost|].
  cbv beta iota in Hpost.
  destruct (JsString.or_undefined url) as [url'|]; [|exact Hpost].
  destruct (URL_parse rt url') as [parsed|]; [|exact Hpost].
  unfold Effects.try_finally, Effects.bind at 1 in Hpost.
  change {| SeleniumScraper.this_driver := false; SeleniumScraper.trace := [] |}
    with Route.fresh in Hpost.
  pose proof (scrapeUrl_outcome rt driver config url' Route.fresh w1 eq_refl) as Hscrape.
  destruct (SeleniumScraper.scrapeUrl rt driver config url' Route.fresh w1)
    as [[[e|results] s'] w2].
  - destruct Hscrape as [->| ->].
    + left. split; [reflexivity|].
      rewrite close_without_session in Hpost by reflexivity. exact Hpost.
    + right. split; [reflexivity|].
      rewrite close_with_session in Hpost by reflexivity.
      destruct (quit driver w2) as [[e'|[]] w3]; exact Hpost.
  - subst s'. split; [reflexivity|]. unfold Effects.ret at 1 in Hpost.
    rewrite close_with_session in Hpost by reflexivity.
    destruct (quit driver w2) as [[e'|[]] w3]; exact Hpost.
Qed.

(** C7. Whatever the request, the platform and the session do, the POST
    route answers, and the browser session fares in one of four ways: the
    request is refused before any session exists (status 400), or it
    fails before a session exists (status 500), or a session is built and
    quit is called on it exactly once, after which the route answers 200
    or, when navigation, extraction or anything else after the build
    threw, its catch receives the error and answers 500. The call to quit
    always precedes the error reaching the catch.

    The call is the call of the session: path by path, when scrapeUrl
    ends without a session the route leaves the world as scrapeUrl left
    it, and when scrapeUrl ends with a session, having returned or
    thrown, the route runs quit of the session once, from the world
    scrapeUrl left, and leaves the world as quit left it; the error of a
    quit that throws is the one the catch receives. scrapeUrl itself does
    not call quit: it is the same whatever quit does. *)
Theorem POST_quits_session_once {W E Json : Type}
    (rt : Runtime W Json) (driver : WebDriver W E)
    (request_json : Effects.M W (option string * ScrapingConfig.t)) (w : W) :
  (exists response events w',
     Route.POST rt driver request_json w = (inr (response, events), w')
     /\ ((events = [] /\ Route.status response = 400)
         \/ (exists e, events = [SeleniumScraper.Failed e]
                       /\ Route.status response = 500)
         \/ (events = [SeleniumScraper.Built; SeleniumScraper.QuitCalled]
             /\ Route.status response = 200)
         \/ (exists e, events = [SeleniumScraper.Built; SeleniumScraper.QuitCalled;
                                 SeleniumScraper.Failed e]
                       /\ Route.status response = 500)))
  /\ match request_json w with
     | (inl e, w1) =>
         Route.POST rt driver request_json w
         = (inr (Route.failure e, [SeleniumScraper.Failed e]), w1)
     | (inr (url, config), w1) =>
         match JsString.or_undefined url with
         | None => snd (Route.POST rt driver request_json w) = w1
         | Some url' =>
             match URL_parse rt url' with
             | None => snd (Route.POST rt driver request_json w) = w1
             | Some _ =>
                 match SeleniumScraper.scrapeUrl rt driver config url' Route.fresh w1 with
                 | (inl e, s2, w2) =>
                     (SeleniumScraper.this_driver s2 = false
                      /\ Route.POST rt driver request_json w
                         = (inr (Route.failure e, [SeleniumScraper.Failed e]), w2))
                     \/ (SeleniumScraper.this_driver s2 = true
                         /\ match quit driver w2 with
                            | (inl e', w3) =>
                                Route.POST rt driver request_json w
                                = (inr (Route.failure e',
                                        [SeleniumScraper.Built;
                                         SeleniumScraper.QuitCalled;
                                         SeleniumScraper.Failed e']), w3)
                            | (inr _, w3) =>
                                Route.POST rt driver request_json w
                                = (inr (Route.failure e,
                                        [SeleniumScraper.Built;
                                         SeleniumScraper.QuitCalled;
                                         SeleniumScraper.Failed e]), w3)
                            end)
                 | (inr results, s2, w2) =>
                     SeleniumScraper.this_driver s2 = true
                     /\ match quit driver w2 with
                        | (inl e', w3) =>
                            Route.POST rt driver request_json w
                            = (inr (Route.failure e',
                                    [SeleniumScraper.Built;
                                     SeleniumScraper.QuitCalled;
                                     SeleniumScraper.Failed e']), w3)
                        | (inr _, w3) =>
                            Route.POST rt driver request_json w
                            = (inr ({| Route.status := 200;
                                       Route.json := Route.Results results |},
                                    [SeleniumScraper.Built;
                                     SeleniumScraper.QuitCalled]), w3)
                        end
                 end
             end
         end
     end
  /\ (forall (q : Effects.M W unit) (config : ScrapingConfig.t) (url : string),
        SeleniumScraper.scrapeUrl rt (with_quit q driver) config url
        = SeleniumScraper.scrapeUrl rt driver config url).
Proof.
  pose proof (POST_outcome rt driver request_json w) as Hpost.
  split; [|split].
  - destruct (request_json w) as [[e|[url config]] w1].
    { rewrite Hpost. eexists _, _, _. split; [reflexivity|]. right; left. eauto. }
    destruct (JsString.or_undefined url) as [url'|].
    2:{ rewrite Hpost. eexists _, _, _. split; [reflexivity|]. left. auto. }
    destruct (URL_parse rt url') as [parsed|].
    2:{ rewrite Hpost. eexists _, _, _. split; [reflexivity|]. left. auto. }
    destruct (SeleniumScraper.scrapeUrl rt driver config url' Route.fresh w1)
      as [[[e|results] s2] w2].
    + destruct Hpost as [[_ ->]|[_ Hpost]].
      * eexists _, _, _. split; [reflexivity|]. right; left. eauto.
      * destruct (quit driver w2) as [[e'|[]] w3]; rewrite Hpost;
          eexists _, _, _; (split; [reflexivity|]); right; right; right; eauto.
    + destruct Hpost as [_ Hpost].
      destruct (quit driver w2) as [[e'|[]] w3]; rewrite Hpost;
        eexists _, _, _; (split; [reflexivity|]).
      * right; right; right; eauto.
      * right; right; left; auto.
  - destruct (request_json w) as [[e|[url config]] w1]; [exact Hpost|].
    destruct (JsString.or_undefined url) as [url'|]; [|rewrite Hpost; reflexivity].
    destruct (URL_parse rt url') as [parsed|]; [|rewrite Hpost; reflexivity].
    exact Hpost.
  - intros q config url. reflexivity.
Qed.

(** On the gallery page, with a session whose quit leaves a file behind:
    the route answers 200 once the session is quit, and the world holds
    the file of the one call to quit, after the image the scrape
    downloaded. *)
Example POST_gallery_quit :
  exists content,
    Route.POST
      (Samples.runtime Regex.Optional
         [("https://x.com/img/Logo.PNG", inr (true, list_ascii_of_string "PNG"))])
      (with_quit (fun w => (inr tt, w ++ [("quit.log", [])]))
         (Samples.session Samples.galleryPage))
      (fun w => (inr (Some "https://x.com/", Samples.plainConfig true), w)) []
    = (inr ({| Route.status := 200; Route.json := Route.Results content |},
            [SeleniumScraper.Built; SeleniumScraper.QuitCalled]),
       [("downloads/Logo.PNG", list_ascii_of_string "PNG"); ("quit.log", [])]).
Proof. eexists. vm_compute. reflexivity. Qed.

(** With the anti-bot measures asked for, on a platform whose options
    have no method setExperimentalOption: initDriver throws before the
    session is built, the route answers 500, and quit is not called. *)
Example POST_stealth_fails_before_session :
  Route.POST (Samples.runtime Regex.Optional [])
    (with_quit (fun w => (inr tt, w ++ [("quit.log", [])]))
       (Samples.session Samples.galleryPage))
    (fun w => (inr (Some "https://x.com/", Samples.someConfig true), w)) []
  = (inr (Route.failure "TypeError: options.setExperimentalOption is not a function",
          [SeleniumScraper.Failed
             "TypeError: options.setExperimentalOption is not a function"]),
     []).
Proof. vm_compute. reflexivity. Qed.

(* --------------------------------------------------------------------- *)
(** ** The statements at sample inputs                                     *)
(* --------------------------------------------------------------------- *)

(** C5, for three proxies and seven calls from a fresh manager. *)
Lemma getNextProxy_round_robin_witness :
  fst (ProxyManager.callNext 7
         (ProxyManager.new [Samples.proxyA; Samples.proxyB; Samples.proxyC]))
  = [ ProxyManager.Proxy Samples.proxyA; ProxyManager.Proxy Samples.proxyB;
      ProxyManager.Proxy Samples.proxyC; ProxyManager.Proxy Samples.proxyA;
      ProxyManager.Proxy Samples.proxyB; ProxyManager.Proxy Samples.proxyC;
      ProxyManager.Proxy Samples.proxyA ]
  /\ (ProxyManager.occurrences Samples.proxyB
        (fst (ProxyManager.callNext 7
                (ProxyManager.new [Samples.proxyA; Samples.proxyB; Samples.proxyC])))
      = ProxyManager.floor_div 7 3
      \/ ProxyManager.occurrences Samples.proxyB
           (fst (ProxyManager.callNext 7
                   (ProxyManager.new [Samples.proxyA; Samples.proxyB; Samples.proxyC])))
         = ProxyManager.ceil_div 7 3).
Proof.
  destruct (getNextProxy_round_robin
              (ProxyManager.new [Samples.proxyA; Samples.proxyB; Samples.proxyC]) 7)
    as (Horder & _ & Hcount).
  - discriminate.
  - simpl. lia.
  - split.
    + rewrite Horder. reflexivity.
    + apply Hcount.
      * repeat constructor; simpl; intuition discriminate.
      * simpl. auto.
Defined.

(** C4, for a limit of two requests per second and five calls of one
    caller within 1.2 seconds. *)
Lemma checkRateLimit_rolling_window_witness :
  map snd
    (RateLimiter.serve {| RateLimiter.maxRequests := 2; RateLimiter.timeWindow := 1000 |}
       [("ip", 0); ("ip", 100); ("ip", 200); ("ip", 1000); ("ip", 1100)]%Z ∅)
  = [true; true; false; true; true]
  /\ (Z.of_nat
        (RateLimiter.in_window 100 1000
           (RateLimiter.allowed_times "ip"
              (RateLimiter.serve
                 {| RateLimiter.maxRequests := 2; RateLimiter.timeWindow := 1000 |}
                 [("ip", 0); ("ip", 100); ("ip", 200); ("ip", 1000); ("ip", 1100)]%Z ∅)))
      ≤ 2)%Z.
Proof.
  split.
  - vm_compute. reflexivity.
  - apply (checkRateLimit_rolling_window
             {| RateLimiter.maxRequests := 2; RateLimiter.timeWindow := 1000 |}
             [("ip", 0); ("ip", 100); ("ip", 200); ("ip", 1000); ("ip", 1100)]%Z
             "ip" 100).
    + simpl. lia.
    + unfold RateLimiter.clock_monotone. simpl.
      repeat constructor; lia.
Defined.

(** C1, on the sample platform: the link to the paper is a file, through
    the theorem. *)
Lemma getLinkType_classification_witness :
  ContentExtractor.getLinkType (Samples.runtime Regex.Optional [])
    "https://y.com/z.pdf" "https://x.com/" = LinkData.file.
Proof.
  destruct (getLinkType_classification (Samples.runtime Regex.Optional [])
              (Samples.session Samples.galleryPage) "https://y.com/z.pdf"
              "https://x.com/" [])
    as (_ & _ & _ & _ & _ & _ & Hfile).
  eapply Hfile; reflexivity.
Defined.

(* ===================================================================== *)
(** * Part III. Further properties of the code                             *)
(* ===================================================================== *)

(* --------------------------------------------------------------------- *)
(** ** Rounding in doubles                                                 *)
(* --------------------------------------------------------------------- *)

(** The powers of two of the format, as numerals for [lra]. *)
Ltac literal_powers :=
  let v53 := eval vm_compute in (2 ^ 53)%positive in
  let v52 := eval vm_compute in (2 ^ 52)%positive in
  change (2 ^ 53)%positive with v53 in *;
  change (2 ^ 52)%positive with v52 in *.

Section DoubleFacts.
Import Double.
Local Open Scope Q_scope.

Lemma pow2_pos (e : Z) : 0 < pow2 e.
Proof. destruct e; reflexivity. Qed.

Lemma pow2_le_frac (e a : Z) (b : positive) :
  (0 <= e -> 2 ^ e * Zpos b <= a)%Z ->
  (e < 0 -> Zpos b <= a * 2 ^ (- e))%Z ->
  pow2 e <= a # b.
Proof.
  intros Hpos Hneg. unfold Qle. destruct e as [|p|p]; simpl Qnum; simpl Qden.
  - specialize (Hpos ltac:(lia)). simpl in Hpos. lia.
  - specialize (Hpos ltac:(lia)). rewrite Pos2Z.inj_pow. lia.
  - specialize (Hneg ltac:(lia)). rewrite Pos2Z.inj_pow.
    change (- Z.neg p)%Z with (Z.pos p) in Hneg. lia.
Qed.

Lemma exponent_le (x : Q) : 0 < x -> pow2 (exponent x) <= x.
Proof.
  intros Hx. unfold exponent.
  destruct (Qle_bool _ x) eqn:Hb; [apply Qle_bool_iff, Hb|].
  destruct x as [a b]. simpl Qnum. simpl Qden.
  assert (Ha : (0 < a)%Z) by (unfold Qlt in Hx; simpl in Hx; lia).
  pose proof (Z.log2_spec a Ha) as [Ha1 Ha2].
  pose proof (Z.log2_spec (Zpos b) ltac:(lia)) as [Hb1 Hb2].
  pose proof (Z.log2_nonneg a) as Hla. pose proof (Z.log2_nonneg (Zpos b)) as Hlb.
  set (la := Z.log2 a) in *. set (lb := Z.log2 (Zpos b)) in *.
  apply pow2_le_frac.
  - intros He.
    assert (H : (2 ^ (la - lb - 1) * 2 ^ Z.succ lb = 2 ^ la)%Z).
    { rewrite <- Z.pow_add_r by lia. f_equal. lia. }
    assert (0 < 2 ^ (la - lb - 1))%Z by (apply Z.pow_pos_nonneg; lia).
    nia.
  - intros He.
    assert (H : (2 ^ la * 2 ^ (- (la - lb - 1)) = 2 ^ Z.succ lb)%Z).
    { rewrite <- Z.pow_add_r by lia. f_equal. lia. }
    assert (0 < 2 ^ (- (la - lb - 1)))%Z by (apply Z.pow_pos_nonneg; lia).
    nia.
Qed.

Lemma nearest_even_bounds (y : Q) :
  inject_Z (nearest_even y) <= y + (1 # 2)
  /\ y - (1 # 2) <= inject_Z (nearest_even y).
Proof.
  unfold nearest_even.
  pose proof (Qfloor_le y) as Hlo. pose proof (Qlt_floor y) as Hhi.
  rewrite inject_Z_plus in Hhi. change (inject_Z 1) with 1 in Hhi.
  destruct (y - inject_Z (Qfloor y) ?= 1 # 2) eqn:Hc.
  - apply Qeq_alt in Hc.
    destruct (Z.even (Qfloor y));
      [|rewrite inject_Z_plus; change (inject_Z 1) with 1]; split; lra.
  - apply Qlt_alt in Hc. split; lra.
  - apply Qgt_alt in Hc. rewrite inject_Z_plus. change (inject_Z 1) with 1.
    split; lra.
Qed.

Lemma nearest_even_Z (y : Q) (k : Z) : y == inject_Z k -> nearest_even y = k.
Proof.
  intros Hy. unfold nearest_even.
  assert (Hf : Qfloor y = k) by (rewrite (Qfloor_comp _ _ Hy); apply Qfloor_Z).
  rewrite Hf.
  assert (Hc : (y - inject_Z k ?= 1 # 2) = Lt).
  { apply Qlt_alt. rewrite Hy. unfold Qminus. rewrite Qplus_opp_r. reflexivity. }
  rewrite Hc. reflexivity.
Qed.

Lemma spacing_pos (x : Q) : 0 < spacing x.
Proof.
  unfold spacing. apply Qmult_lt_0_compat; [apply pow2_pos | reflexivity].
Qed.

Lemma round_pos_le (x : Q) : round_pos x <= x + spacing x * (1 # 2).
Proof.
  unfold round_pos. rewrite Qred_correct. pose proof (spacing_pos x) as Hs.
  destruct (nearest_even_bounds (x / spacing x)) as [Hup _].
  set (s := spacing x) in *.
  assert (H : inject_Z (nearest_even (x / s)) * s <= (x / s + (1 # 2)) * s).
  { apply Qmult_le_compat_r; [exact Hup | lra]. }
  assert (Heq : (x / s + (1 # 2)) * s == x + s * (1 # 2)) by (field; lra).
  lra.
Qed.

Lemma round_pos_nonneg (x : Q) : 0 <= x -> 0 <= round_pos x.
Proof.
  intros Hx. unfold round_pos. rewrite Qred_correct.
  pose proof (spacing_pos x) as Hs.
  apply Qmult_le_0_compat; [|lra].
  destruct (nearest_even_bounds (x / spacing x)) as [_ Hlo].
  assert (Hq : 0 <= x / spacing x).
  { apply Qle_shift_div_l; [exact Hs | lra]. }
  assert (Hn : - (1 # 2) <= inject_Z (nearest_even (x / spacing x))) by lra.
  change 0 with (inject_Z 0). rewrite <- Zle_Qle.
  destruct (Z_le_gt_dec 0 (nearest_even (x / spacing x))) as [H|H]; [exact H|].
  exfalso.
  assert (inject_Z (nearest_even (x / spacing x)) <= inject_Z (-1))
    by (rewrite <- Zle_Qle; lia).
  assert (inject_Z (-1) == -1) by reflexivity. lra.
Qed.

Lemma spacing_cases (x : Q) :
  0 < x ->
  spacing x <= x * (1 # 2 ^ 52) \/ spacing x == pow2 (-1022) * (1 # 2 ^ 52).
Proof.
  intros Hx. unfold spacing.
  destruct (Z.max_spec (exponent x) (-1022)) as [[_ ->]|[_ ->]].
  - right. reflexivity.
  - left. apply Qmult_le_compat_r; [apply exponent_le, Hx | discriminate].
Qed.

Lemma representable_below_one (r : Q) :
  representable r -> r < 1 -> r <= 1 - (1 # 2 ^ 53).
Proof.
  intros (m & e & Hr & Hm & He) Hlt. rewrite Hr in *. clear Hr r.
  destruct e as [|p|p].
  - assert (H : inject_Z m * pow2 0 == inject_Z m) by (simpl; ring).
    rewrite H in *. 
    assert (m <= 0)%Z.
    { destruct (Z_le_gt_dec m 0); [assumption|]. exfalso.
      assert (inject_Z 1 <= inject_Z m) by (rewrite <- Zle_Qle; lia).
      assert (inject_Z 1 == 1) by reflexivity. lra. }
    assert (inject_Z m <= inject_Z 0) by (rewrite <- Zle_Qle; lia).
    assert (inject_Z 0 == 0) by reflexivity.
    assert (0 <= 1 - (1 # 2 ^ 53)) by discriminate. lra.
  - assert (m <= 0)%Z.
    { destruct (Z_le_gt_dec m 0); [assumption|]. exfalso.
      assert (H1 : inject_Z 1 <= inject_Z m) by (rewrite <- Zle_Qle; lia).
      assert (H2 : 1 <= pow2 (Z.pos p)).
      { simpl. change 1 with (inject_Z 1). rewrite <- Zle_Qle. lia. }
      assert (inject_Z 1 == 1) by reflexivity.
      assert (1 * 1 <= inject_Z m * pow2 (Z.pos p)).
      { apply Qmult_le_compat_nonneg; split; lra. }
      lra. }
    assert (Hm0 : inject_Z m <= inject_Z 0) by (rewrite <- Zle_Qle; lia).
    assert (inject_Z 0 == 0) by reflexivity.
    pose proof (pow2_pos (Z.pos p)).
    assert (0 <= 1 - (1 # 2 ^ 53)) by discriminate.
    assert (inject_Z m * pow2 (Z.pos p) <= 0).
    { setoid_replace 0 with (0 * pow2 (Z.pos p)) using relation Qeq by ring.
      apply Qmult_le_compat_r; lra. }
    lra.
  - simpl pow2 in Hlt |- *.
    assert (Hq : inject_Z m * (1 # 2 ^ p) == m # 2 ^ p).
    { unfold Qeq. simpl. lia. }
    rewrite Hq in Hlt |- *.
    assert (Hc : 1 - (1 # 2 ^ 53) == (2 ^ 53 - 1)%Z # (2 ^ 53)%positive) by reflexivity.
    rewrite Hc. clear Hc Hq.
    unfold Qlt in Hlt. simpl Qnum in Hlt. simpl Qden in Hlt.
    unfold Qle. simpl Qnum. simpl Qden.
    rewrite Pos2Z.inj_pow in Hlt. rewrite !Pos2Z.inj_pow.
    set (B := (2 ^ 53)%Z) in *.
    destruct (Z_le_gt_dec (Z.pos p) 53) as [Hp|Hp].
    + assert (H53 : (B = 2 ^ Z.pos p * 2 ^ (53 - Z.pos p))%Z).
      { unfold B. rewrite <- Z.pow_add_r by lia. f_equal. lia. }
      assert (0 < 2 ^ Z.pos p)%Z by (apply Z.pow_pos_nonneg; lia).
      assert (0 < 2 ^ (53 - Z.pos p))%Z by (apply Z.pow_pos_nonneg; lia).
      nia.
    + assert (Hpp : (2 ^ Z.pos p = B * 2 ^ (Z.pos p - 53))%Z).
      { unfold B. rewrite <- Z.pow_add_r by lia. f_equal. lia. }
      assert (H2 : (2 ^ (Z.pos p - 53) = 2 * 2 ^ (Z.pos p - 54))%Z).
      { rewrite <- (Z.pow_1_r 2) at 2. rewrite <- Z.pow_add_r by lia. f_equal. lia. }
      assert (0 < 2 ^ (Z.pos p - 54))%Z by (apply Z.pow_pos_nonneg; lia).
      assert (1 < B)%Z by reflexivity.
      nia.
Qed.

Lemma Qnum_pos (x : Q) (p : positive) : Qnum x = Z.pos p -> 0 < x.
Proof. intros H. unfold Qlt. simpl. lia. Qed.

Lemma Qnum_neg (x : Q) (p : positive) : Qnum x = Z.neg p -> x < 0.
Proof. intros H. unfold Qlt. simpl. lia. Qed.

(** The product of a double below one and a whole number of at least one
    rounds to a double below that number. *)
Lemma mul_below (r : Q) (n : Z) :
  representable r -> 0 <= r -> r < 1 -> (1 <= n)%Z ->
  0 <= mul r (inject_Z n) /\ mul r (inject_Z n) < inject_Z n.
Proof.
  intros Hrep H0 H1 Hn.
  pose proof (representable_below_one r Hrep H1) as Hr.
  assert (HN : 1 <= inject_Z n).
  { change 1 with (inject_Z 1). rewrite <- Zle_Qle. exact Hn. }
  set (N := inject_Z n) in *.
  assert (Hx0 : 0 <= r * N) by (apply Qmult_le_0_compat; lra).
  assert (Hx1 : r * N <= (1 - (1 # 2 ^ 53)) * N).
  { apply Qmult_le_compat_r; lra. }
  unfold mul, round. set (x := r * N) in *.
  destruct (Qnum x) as [|p|p] eqn:Hnum.
  - split; lra.
  - apply Qnum_pos in Hnum.
    pose proof (round_pos_le x) as Hup.
    split; [apply round_pos_nonneg; lra|].
    assert (Ht : pow2 (-1022) < 1) by reflexivity.
    destruct (spacing_cases x Hnum) as [Hs|Hs].
    + assert (Hu : x * (1 # 2 ^ 52) * (1 # 2) == x * (1 # 2 ^ 53)).
      { setoid_replace (1 # 2 ^ 53) with ((1 # 2 ^ 52) * (1 # 2)) using relation Qeq by reflexivity. ring. }
      assert (Hs' : spacing x * (1 # 2) <= x * (1 # 2 ^ 52) * (1 # 2)).
      { apply Qmult_le_compat_r; [exact Hs | discriminate]. }
      literal_powers. lra.
    + assert (Hu : pow2 (-1022) * (1 # 2 ^ 52) * (1 # 2) == pow2 (-1022) * (1 # 2 ^ 53)).
      { setoid_replace (1 # 2 ^ 53) with ((1 # 2 ^ 52) * (1 # 2)) using relation Qeq by reflexivity. ring. }
      assert (Hs' : spacing x * (1 # 2) == pow2 (-1022) * (1 # 2 ^ 52) * (1 # 2)).
      { rewrite Hs. reflexivity. }
      set (t := pow2 (-1022)) in *.
      literal_powers. lra.
  - apply Qnum_neg in Hnum. lra.
Qed.

Lemma floor_below (y : Q) (n : Z) :
  0 <= y -> y < inject_Z n -> (0 <= floor y < n)%Z.
Proof.
  intros H0 Hn. unfold floor. split.
  - rewrite <- (Qfloor_Z 0). apply Qfloor_resp_le. exact H0.
  - rewrite Zlt_Qlt. apply Qle_lt_trans with y; [apply Qfloor_le | exact Hn].
Qed.

Lemma pow2_nonneg (e : Z) : (0 <= e)%Z -> pow2 e = inject_Z (2 ^ e).
Proof.
  destruct e as [|p|p]; intros He; [reflexivity | | lia].
  simpl pow2. rewrite Pos2Z.inj_pow. reflexivity.
Qed.

Lemma exponent_Z (z : Z) : (0 < z)%Z -> exponent (inject_Z z) = Z.log2 z.
Proof.
  intros Hz. unfold exponent. simpl Qnum. simpl Qden.
  change (Z.log2 1) with 0%Z. rewrite Z.sub_0_r.
  assert (H : Qle_bool (pow2 (Z.log2 z)) (inject_Z z) = true).
  { apply Qle_bool_iff. apply pow2_le_frac.
    - intros _. pose proof (Z.log2_spec z Hz). lia.
    - pose proof (Z.log2_nonneg z). lia. }
  rewrite H. reflexivity.
Qed.

Lemma Qred_inject_Z (z : Z) : Qred (inject_Z z) = inject_Z z.
Proof. apply Qcanon.Qred_identity. simpl. apply Z.gcd_1_r. Qed.

Lemma round_pos_Z (z : Z) :
  (0 < z <= 2 ^ 53)%Z -> round_pos (inject_Z z) = inject_Z z.
Proof.
  intros [Hz Hb]. unfold round_pos, spacing. rewrite (exponent_Z z Hz).
  pose proof (Z.log2_nonneg z) as Hl0.
  pose proof (Z.log2_spec z Hz) as [Hl1 Hl2].
  rewrite Z.max_l by lia. rewrite (pow2_nonneg _ Hl0).
  remember (Z.log2 z) as l eqn:El. clear El.
  assert (Hl : (l <= 53)%Z).
  { destruct (Z_le_gt_dec l 53); [assumption|]. exfalso.
    assert (2 ^ 53 < 2 ^ l)%Z by (apply Z.pow_lt_mono_r; lia). lia. }
  assert (Hk : exists k, (z * 2 ^ 52 = k * 2 ^ l)%Z).
  { destruct (Z_le_gt_dec l 52) as [Hl52|Hl52].
    - exists (z * 2 ^ (52 - l))%Z. rewrite <- Z.mul_assoc, <- Z.pow_add_r by lia.
      do 2 f_equal. lia.
    - assert (l = 53)%Z by lia. subst l. exists (2 ^ 52)%Z.
      assert (z = 2 ^ 53)%Z by lia. subst z. reflexivity. }
  destruct Hk as [k Hk].
  set (s := inject_Z (2 ^ l) * (1 # 2 ^ 52)).
  assert (Hs : inject_Z z == inject_Z k * s).
  { unfold s, Qeq, Qmult, inject_Z. cbn [Qnum Qden].
    rewrite !Pos.mul_1_l, Pos2Z.inj_pow. lia. }
  assert (Hs0 : ~ s == 0).
  { unfold s, Qeq, Qmult, inject_Z. cbn [Qnum Qden].
    assert (0 < 2 ^ l)%Z by (apply Z.pow_pos_nonneg; lia). lia. }
  assert (Hq : inject_Z z / s == inject_Z k).
  { rewrite Hs. field. exact Hs0. }
  rewrite (nearest_even_Z _ _ Hq).
  rewrite <- (Qred_inject_Z z). apply Qred_complete. symmetry. exact Hs.
Qed.

(** A whole number of magnitude up to 2^53 is a double. *)
Lemma round_Z (z : Z) : (Z.abs z <= 2 ^ 53)%Z -> round (inject_Z z) = inject_Z z.
Proof.
  intros Hz. unfold round. simpl Qnum. destruct z as [|p|p].
  - reflexivity.
  - apply round_pos_Z. lia.
  - change (- inject_Z (Z.neg p)) with (inject_Z (Z.pos p)).
    rewrite round_pos_Z by lia. reflexivity.
Qed.

Lemma inject_Z_plus_eq (a b : Z) : inject_Z a + inject_Z b = inject_Z (a + b).
Proof. unfold Qplus, inject_Z. cbn [Qnum Qden Pos.mul]. f_equal. lia. Qed.

Lemma inject_Z_minus_eq (a b : Z) : inject_Z a - inject_Z b = inject_Z (a - b).
Proof. unfold Qminus, Qplus, Qopp, inject_Z. cbn [Qnum Qden Pos.mul]. f_equal. lia. Qed.

(** Sums and differences of whole numbers of moderate size are exact. *)
Lemma add_Z (a b : Z) :
  (Z.abs (a + b) <= 2 ^ 53)%Z -> add (inject_Z a) (inject_Z b) = inject_Z (a + b).
Proof. intros H. unfold add. rewrite inject_Z_plus_eq. apply round_Z, H. Qed.

Lemma sub_Z (a b : Z) :
  (Z.abs (a - b) <= 2 ^ 53)%Z -> sub (inject_Z a) (inject_Z b) = inject_Z (a - b).
Proof. intros H. unfold sub. rewrite inject_Z_minus_eq. apply round_Z, H. Qed.

End DoubleFacts.

(* --------------------------------------------------------------------- *)
(** ** ProxyManager, further                                               *)
(* --------------------------------------------------------------------- *)

Section ProxyManagerMore.
Import ProxyManager ProxyProbe.

Lemma index_in_range_step (m : t) (c : call) :
  index_in_range m -> index_in_range (step m c).
Proof.
  intros Hm. destruct c as [p| |r]; simpl; [| |exact Hm].
  - left. unfold addProxy; simpl. rewrite length_app; simpl.
    destruct Hm as [H|[_ ->]]; lia.
  - unfold getNextProxy.
    destruct (Nat.eqb_spec (length (proxies m)) 0) as [E|E]; simpl; [exact Hm|].
    left. apply Nat.mod_upper_bound. exact E.
Qed.

Lemma index_in_range_after (calls : list call) : forall m,
  index_in_range m -> index_in_range (after calls m).
Proof.
  unfold after. induction calls as [|c calls IH]; intros m Hm; simpl; [exact Hm|].
  apply IH, index_in_range_step, Hm.
Qed.

Lemma getNextProxy_in_range (m : t) :
  index_in_range m ->
  match fst (getNextProxy m) with
  | Null => proxies m = []
  | Proxy p => In p (proxies m)
  | Undefined => False
  end.
Proof.
  intros Hm. unfold getNextProxy.
  destruct (proxies m) as [|p ps] eqn:E; simpl; [reflexivity|].
  destruct Hm as [Hlt|[Hnil _]]; [|congruence]. rewrite E in Hlt.
  destruct (at_index_in_range (p :: ps) (currentIndex m) Hlt) as (q & Hq & ->).
  apply nth_error_In in Hq. exact Hq.
Qed.

End ProxyManagerMore.

(** X1. However proxies are added and drawn, getNextProxy never reads
    past the list: after any sequence of addProxy, getNextProxy and
    getRandomProxy calls on a new manager it answers null exactly on an
    empty list and otherwise a proxy of the list, never undefined. *)
Theorem getNextProxy_never_undefined (ps : list ProxyManager.ProxyConfig)
    (calls : list ProxyProbe.call) :
  match fst (ProxyManager.getNextProxy (ProxyProbe.after calls (ProxyManager.new ps))) with
  | ProxyManager.Null =>
      ProxyManager.proxies (ProxyProbe.after calls (ProxyManager.new ps)) = []
  | ProxyManager.Proxy p =>
      In p (ProxyManager.proxies (ProxyProbe.after calls (ProxyManager.new ps)))
  | ProxyManager.Undefined => False
  end.
Proof.
  apply getNextProxy_in_range, index_in_range_after.
  unfold ProxyProbe.index_in_range, ProxyManager.new; simpl.
  destruct ps; simpl; [right; auto | left; lia].
Qed.

(** X2. For a draw r that is a double with 0 <= r < 1, the product
    r * length being rounded as doubles are, getRandomProxy answers null
    on an empty list and otherwise a proxy of the list, never undefined:
    the rounded product stays below the length. *)
Theorem getRandomProxy_in_list (r : Q) (m : ProxyManager.t) :
  Double.representable r -> (0 <= r)%Q -> (r < 1)%Q ->
  match ProxyManager.getRandomProxy r m with
  | ProxyManager.Null => ProxyManager.proxies m = []
  | ProxyManager.Proxy p => In p (ProxyManager.proxies m)
  | ProxyManager.Undefined => False
  end.
Proof.
  intros Hrep H0 H1. unfold ProxyManager.getRandomProxy.
  destruct (Nat.eqb_spec (length (ProxyManager.proxies m)) 0) as [E|E].
  - apply length_zero_iff_nil, E.
  - destruct (mul_below r (Z.of_nat (length (ProxyManager.proxies m)))
                Hrep H0 H1 ltac:(lia)) as [Hlo Hhi].
    pose proof (floor_below _ _ Hlo Hhi) as Hb.
    cbv zeta.
    set (i := Double.floor
                (Double.mul r (inject_Z (Z.of_nat (length (ProxyManager.proxies m))))))
      in *.
    destruct (at_index_in_range (ProxyManager.proxies m) (Z.to_nat i))
      as (q & Hq & Hat); [lia|].
    rewrite Z2Nat.id in Hat by lia. rewrite Hat.
    apply nth_error_In in Hq. exact Hq.
Qed.

(** X2 at the draw 0.3333333333333333 over three proxies: the product
    rounds up to 1, and the second proxy is returned. *)
Lemma getRandomProxy_in_list_witness :
  Double.representable (6004799503160661 # 18014398509481984)
  /\ (0 <= 6004799503160661 # 18014398509481984)%Q
  /\ (6004799503160661 # 18014398509481984 < 1)%Q
  /\ ProxyManager.getRandomProxy (6004799503160661 # 18014398509481984)
       (ProxyManager.new [Samples.proxyA; Samples.proxyB; Samples.proxyC])
     = ProxyManager.Proxy Samples.proxyB
  /\ match ProxyManager.getRandomProxy (6004799503160661 # 18014398509481984)
            (ProxyManager.new [Samples.proxyA; Samples.proxyB; Samples.proxyC]) with
     | ProxyManager.Null =>
         ProxyManager.proxies
           (ProxyManager.new [Samples.proxyA; Samples.proxyB; Samples.proxyC]) = []
     | ProxyManager.Proxy p =>
         In p (ProxyManager.proxies
                 (ProxyManager.new [Samples.proxyA; Samples.proxyB; Samples.proxyC]))
     | ProxyManager.Undefined => False
     end.
Proof.
  assert (Hrep : Double.representable (6004799503160661 # 18014398509481984)).
  { exists 6004799503160661%Z, (-54)%Z.
    split; [vm_compute; reflexivity | split; [vm_compute; reflexivity | lia]]. }
  split; [exact Hrep|]. split; [discriminate|]. split; [reflexivity|].
  split; [vm_compute; reflexivity|].
  apply (getRandomProxy_in_list (6004799503160661 # 18014398509481984)
           (ProxyManager.new [Samples.proxyA; Samples.proxyB; Samples.proxyC]));
    [exact Hrep | discriminate | reflexivity].
Defined.

Section ProbeFacts.
Import Effects ProxyManager ProxyProbe.
Context {W : Type}.

Lemma working_loop (ps : list ProxyConfig) : forall (acc : list ProxyConfig) (w : W),
  for_of ps (fun proxy =>
    bind (await (testProxy proxy))
         (fun working => when working
            (modify (fun workingProxies => workingProxies ++ [proxy])))) acc w
  = (inr tt, acc ++ ps, w).
Proof.
  induction ps as [|p ps IH]; intros acc w; simpl.
  - unfold ret. rewrite app_nil_r. reflexivity.
  - unfold bind at 1. unfold bind at 1. unfold await, testProxy, scope, try_catch, ret.
    simpl. unfold modify. rewrite IH, <- app_assoc. reflexivity.
Qed.

End ProbeFacts.

(** X3. The health probe is advisory: testProxy answers true for every
    proxy, so getWorkingProxies returns the whole configured list, in
    order, without throwing and without touching the world. *)
Theorem getWorkingProxies_all {W : Type} (m : ProxyManager.t) (w : W) :
  ProxyProbe.getWorkingProxies m w = (inr (ProxyManager.proxies m), w)
  /\ forall proxy, ProxyProbe.testProxy proxy w = (inr true, w).
Proof.
  split; [|reflexivity].
  unfold ProxyProbe.getWorkingProxies, Effects.scope. unfold Effects.bind at 1.
  rewrite working_loop. reflexivity.
Qed.

(* --------------------------------------------------------------------- *)
(** ** RateLimiter, further                                                *)
(* --------------------------------------------------------------------- *)

Section StoredFacts.
Import RateLimiter.
Variable cfg : config.

Lemma serve_final_stored (identifier : string) :
  ∀ (calls : list (string * Z)) (requests : gmap string (list Z)) (past : list Z),
  (Z.of_nat (length (default [] (requests !! identifier))) ≤ maxRequests cfg)%Z →
  (∀ t, t ∈ default [] (requests !! identifier) → t ∈ past) →
  (Z.of_nat (length (default [] (final cfg calls requests !! identifier)))
   ≤ maxRequests cfg)%Z
  ∧ (∀ t, t ∈ default [] (final cfg calls requests !! identifier) →
          t ∈ past ++ allowed_times identifier (serve cfg calls requests)).
Proof.
  induction calls as [|[id' now] rest IH]; intros requests past Hlen Hsub.
  - simpl. split; [exact Hlen|]. intros t Ht. rewrite app_nil_r. auto.
  - cbn [final serve].
    destruct (decide (maxRequests cfg ≤ Z.of_nat (length
       (filter (λ ts, (now - ts < timeWindow cfg)%Z)
               (default [] (requests !! id')))))%Z) as [Hfull|Hroom].
    + rewrite checkRateLimit_denied by done. cbn [snd].
      rewrite allowed_times_cons, decide_False by (intros [_ ?]; done).
      apply IH; assumption.
    + rewrite checkRateLimit_allowed by lia. cbn [snd].
      rewrite allowed_times_cons. cbn [fst snd].
      destruct (decide (id' = identifier)) as [->|Hne].
      * rewrite decide_True by done.
        replace (past ++ now :: allowed_times identifier
                   (serve cfg rest (<[identifier:=filter (λ ts, (now - ts < timeWindow cfg)%Z)
                       (default [] (requests !! identifier)) ++ [now]]> requests)))
          with ((past ++ [now]) ++ allowed_times identifier
                   (serve cfg rest (<[identifier:=filter (λ ts, (now - ts < timeWindow cfg)%Z)
                       (default [] (requests !! identifier)) ++ [now]]> requests)))
          by (by rewrite <- app_assoc).
        apply IH.
        -- rewrite lookup_insert_eq. simpl. rewrite length_app. simpl. lia.
        -- intros t. rewrite lookup_insert_eq. simpl.
           rewrite !elem_of_app, list_elem_of_filter.
           intros [[_ Ht]|Ht]; [left; apply Hsub, Ht | right; exact Ht].
      * rewrite decide_False by (intros [? _]; done).
        apply IH; rewrite lookup_insert_ne by done; assumption.
Qed.

End StoredFacts.

(** X4. In every run from the empty map (any identifiers, any clock
    readings) the array stored for an identifier never holds more than
    maxRequests timestamps, and holds only clock readings of calls of that
    identifier that were allowed; so an identifier none of whose calls was
    allowed has no timestamp stored. *)
Theorem stored_timestamps_bounded (cfg : RateLimiter.config)
    (calls : list (string * Z)) (identifier : string) :
  (0 ≤ RateLimiter.maxRequests cfg)%Z →
  (Z.of_nat (length (default [] (RateLimiter.final cfg calls ∅ !! identifier)))
   ≤ RateLimiter.maxRequests cfg)%Z
  ∧ (∀ t, t ∈ default [] (RateLimiter.final cfg calls ∅ !! identifier) →
          t ∈ RateLimiter.allowed_times identifier (RateLimiter.serve cfg calls ∅)).
Proof.
  intros Hmax.
  apply (serve_final_stored cfg identifier calls ∅ []).
  - rewrite lookup_empty. simpl. lia.
  - rewrite lookup_empty. simpl. intros t Ht. by apply elem_of_nil in Ht.
Qed.

(** X4 for a limit of two per second and five calls. *)
Lemma stored_timestamps_bounded_witness :
  (0 ≤ 2)%Z
  ∧ default []
      (RateLimiter.final {| RateLimiter.maxRequests := 2; RateLimiter.timeWindow := 1000 |}
         [("ip", 0); ("ip", 100); ("ip", 200); ("ip", 1000); ("ip", 1100)]%Z ∅ !! "ip")
    = [1000; 1100]%Z
  ∧ (Z.of_nat (length (default []
        (RateLimiter.final {| RateLimiter.maxRequests := 2; RateLimiter.timeWindow := 1000 |}
           [("ip", 0); ("ip", 100); ("ip", 200); ("ip", 1000); ("ip", 1100)]%Z ∅ !! "ip")))
     ≤ 2)%Z.
Proof.
  split; [lia|]. split; [vm_compute; reflexivity|].
  apply (stored_timestamps_bounded
           {| RateLimiter.maxRequests := 2; RateLimiter.timeWindow := 1000 |}
           [("ip", 0); ("ip", 100); ("ip", 200); ("ip", 1000); ("ip", 1100)]%Z "ip").
  simpl. lia.
Defined.

Section WaitFacts.
Import Effects RateLimiter.
Context {W : Type}.
Variable timers : RateLimiterWait.Timers W.
Variable cfg : config.


(** One turn of the loop, by what the check answers. *)
Lemma waitForRateLimit_turn (fuel : nat) (identifier : string)
    (requests : gmap string (list Z)) (w : W) :
  RateLimiterWait.waitForRateLimit timers cfg (S fuel) identifier requests w
  = let t1 := (RateLimiterWait.clock_read timers w).1 in
    let w1 := (RateLimiterWait.clock_read timers w).2 in
    if (checkRateLimit cfg identifier t1 requests).1
    then (inr (Some tt), (checkRateLimit cfg identifier t1 requests).2, w1)
    else
      let requests' := (checkRateLimit cfg identifier t1 requests).2 in
      match RateLimiterWait.oldest (default [] (requests' !! identifier)) with
      | Some oldestRequest =>
          let t2 := (RateLimiterWait.clock_read timers w1).1 in
          let w2 := (RateLimiterWait.clock_read timers w1).2 in
          let waitTime := (timeWindow cfg - (t2 - oldestRequest) + 1000)%Z in
          RateLimiterWait.waitForRateLimit timers cfg fuel identifier requests'
            (if (0 <? waitTime)%Z then RateLimiterWait.timeout timers waitTime w2 else w2)
      | None =>
          RateLimiterWait.waitForRateLimit timers cfg fuel identifier requests' w1
      end.
Proof.
  cbn [RateLimiterWait.waitForRateLimit].
  unfold RateLimiterWait.checkRateLimit, RateLimiterWait.Date_now,
    RateLimiterWait.setTimeout, bind, await, get, modify, ret, when.
  destruct (RateLimiterWait.clock_read timers w) as [t1 w1]. cbn [fst snd].
  destruct (checkRateLimit cfg identifier t1 requests) as [[|] requests']; cbn [fst snd].
  - reflexivity.
  - destruct (RateLimiterWait.oldest _) as [m|]; [|reflexivity].
    destruct (RateLimiterWait.clock_read timers w1) as [t2 w2]. cbn [fst snd].
    destruct (0 <? _)%Z; reflexivity.
Qed.

Lemma waitForRateLimit_never (identifier : string) :
  (maxRequests cfg ≤ 0)%Z →
  ∀ (fuel : nat) (requests : gmap string (list Z)) (w : W),
  ∃ w', RateLimiterWait.waitForRateLimit timers cfg fuel identifier requests w
        = (inr None, requests, w').
Proof.
  intros Hmax. induction fuel as [|fuel IH]; intros requests w.
  - eexists. reflexivity.
  - rewrite waitForRateLimit_turn. cbv zeta.
    rewrite checkRateLimit_denied by lia. cbn [fst snd].
    destruct (RateLimiterWait.oldest _); apply IH.
Qed.

Variable time : W → Z.
Hypothesis clock_forward : ∀ w,
  (time w ≤ (RateLimiterWait.clock_read timers w).1
   ∧ (RateLimiterWait.clock_read timers w).1
     ≤ time (RateLimiterWait.clock_read timers w).2)%Z.
Hypothesis timers_wait : ∀ ms w,
  (time w + ms ≤ time (RateLimiterWait.timeout timers ms w))%Z.


End WaitFacts.



(** X6. With a limit of zero or less, [waitForRateLimit] never returns:
    however many checks are run, none is allowed, and the stored
    timestamps stay as they were. *)
Theorem waitForRateLimit_zero_limit_never_returns {W : Type}
    (timers : RateLimiterWait.Timers W) (cfg : RateLimiter.config)
    (identifier : string) (fuel : nat) (requests : gmap string (list Z)) (w : W) :
  (RateLimiter.maxRequests cfg ≤ 0)%Z →
  ∃ w', RateLimiterWait.waitForRateLimit timers cfg fuel identifier requests w
        = (inr None, requests, w').
Proof.
  intros Hmax.
  exact (waitForRateLimit_never timers cfg identifier Hmax fuel requests w).
Qed.

(** X6 at a limit of zero, after five checks. *)
Lemma waitForRateLimit_zero_limit_never_returns_witness :
  ∃ w', RateLimiterWait.waitForRateLimit RateLimiterWait.exactTimers
          (RateLimiter.new 0 1) 5 "ip" ∅ 10%Z
        = (inr None, ∅, w').
Proof.
  apply (waitForRateLimit_zero_limit_never_returns RateLimiterWait.exactTimers
           (RateLimiter.new 0 1) "ip" 5 ∅ 10%Z).
  simpl. lia.
Defined.

(* --------------------------------------------------------------------- *)
(** ** Random delays and viewports                                         *)
(* --------------------------------------------------------------------- *)

Section DelayFacts.

(** [getRandomDelay] on whole bounds: every step but the product is
    exact, and the rounded product stays below the number of values. *)
Lemma getRandomDelay_whole (r : Q) (min max : Z) :
  Double.representable r -> (0 <= r)%Q -> (r < 1)%Q ->
  (min <= max)%Z -> (- 2 ^ 52 < min)%Z -> (max < 2 ^ 52)%Z ->
  exists d : Z,
    RateLimiter.getRandomDelay r (inject_Z min) (inject_Z max) = inject_Z d
    /\ (min <= d <= max)%Z.
Proof.
  intros Hrep H0 H1 Hmm Hmin Hmax.
  assert (H52 : (2 ^ 53 = 2 * 2 ^ 52)%Z) by reflexivity.
  unfold RateLimiter.getRandomDelay.
  rewrite sub_Z by lia.
  change 1%Q with (inject_Z 1). rewrite (add_Z (max - min) 1) by lia.
  destruct (mul_below r (max - min + 1) Hrep H0 H1 ltac:(lia)) as [Hlo Hhi].
  pose proof (floor_below _ _ Hlo Hhi) as Hk.
  set (k := Double.floor (Double.mul r (inject_Z (max - min + 1)))) in *.
  rewrite (add_Z k min) by lia.
  exists (k + min)%Z. split; [reflexivity | lia].
Qed.

End DelayFacts.

(** X7. For a draw r that is a double with 0 <= r < 1 and whole bounds
    min <= max of magnitude below 2^52, AntiDetectionUtils.getRandomDelay
    and RateLimiter.getRandomDelay, computed in doubles, give a whole
    number between min and max inclusive, and the call does nothing but
    take the draw. *)
Theorem getRandomDelay_in_range {W Json : Type} (rt : Runtime W Json)
    (min max : Z) (w : W) :
  Double.representable (fst (Math_random rt w)) ->
  (0 <= fst (Math_random rt w))%Q -> (fst (Math_random rt w) < 1)%Q ->
  (min <= max)%Z -> (- 2 ^ 52 < min)%Z -> (max < 2 ^ 52)%Z ->
  exists d : Z,
    SeleniumScraper.getRandomDelay rt (inject_Z min) (inject_Z max) w
    = (inr (inject_Z d), snd (Math_random rt w))
    /\ RateLimiter.getRandomDelay (fst (Math_random rt w)) (inject_Z min) (inject_Z max)
       = inject_Z d
    /\ (min <= d <= max)%Z.
Proof.
  intros Hrep H0 H1 Hmm Hmin Hmax.
  destruct (getRandomDelay_whole _ min max Hrep H0 H1 Hmm Hmin Hmax) as (d & Hd & Hr).
  exists d. split; [|split; assumption].
  unfold SeleniumScraper.getRandomDelay, SeleniumScraper.random, Effects.scope,
    Effects.bind, Effects.await, Effects.ret.
  unfold RateLimiter.getRandomDelay in Hd.
  destruct (Math_random rt w) as [r w']. cbn [fst snd] in *. rewrite Hd. reflexivity.
Qed.

(** X7 for the pause of simulateHumanBehavior, between 500 and 1500 ms,
    at the draw 0.3333333333333333; at that draw getRandomDelay(0, 2) is
    1, the product rounding up to 1, and bounds that are not whole give a
    delay that is not whole. *)
Lemma getRandomDelay_in_range_witness :
  (exists d : Z,
     SeleniumScraper.getRandomDelay (Samples.runtime Regex.Optional [])
       (inject_Z 500) (inject_Z 1500) []
     = (inr (inject_Z d), snd (Math_random (Samples.runtime Regex.Optional []) []))
     /\ RateLimiter.getRandomDelay
          (fst (Math_random (Samples.runtime Regex.Optional []) []))
          (inject_Z 500) (inject_Z 1500)
        = inject_Z d
     /\ (500 <= d <= 1500)%Z)
  /\ RateLimiter.getRandomDelay (6004799503160661 # 18014398509481984) 0 2 = 1%Q
  /\ RateLimiter.getRandomDelay (6004799503160661 # 18014398509481984) (1 # 2) (5 # 2)
     = (3 # 2)%Q.
Proof.
  split; [|split; vm_compute; reflexivity].
  apply (getRandomDelay_in_range (Samples.runtime Regex.Optional []) 500 1500 []).
  - exists 6004799503160661%Z, (-54)%Z.
    split; [vm_compute; reflexivity | split; [vm_compute; reflexivity | lia]].
  - simpl. discriminate.
  - simpl. reflexivity.
  - lia.
  - vm_compute. reflexivity.
  - vm_compute. reflexivity.
Defined.

(** X8. For a draw r that is a double with 0 <= r < 1, the product r * 7
    being rounded as doubles are, getRandomViewport returns one of the
    seven listed viewports, never undefined, so the window-size argument
    of initDriver always has a width and a height to read. *)
Theorem getRandomViewport_listed {W Json : Type} (rt : Runtime W Json) (w : W) :
  Double.representable (fst (Math_random rt w)) ->
  (0 <= fst (Math_random rt w))%Q -> (fst (Math_random rt w) < 1)%Q ->
  exists viewport,
    SeleniumScraper.getRandomViewport rt w = (inr (Some viewport), snd (Math_random rt w))
    /\ In viewport SeleniumScraper.viewports.
Proof.
  intros Hrep H0 H1.
  unfold SeleniumScraper.getRandomViewport, SeleniumScraper.random, Effects.scope,
    Effects.bind, Effects.await, Effects.ret.
  destruct (Math_random rt w) as [r w']. cbn [fst snd] in *.
  destruct (mul_below r (Z.of_nat (length SeleniumScraper.viewports))
              Hrep H0 H1 ltac:(simpl; lia)) as [Hlo Hhi].
  pose proof (floor_below _ _ Hlo Hhi) as Hb.
  set (i := Double.floor
              (Double.mul r (inject_Z (Z.of_nat (length SeleniumScraper.viewports)))))
    in *.
  unfold SeleniumScraper.at_index.
  destruct (Z.ltb_spec i 0) as [Hneg|_]; [lia|].
  destruct (nth_error SeleniumScraper.viewports (Z.to_nat i)) as [v|] eqn:Hv.
  - exists v. split; [reflexivity|]. apply nth_error_In in Hv. exact Hv.
  - apply nth_error_None in Hv. lia.
Qed.

(** X8 on the sample runtime, and at the largest double below 1/7, whose
    product with 7 rounds up to 1: the second viewport. *)
Lemma getRandomViewport_listed_witness :
  (exists viewport,
     SeleniumScraper.getRandomViewport (Samples.runtime Regex.Optional []) []
     = (inr (Some viewport), snd (Math_random (Samples.runtime Regex.Optional []) []))
     /\ In viewport SeleniumScraper.viewports)
  /\ SeleniumScraper.at_index SeleniumScraper.viewports
       (Double.floor (Double.mul (2573485501354569 # 18014398509481984) 7))
     = Some (1366, 768)%Z.
Proof.
  split; [|vm_compute; reflexivity].
  apply (getRandomViewport_listed (Samples.runtime Regex.Optional []) []).
  - exists 6004799503160661%Z, (-54)%Z.
    split; [vm_compute; reflexivity | split; [vm_compute; reflexivity | lia]].
  - simpl. discriminate.
  - simpl. reflexivity.
Defined.

(* --------------------------------------------------------------------- *)
(** ** Trimming and splitting                                              *)
(* --------------------------------------------------------------------- *)

Section TrimFacts.
Import JsString.

Lemma trimStart_length (s : string) :
  String.length (trimStart s) <= String.length s.
Proof.
  induction s as [|c s IH]; simpl; [lia|].
  destruct (is_space c); simpl; lia.
Qed.

Lemma trimStart_idem (s : string) : trimStart (trimStart s) = trimStart s.
Proof.
  induction s as [|c s IH]; simpl; [reflexivity|].
  destruct (is_space c) eqn:Ec; [exact IH|]. simpl. rewrite Ec. reflexivity.
Qed.

Lemma trimStart_prefix (x y : string) :
  trimStart (x +:+ y) = x +:+ y -> trimStart x = x.
Proof.
  destruct x as [|c x]; [reflexivity|].
  change (String c x +:+ y) with (String c (x +:+ y)). simpl.
  destruct (is_space c); [|reflexivity].
  intros H. pose proof (trimStart_length (x +:+ y)) as Hl.
  rewrite H in Hl. simpl in Hl. lia.
Qed.

Lemma trimStart_split (s : string) : exists p, s = p +:+ trimStart s.
Proof.
  induction s as [|c s [p Hp]]; simpl.
  - exists "". reflexivity.
  - destruct (is_space c).
    + exists (String c p). exact (f_equal (String c) Hp).
    + exists "". reflexivity.
Qed.

(** [trim] leaves a trimmed string as it is. *)
Lemma trim_idem (s : string) : trim (trim s) = trim s.
Proof.
  unfold trim.
  set (t := trimStart s). set (u := trimStart (reverse t)).
  assert (Hu : trimStart (reverse u) = reverse u).
  { destruct (trimStart_split (reverse t)) as [p Hp]. fold u in Hp.
    apply trimStart_prefix with (y := reverse p).
    rewrite <- reverse_app, <- Hp, reverse_involutive.
    apply trimStart_idem. }
  rewrite Hu, reverse_involutive. unfold u. rewrite trimStart_idem. reflexivity.
Qed.

Lemma trimStart_chars (c : ascii) (s : string) :
  In c (list_ascii_of_string (trimStart s)) -> In c (list_ascii_of_string s).
Proof.
  induction s as [|b s IH]; simpl; [tauto|].
  destruct (is_space b); simpl; tauto.
Qed.

Lemma reverse_chars (c : ascii) (s : string) :
  In c (list_ascii_of_string (reverse s)) <-> In c (list_ascii_of_string s).
Proof.
  unfold reverse. rewrite list_ascii_of_string_of_list_ascii.
  symmetry. apply in_rev.
Qed.

Lemma trim_chars (c : ascii) (s : string) :
  In c (list_ascii_of_string (trim s)) -> In c (list_ascii_of_string s).
Proof.
  unfold trim. intros H.
  apply reverse_chars, trimStart_chars, reverse_chars, trimStart_chars in H.
  exact H.
Qed.

Lemma includes_char_false (c : ascii) (s : string) :
  includes s (String c "") = false <-> ~ In c (list_ascii_of_string s).
Proof.
  rewrite includes_char. split.
  - intros H Hin. rewrite <- not_true_iff_false in H. apply H.
    apply existsb_exists. exists c. split; [exact Hin | apply Ascii.eqb_refl].
  - intros H. apply not_true_iff_false. intros Hex.
    apply existsb_exists in Hex as (b & Hin & Hb).
    apply Ascii.eqb_eq in Hb. subst b. contradiction.
Qed.

(** No piece of a split holds the separator. *)
Lemma split_no_sep (sep : ascii) (s : string) :
  forall piece, In piece (split sep s) -> ~ In sep (list_ascii_of_string piece).
Proof.
  induction s as [|c s IH]; simpl; intros piece.
  - intros [<-|[]]. simpl. tauto.
  - destruct (Ascii.eqb_spec c sep) as [->|Hne].
    + intros [<-|Hin]; [simpl; tauto | apply IH, Hin].
    + destruct (split sep s) as [|piece0 pieces].
      * intros [<-|[]]. simpl. intros [?|[]]. contradiction.
      * intros [<-|Hin].
        -- simpl. intros [?|Hin]; [contradiction|].
           apply (IH piece0); [left; reflexivity | exact Hin].
        -- apply IH. right. exact Hin.
Qed.

End TrimFacts.

(* --------------------------------------------------------------------- *)
(** ** The fields of the extracted content                                 *)
(* --------------------------------------------------------------------- *)

Section FieldFacts.
Import JsString Effects ContentExtractor.
Context {W S : Type}.

(** What is known of the value an operation returns may be used after
    the [await]. *)
Lemma preserves_bind_await (I : S -> Prop) {A B} (Q : A -> Prop)
    (op : M W A) (f : A -> T W S B) :
  (forall w a w', op w = (inr a, w') -> Q a) ->
  (forall a, Q a -> preserves I (f a)) ->
  preserves I (bind (await op) f).
Proof.
  intros Hop Hf s w H. unfold final_state, bind, await.
  destruct (op w) as [[e|a] w'] eqn:Eop; simpl; [exact H|].
  apply (Hf a (Hop w a w' Eop) s w' H).
Qed.

(** A loop over [start, start + 1, ...] whose invariant grows with the
    counter. *)
Lemma preserves_for_of_seq (J : nat -> S -> Prop) (body : nat -> T W S unit) :
  (forall k s, J k s -> J (Datatypes.S k) s) ->
  (forall k, preserves (J k) (body k)) ->
  forall (n start : nat) (s : S) (w : W),
    J start s ->
    J (start + pred n) (final_state (for_of (seq start n) body) s w).
Proof.
  intros Hmono Hbody.
  assert (Hup : forall d k s, J k s -> J (k + d) s).
  { induction d as [|d IH]; intros k s H.
    - rewrite Nat.add_0_r. exact H.
    - rewrite Nat.add_succ_r. apply Hmono, IH, H. }
  induction n as [|n IH]; intros start s w H.
  - simpl. rewrite Nat.add_0_r. exact H.
  - cbn [seq for_of pred].
    pose proof (Hbody start s w H) as H1.
    unfold final_state, bind in *.
    destruct (body start s w) as [[[e|a] s1] w1]; simpl in *.
    + apply Hup, H1.
    + destruct n as [|n'].
      * simpl. rewrite Nat.add_0_r. exact H1.
      * specialize (IH (Datatypes.S start) s1 w1 (Hmono _ _ H1)).
        cbn [pred] in IH.
        replace (start + Datatypes.S n') with (Datatypes.S start + n') by lia.
        exact IH.
Qed.

(** A method that ends by handing back a function of its variable. *)
Lemma scope_get_map_final {A} (g : S -> A) (init : S)
    (body : T W S unit) (w w' : W) (v : A) :
  scope init (bind body (fun _ => bind get (fun s => ret (g s)))) w = (inr v, w') ->
  v = g (final_state body init w).
Proof.
  unfold scope, bind, get, ret, final_state.
  destruct (body init w) as [[[e|a] s'] w'']; simpl; [discriminate|].
  intros Hrun. inversion Hrun; subst. reflexivity.
Qed.

(** A [catch] that does nothing leaves the variables as the body left
    them. *)
Lemma final_state_swallow (body : T W S unit) (s : S) (w : W) :
  final_state (try_catch body (fun _ => ret tt)) s w = final_state body s w.
Proof.
  unfold final_state, try_catch, ret.
  destruct (body s w) as [[[e|a] s'] w']; reflexivity.
Qed.

End FieldFacts.

Section SortFacts.
Import ContentExtractor.
Context {A : Type}.
Variable key : A -> nat.

(** Sorting by a key leaves a list that ascends in the key as it is. *)
Lemma sort_ascending (xs : list A) :
  StronglySorted (fun a b => key a <= key b) xs ->
  sort (fun a b => (Z.of_nat (key a) - Z.of_nat (key b))%Z) xs = xs.
Proof.
  induction 1 as [|x xs Hs IH Hall]; [reflexivity|].
  unfold sort in *. cbn [fold_right]. rewrite IH.
  destruct xs as [|y ys]; [reflexivity|]. cbn [sort_insert].
  apply Forall_inv in Hall.
  destruct (Z.leb_spec (Z.of_nat (key x) - Z.of_nat (key y)) 0); [reflexivity | lia].
Qed.

Lemma ascending_push (k : nat) (x : A) (xs : list A) :
  StronglySorted (fun a b => key a <= key b) xs ->
  List.Forall (fun a => key a <= k) xs -> key x = k ->
  StronglySorted (fun a b => key a <= key b) (push x xs).
Proof.
  intros Hs Hall Hx. unfold push.
  induction Hs as [|y ys Hs IH Hy]; simpl.
  - constructor; constructor.
  - apply Forall_cons_iff in Hall as [Hyk Hall]. constructor.
    + apply IH, Hall.
    + apply List.Forall_app. split; [exact Hy|]. constructor; [lia | constructor].
Qed.

End SortFacts.

Section HeadingFacts.
Import JsString Effects ContentExtractor.
Context {W E : Type}.
Variable driver : WebDriver W E.

Lemma nonblank_trim (text : string) : nonblank text = true -> trim text <> "".
Proof.
  unfold nonblank. destruct (String.eqb_spec (trim text) ""); [discriminate | auto].
Qed.

Lemma extractHeadings_collects (w w' : W) (headings : list Heading.t) :
  extractHeadings driver w = (inr headings, w') ->
  StronglySorted (fun a b => Heading.level a <= Heading.level b) headings
  /\ List.Forall (fun h => 1 <= Heading.level h <= 6
                           /\ Heading.text h <> ""
                           /\ trim (Heading.text h) = Heading.text h) headings.
Proof.
  intros Hrun.
  pose (J := fun (k : nat) (s : list Heading.t) =>
    1 <= k
    /\ StronglySorted (fun a b => Heading.level a <= Heading.level b) s
    /\ List.Forall (fun h => 1 <= Heading.level h <= k
                             /\ Heading.text h <> ""
                             /\ trim (Heading.text h) = Heading.text h) s).
  unfold extractHeadings in Hrun.
  apply scope_get_map_final in Hrun. rewrite final_state_swallow in Hrun.
  assert (Hmono : forall k s1, J k s1 -> J (Datatypes.S k) s1).
  { intros k s1 (Hk & Hs1 & Hall1). split; [lia|]. split; [exact Hs1|].
    eapply List.Forall_impl; [|exact Hall1]. cbv beta.
    intros h (Hl & Ht); split; [lia | exact Ht]. }
  assert (Hfinal : J (1 + pred 6) (final_state
            (for_of (seq 1 6) (fun level =>
               let! elements := await (findElements driver
                                  (tagName ("h" +:+ show_Z (Z.of_nat level)))) in
               for_of elements (fun element =>
                 let! text := await (getText driver element) in
                 let! id := await (getAttribute driver element "id") in
                 when (nonblank text)
                   (modify (push {| Heading.level := level;
                                    Heading.text := trim text;
                                    Heading.id := or_undefined id |})))))%js [] w)).
  { apply (preserves_for_of_seq J); [exact Hmono | | repeat split; constructor].
    intros k.
    apply preserves_bind; [apply preserves_await | intros elements].
    apply preserves_for_of; intros element.
    apply preserves_bind; [apply preserves_await | intros text].
    apply preserves_bind; [apply preserves_await | intros id].
    destruct (nonblank text) eqn:Enb; simpl; [|apply preserves_ret].
    apply preserves_modify. intros s1 (Hk & Hs1 & Hall1).
    split; [exact Hk|]. split.
    - apply (ascending_push Heading.level k); [exact Hs1 | | reflexivity].
      eapply List.Forall_impl; [|exact Hall1]. cbv beta. intros h (Hl & _); lia.
    - unfold push. apply List.Forall_app. split; [exact Hall1|].
      constructor; [|constructor]. simpl.
      split; [lia | split; [apply nonblank_trim, Enb | apply trim_idem]]. }
  destruct Hfinal as (_ & Hs & Hall). subst headings.
  rewrite (sort_ascending Heading.level _ Hs). split; [exact Hs | exact Hall].
Qed.


End HeadingFacts.

Section HeadingOrder.
Import JsString Effects ContentExtractor.
Local Open Scope js_scope.
Context {W E : Type}.
Variable driver : WebDriver W E.

(** A loop over [start, start + 1, ...] each of whose turns takes the
    invariant of its counter to that of the next. *)
Lemma for_of_seq_advances {S} (J : nat -> S -> Prop) (body : nat -> T W S unit) :
  (forall k s, J k s -> J (Datatypes.S k) s) ->
  (forall k s w, J k s -> J (Datatypes.S k) (final_state (body k) s w)) ->
  forall (n start : nat) (s : S) (w : W),
    J start s -> J (start + n) (final_state (for_of (seq start n) body) s w).
Proof.
  intros Hmono Hbody.
  assert (Hup : forall d k s, J k s -> J (k + d) s).
  { induction d as [|d IH]; intros k s H.
    - rewrite Nat.add_0_r. exact H.
    - rewrite Nat.add_succ_r. apply Hmono, IH, H. }
  induction n as [|n IH]; intros start s w H.
  - cbn. rewrite Nat.add_0_r. exact H.
  - cbn [seq for_of]. rewrite final_state_bind.
    pose proof (Hbody start s w H) as H1. unfold final_state in H1.
    destruct (body start s w) as [[[e|a] s1] w1]; cbn [fst snd] in H1.
    + replace (start + Datatypes.S n) with (Datatypes.S start + n) by lia.
      apply Hup, H1.
    + replace (start + Datatypes.S n) with (Datatypes.S start + n) by lia.
      apply IH, H1.
Qed.

Lemma ascending_app {A} (key : A -> nat) (k : nat) (xs out : list A) :
  StronglySorted (fun a b => key a <= key b) xs ->
  List.Forall (fun a => key a <= k) xs ->
  List.Forall (fun a => key a = k) out ->
  StronglySorted (fun a b => key a <= key b) (xs ++ out).
Proof.
  intros Hs Hxs Hout. induction Hs as [|x xs Hs IH Hx]; cbn.
  - induction Hout as [|y out Hy Hout IHout]; constructor; [exact IHout|].
    eapply List.Forall_impl; [|exact Hout]. cbv beta. intros a Ha. lia.
  - apply Forall_cons_iff in Hxs as [Hxk Hxs]. constructor; [apply IH, Hxs|].
    apply List.Forall_app. split; [exact Hx|].
    eapply List.Forall_impl; [|exact Hout]. cbv beta. intros a Ha. lia.
Qed.

(** One turn of the loop over the elements of a level. *)
Lemma heading_turn (level : nat) (element : E) (acc : list Heading.t) (w : W) :
  let turn :=
    (let! text := await (getText driver element) in
     let! id := await (getAttribute driver element "id") in
     when (nonblank text)
       (modify (push {| Heading.level := level;
                        Heading.text := trim text;
                        Heading.id := or_undefined id |}))) in
  final_state turn acc w = acc
  \/ exists y, final_state turn acc w = acc ++ [y]
               /\ Stated.heading_of driver level y element.
Proof.
  cbv zeta. rewrite final_state_await.
  destruct (getText driver element w) as [[e|text] w1] eqn:Htext; [left; reflexivity|].
  rewrite final_state_await.
  destruct (getAttribute driver element "id" w1) as [[e|id] w2] eqn:Hid;
    [left; reflexivity|].
  destruct (nonblank text) eqn:Hnb; [|left; reflexivity].
  right. eexists. split; [reflexivity|].
  exists w, w1, w2, text, id. auto.
Qed.

Lemma filter_level_other (level k : nat) (out : list Heading.t) :
  List.Forall (fun h => Heading.level h = k) out -> level <> k ->
  List.filter (fun h => Nat.eqb (Heading.level h) level) out = [].
Proof.
  intros Hout Hne. induction Hout as [|h out Hh _ IH]; [reflexivity|].
  cbn. rewrite IH. destruct (Nat.eqb_spec (Heading.level h) level); [lia | reflexivity].
Qed.

Lemma filter_level_same (k : nat) (out : list Heading.t) :
  List.Forall (fun h => Heading.level h = k) out ->
  List.filter (fun h => Nat.eqb (Heading.level h) k) out = out.
Proof.
  intros Hout. induction Hout as [|h out Hh _ IH]; [reflexivity|].
  cbn. rewrite IH, Hh, Nat.eqb_refl. reflexivity.
Qed.

Lemma filter_level_below (k : nat) (s : list Heading.t) :
  List.Forall (fun h => Heading.level h < k) s ->
  List.filter (fun h => Nat.eqb (Heading.level h) k) s = [].
Proof.
  intros Hs. induction Hs as [|h s Hh _ IH]; [reflexivity|].
  cbn. rewrite IH. destruct (Nat.eqb_spec (Heading.level h) k); [lia | reflexivity].
Qed.

Lemma heading_of_level (level : nat) (out : list Heading.t) (kept : list E) :
  Forall2 (Stated.heading_of driver level) out kept ->
  List.Forall (fun h => Heading.level h = level) out.
Proof.
  induction 1 as [|h element out kept Hh _ IH]; constructor; [|exact IH].
  destruct Hh as (w0 & w1 & w2 & text & id & _ & _ & _ & ->). reflexivity.
Qed.

(** The headings of every level are made of the elements of the level,
    in their order. *)
Lemma extractHeadings_in_document_order (w w' : W) (headings : list Heading.t) :
  extractHeadings driver w = (inr headings, w') ->
  forall level,
    Stated.headings_of_level driver level
      (List.filter (fun h => Nat.eqb (Heading.level h) level) headings).
Proof.
  intros Hrun.
  pose (J := fun (k : nat) (s : list Heading.t) =>
    List.Forall (fun h => Heading.level h < k) s
    /\ StronglySorted (fun a b => Heading.level a <= Heading.level b) s
    /\ forall level,
         Stated.headings_of_level driver level
           (List.filter (fun h => Nat.eqb (Heading.level h) level) s)).
  unfold extractHeadings in Hrun.
  apply scope_get_map_final in Hrun. rewrite final_state_swallow in Hrun.
  assert (Hmono : forall k s1, J k s1 -> J (Datatypes.S k) s1).
  { intros k s1 (Hlt & Hs1 & Hprov). split; [|split; assumption].
    eapply List.Forall_impl; [|exact Hlt]. cbv beta. intros h Hh. lia. }
  assert (Hfinal : J (1 + 6) (final_state
            (for_of (seq 1 6) (fun level =>
               let! elements := await (findElements driver
                                  (tagName ("h" +:+ show_Z (Z.of_nat level)))) in
               for_of elements (fun element =>
                 let! text := await (getText driver element) in
                 let! id := await (getAttribute driver element "id") in
                 when (nonblank text)
                   (modify (push {| Heading.level := level;
                                    Heading.text := trim text;
                                    Heading.id := or_undefined id |})))))%js [] w)).
  { apply (for_of_seq_advances J); [exact Hmono | |].
    2:{ split; [constructor|]. split; [constructor|]. intros level. left. reflexivity. }
    intros k s0 w0 Hs0. rewrite final_state_await.
    destruct (findElements driver (tagName ("h" +:+ show_Z (Z.of_nat k))) w0)
      as [[e|elements] w1] eqn:Hfind; [apply Hmono, Hs0|].
    destruct (for_of_collects (Stated.heading_of driver k) _ (heading_turn k)
                elements s0 w1) as (out & kept & -> & Hsub & Hall).
    destruct Hs0 as (Hlt & Hsorted & Hprov).
    pose proof (heading_of_level k out kept Hall) as Hout.
    split; [|split].
    - apply List.Forall_app. split.
      + eapply List.Forall_impl; [|exact Hlt]. cbv beta. intros h Hh. lia.
      + eapply List.Forall_impl; [|exact Hout]. cbv beta. intros h Hh. lia.
    - apply (ascending_app Heading.level k); [exact Hsorted | | exact Hout].
      eapply List.Forall_impl; [|exact Hlt]. cbv beta. intros h Hh. lia.
    - intros level. rewrite List.filter_app.
      destruct (Nat.eq_dec level k) as [->|Hne].
      + rewrite (filter_level_below k s0 Hlt), (filter_level_same k out Hout).
        cbn [app]. right. exists w0, w1, elements, kept. auto.
      + rewrite (filter_level_other level k out Hout Hne), app_nil_r. apply Hprov. }
  destruct Hfinal as (_ & Hs & Hprov). subst headings.
  rewrite (sort_ascending Heading.level _ Hs). exact Hprov.
Qed.

End HeadingOrder.

(** X9. extractHeadings always returns, and in what it returns every
    heading has a level from 1 to 6 and a text that is not empty and is
    trimmed; the levels ascend, headings of one level staying in document
    order: the headings are collected level by level, so the final sort
    finds them in order already. For every level, the headings of that
    level are made, one by one and in order, of some of the elements the
    session found for the tag of the level, in the order it found them:
    each holds the level, the trimmed text of its element, which was not
    blank, and the id of its element. *)
Theorem extractHeadings_ascending {W E : Type} (driver : WebDriver W E) (w : W) :
  exists headings w',
    ContentExtractor.extractHeadings driver w = (inr headings, w')
    /\ StronglySorted (fun a b => Heading.level a <= Heading.level b) headings
    /\ List.Forall (fun h => 1 <= Heading.level h <= 6
                             /\ Heading.text h <> ""
                             /\ JsString.trim (Heading.text h) = Heading.text h)
                   headings
    /\ forall level,
         Stated.headings_of_level driver level
           (List.filter (fun h => Nat.eqb (Heading.level h) level) headings).
Proof.
  destruct (extractHeadings_returns driver w) as (headings & w' & Hrun).
  exists headings, w'. split; [exact Hrun|].
  destruct (extractHeadings_collects driver w w' headings Hrun) as [Hsorted Hall].
  split; [exact Hsorted|]. split; [exact Hall|].
  exact (extractHeadings_in_document_order driver w w' headings Hrun).
Qed.

Section KeywordFacts.
Import JsString Effects ContentExtractor.
Context {W E : Type}.
Variable driver : WebDriver W E.

Lemma keywords_of_content (content : string) :
  List.Forall (fun k => k <> "" /\ trim k = k /\ includes k "," = false)
    (List.filter (fun k => 0 <? String.length k) (map trim (split "," content))).
Proof.
  apply List.Forall_forall. intros k Hk.
  apply filter_In in Hk as [Hin Hlen].
  apply in_map_iff in Hin as (piece & <- & Hpiece).
  split; [|split].
  - intros Hempty. rewrite Hempty in Hlen. discriminate.
  - apply trim_idem.
  - apply includes_char_false. intros Hc.
    apply trim_chars in Hc. exact (split_no_sep _ _ _ Hpiece Hc).
Qed.

Lemma extractKeywords_cases (w : W) :
  exists w', extractKeywords driver w = (inr [], w')
  \/ exists content,
       extractKeywords driver w
       = (inr (List.filter (fun k => 0 <? String.length k)
                 (map trim (split "," content))), w').
Proof.
  unfold extractKeywords, scope, bind, try_catch, await, ret.
  destruct (getMetaContent driver "keywords" w) as [[e|v] w1].
  - exists w1. left. reflexivity.
  - destruct (or_undefined v) as [content|].
    + exists w1. right. exists content. reflexivity.
    + exists w1. left. reflexivity.
Qed.

End KeywordFacts.

(** X10. extractKeywords always returns, and every keyword it returns is
    not empty, is trimmed and holds no comma. *)
Theorem extractKeywords_clean {W E : Type} (driver : WebDriver W E) (w : W) :
  exists keywords w',
    ContentExtractor.extractKeywords driver w = (inr keywords, w')
    /\ List.Forall (fun k => k <> ""
                             /\ JsString.trim k = k
                             /\ JsString.includes k "," = false) keywords.
Proof.
  destruct (extractKeywords_cases driver w) as (w' & [Hrun|(content & Hrun)]).
  - exists [], w'. split; [exact Hrun | constructor].
  - eexists _, w'. split; [exact Hrun | apply keywords_of_content].
Qed.

Section ListFacts.
Import JsString Effects ContentExtractor.
Local Open Scope js_scope.
Context {W E : Type}.
Variable driver : WebDriver W E.

(** Two parts of a body, each with its own invariant. *)
Lemma final_state_bind_two {S A B} (I1 I2 : S -> Prop)
    (c : T W S A) (f : A -> T W S B) (s : S) (w : W) :
  I1 s -> preserves I1 c -> (forall s', I1 s' -> I2 s') ->
  (forall a, preserves I2 (f a)) ->
  I2 (final_state (bind c f) s w).
Proof.
  intros Hs Hc H12 Hf. specialize (Hc s w Hs).
  unfold final_state, bind in *.
  destruct (c s w) as [[[e|a] s'] w']; simpl in *; [apply H12, Hc|].
  apply (Hf a s' w' (H12 _ Hc)).
Qed.

Lemma push_trimmed (text : string) (xs : list string) :
  nonblank text = true ->
  List.Forall (fun x => x <> "" /\ trim x = x) xs ->
  List.Forall (fun x => x <> "" /\ trim x = x) (push (trim text) xs).
Proof.
  intros Hnb Hxs. unfold push. apply List.Forall_app. split; [exact Hxs|].
  constructor; [|constructor]. split; [apply nonblank_trim, Hnb | apply trim_idem].
Qed.

Lemma extractParagraphs_keeps (w w' : W) (paragraphs : list string) :
  extractParagraphs driver w = (inr paragraphs, w') ->
  List.Forall (fun p => p <> "" /\ trim p = p) paragraphs.
Proof.
  apply scope_get_keeps; [constructor|].
  apply preserves_try_catch; [|intros ?; apply preserves_ret].
  apply preserves_bind; [apply preserves_await | intros elements].
  apply preserves_for_of; intros element.
  apply preserves_bind; [apply preserves_await | intros text].
  destruct (nonblank text) eqn:Enb; simpl; [|apply preserves_ret].
  apply preserves_when, preserves_modify. intros s. apply push_trimmed, Enb.
Qed.

Lemma listItemsOf_keeps (items : list E) (w w' : W) (listItems : list string) :
  listItemsOf driver items w = (inr listItems, w') ->
  List.Forall (fun x => x <> "" /\ trim x = x) listItems.
Proof.
  apply scope_get_keeps; [constructor|].
  apply preserves_for_of; intros item.
  apply preserves_bind; [apply preserves_await | intros text].
  destruct (nonblank text) eqn:Enb; simpl; [|apply preserves_ret].
  apply preserves_modify. intros s. apply push_trimmed, Enb.
Qed.

(** One of the two loops of [extractLists] keeps what holds of every
    block of its kind. *)
Lemma list_loop_keeps (kind : ListBlock.kind) (I : list ListBlock.t -> Prop)
    (elements : list E) :
  (forall items s,
     items <> [] -> List.Forall (fun x => x <> "" /\ trim x = x) items ->
     I s -> I (push {| ListBlock.type := kind; ListBlock.items := items |} s)) ->
  preserves I
    (for_of elements (fun el =>
       let! items := await (findElementsIn driver el (tagName "li")) in
       let! listItems := await (listItemsOf driver items) in
       when (0 <? length listItems)
         (modify (push {| ListBlock.type := kind;
                          ListBlock.items := listItems |})))%js).
Proof.
  intros Hpush.
  apply preserves_for_of; intros el.
  apply preserves_bind; [apply preserves_await | intros items].
  apply (preserves_bind_await I
           (fun listItems => List.Forall (fun x => x <> "" /\ trim x = x) listItems)).
  - intros w a w'. apply listItemsOf_keeps.
  - intros listItems Hitems.
    destruct listItems as [|x xs]; simpl; [apply preserves_ret|].
    apply preserves_modify. intros s. apply Hpush; [discriminate | exact Hitems].
Qed.

Lemma extractLists_keeps (w w' : W) (lists : list ListBlock.t) :
  extractLists driver w = (inr lists, w') ->
  List.Forall (fun block =>
       ListBlock.items block <> []
       /\ List.Forall (fun x => x <> "" /\ trim x = x) (ListBlock.items block)) lists
  /\ exists ordered unordered,
       lists = ordered ++ unordered
       /\ List.Forall (fun block => ListBlock.type block = ListBlock.ordered) ordered
       /\ List.Forall (fun block => ListBlock.type block = ListBlock.unordered) unordered.
Proof.
  intros Hrun.
  pose (good := fun blocks : list ListBlock.t =>
    List.Forall (fun block =>
       ListBlock.items block <> []
       /\ List.Forall (fun x => x <> "" /\ trim x = x) (ListBlock.items block)) blocks).
  pose (I1 := fun blocks : list ListBlock.t =>
    good blocks
    /\ List.Forall (fun block => ListBlock.type block = ListBlock.ordered) blocks).
  pose (I2 := fun blocks : list ListBlock.t =>
    good blocks
    /\ exists ordered unordered,
         blocks = ordered ++ unordered
         /\ List.Forall (fun block => ListBlock.type block = ListBlock.ordered) ordered
         /\ List.Forall (fun block => ListBlock.type block = ListBlock.unordered) unordered).
  unfold extractLists in Hrun.
  assert (Hgood : forall items x s,
            items <> [] -> List.Forall (fun x => x <> "" /\ trim x = x) items ->
            good s -> ListBlock.items x = items -> good (push x s)).
  { intros items x s Hne Hitems Hs Hx. unfold good, push.
    apply List.Forall_app. split; [exact Hs|].
    constructor; [|constructor]. rewrite Hx. split; assumption. }
  match type of Hrun with
  | scope _ (bind ?body _) _ = _ =>
      assert (Hfinal : I2 (final_state body [] w))
  end.
  2:{ unfold scope, bind, get, final_state in *.
      match type of Hrun with
      | context [try_catch ?b ?h [] w] => destruct (try_catch b h [] w) as [[[e|a] s'] w'']
      end; simpl in *; [discriminate|].
      inversion Hrun; subst. exact Hfinal. }
  rewrite final_state_swallow.
  unfold bind at 1.
  change (I2 (final_state
    (bind (await (findElements driver (tagName "ol"))) (fun olElements =>
       bind (for_of olElements (fun ol =>
               let! items := await (findElementsIn driver ol (tagName "li")) in
               let! listItems := await (listItemsOf driver items) in
               when (0 <? length listItems)
                 (modify (push {| ListBlock.type := ListBlock.ordered;
                                  ListBlock.items := listItems |})))%js)
            (fun _ =>
               let! ulElements := await (findElements driver (tagName "ul")) in
               for_of ulElements (fun ul =>
                 let! items := await (findElementsIn driver ul (tagName "li")) in
                 let! listItems := await (listItemsOf driver items) in
                 when (0 <? length listItems)
                   (modify (push {| ListBlock.type := ListBlock.unordered;
                                    ListBlock.items := listItems |})))%js))) [] w)).
  unfold final_state, bind at 1, await at 1.
  destruct (findElements driver (tagName "ol") w) as [[e|olElements] w1]; simpl.
  { split; [constructor|]. exists [], []. repeat split; constructor. }
  apply (final_state_bind_two I1 I2).
  - split; constructor.
  - apply list_loop_keeps. intros items s Hne Hitems [Hs Ho]. split.
    + apply (Hgood items); auto.
    + unfold push. apply List.Forall_app. split; [exact Ho|].
      constructor; [reflexivity | constructor].
  - intros s [Hs Ho]. split; [exact Hs|].
    exists s, []. rewrite app_nil_r. repeat split; [exact Ho | constructor].
  - intros _.
    apply preserves_bind; [apply preserves_await | intros ulElements].
    apply list_loop_keeps.
    intros items s Hne Hitems (Hs & os & us & -> & Ho & Hu). split.
    + apply (Hgood items); auto.
    + exists os, (push {| ListBlock.type := ListBlock.unordered;
                          ListBlock.items := items |} us).
      unfold push. rewrite app_assoc. repeat split; [exact Ho|].
      apply List.Forall_app. split; [exact Hu|].
      constructor; [reflexivity | constructor].
Qed.

End ListFacts.

(** X11. extractParagraphs always returns, and every paragraph it returns
    is not empty and is trimmed. *)
Theorem extractParagraphs_trimmed {W E : Type} (driver : WebDriver W E) (w : W) :
  exists paragraphs w',
    ContentExtractor.extractParagraphs driver w = (inr paragraphs, w')
    /\ List.Forall (fun p => p <> "" /\ JsString.trim p = p) paragraphs.
Proof.
  destruct (extractParagraphs_returns driver w) as (paragraphs & w' & Hrun).
  exists paragraphs, w'. split; [exact Hrun|].
  apply (extractParagraphs_keeps driver w w' paragraphs Hrun).
Qed.

(** X12. extractLists always returns; every list it returns has at least
    one item, every item is not empty and is trimmed, and the ordered
    lists all come before the unordered ones. *)
Theorem extractLists_nonempty_ordered_first {W E : Type}
    (driver : WebDriver W E) (w : W) :
  exists lists w',
    ContentExtractor.extractLists driver w = (inr lists, w')
    /\ List.Forall (fun block =>
         ListBlock.items block <> []
         /\ List.Forall (fun x => x <> "" /\ JsString.trim x = x)
              (ListBlock.items block)) lists
    /\ exists ordered unordered,
         lists = ordered ++ unordered
         /\ List.Forall (fun block => ListBlock.type block = ListBlock.ordered) ordered
         /\ List.Forall (fun block => ListBlock.type block = ListBlock.unordered)
              unordered.
Proof.
  destruct (extractLists_returns driver w) as (lists & w' & Hrun).
  exists lists, w'. split; [exact Hrun|].
  apply (extractLists_keeps driver w w' lists Hrun).
Qed.

Section TableFacts.
Import JsString Effects ContentExtractor.
Local Open Scope js_scope.
Context {W E : Type}.
Variable driver : WebDriver W E.

Lemma push_trim (text : string) (xs : list string) :
  List.Forall (fun x => trim x = x) xs ->
  List.Forall (fun x => trim x = x) (push (trim text) xs).
Proof.
  intros Hxs. unfold push. apply List.Forall_app. split; [exact Hxs|].
  constructor; [apply trim_idem | constructor].
Qed.

Lemma tableHeaders_keeps (table : E) (w w' : W) (headers : list string) :
  tableHeaders driver table w = (inr headers, w') ->
  List.Forall (fun x => trim x = x) headers.
Proof.
  apply scope_get_keeps; [constructor|].
  apply preserves_try_catch; [|intros ?; apply preserves_ret].
  apply preserves_bind; [apply preserves_await | intros headerElements].
  apply preserves_for_of; intros header.
  apply preserves_bind; [apply preserves_await | intros text].
  apply preserves_modify. intros s. apply push_trim.
Qed.

Lemma rowDataOf_keeps (cellElements : list E) (w w' : W) (rowData : list string) :
  rowDataOf driver cellElements w = (inr rowData, w') ->
  List.Forall (fun x => trim x = x) rowData.
Proof.
  apply scope_get_keeps; [constructor|].
  apply preserves_for_of; intros cell.
  apply preserves_bind; [apply preserves_await | intros text].
  apply preserves_modify. intros s. apply push_trim.
Qed.

Lemma tableRows_keeps (table : E) (w w' : W) (rows : list (list string)) :
  tableRows driver table w = (inr rows, w') ->
  List.Forall (fun row => row <> [] /\ List.Forall (fun x => trim x = x) row) rows.
Proof.
  apply scope_get_keeps; [constructor|].
  apply preserves_try_catch; [|intros ?; apply preserves_ret].
  apply preserves_bind; [apply preserves_await | intros rowElements].
  apply preserves_for_of; intros row.
  apply preserves_bind; [apply preserves_await | intros cellElements].
  apply (preserves_bind_await _ (fun rowData => List.Forall (fun x => trim x = x) rowData)).
  - intros w0 a w1. apply rowDataOf_keeps.
  - intros rowData Hrow.
    destruct rowData as [|x xs]; simpl; [apply preserves_ret|].
    apply preserves_modify. intros s Hs. unfold push.
    apply List.Forall_app. split; [exact Hs|].
    constructor; [|constructor]. split; [discriminate | exact Hrow].
Qed.

Lemma extractTables_keeps (w w' : W) (tables : list Table.t) :
  extractTables driver w = (inr tables, w') ->
  List.Forall (fun table =>
       Table.rows table <> []
       /\ List.Forall (fun row => row <> [] /\ List.Forall (fun x => trim x = x) row)
            (Table.rows table)
       /\ List.Forall (fun x => trim x = x) (Table.headers table)) tables.
Proof.
  apply scope_get_keeps; [constructor|].
  apply preserves_try_catch; [|intros ?; apply preserves_ret].
  apply preserves_bind; [apply preserves_await | intros tableElements].
  apply preserves_for_of; intros table.
  apply preserves_bind; [apply preserves_await | intros caption].
  apply (preserves_bind_await _ (fun headers => List.Forall (fun x => trim x = x) headers)).
  { intros w0 a w1. apply tableHeaders_keeps. }
  intros headers Hheaders.
  apply (preserves_bind_await _
           (fun rows => List.Forall
              (fun row => row <> [] /\ List.Forall (fun x => trim x = x) row) rows)).
  { intros w0 a w1. apply tableRows_keeps. }
  intros rows Hrows.
  destruct rows as [|r rs]; simpl; [apply preserves_ret|].
  apply preserves_modify. intros s Hs. unfold push.
  apply List.Forall_app. split; [exact Hs|].
  constructor; [|constructor]. simpl.
  split; [discriminate | split; [exact Hrows | exact Hheaders]].
Qed.

End TableFacts.

(** X13. extractTables always returns; every table it returns has at
    least one row, every row has at least one cell, and every cell and
    every header is trimmed. *)
Theorem extractTables_nonempty_rows {W E : Type} (driver : WebDriver W E) (w : W) :
  exists tables w',
    ContentExtractor.extractTables driver w = (inr tables, w')
    /\ List.Forall (fun table =>
         Table.rows table <> []
         /\ List.Forall (fun row => row <> []
                                    /\ List.Forall (fun x => JsString.trim x = x) row)
              (Table.rows table)
         /\ List.Forall (fun x => JsString.trim x = x) (Table.headers table)) tables.
Proof.
  destruct (extractTables_returns driver w) as (tables & w' & Hrun).
  exists tables, w'. split; [exact Hrun|].
  apply (extractTables_keeps driver w w' tables Hrun).
Qed.

Section FormFacts.
Import JsString Effects ContentExtractor.
Local Open Scope js_scope.
Context {W E : Type}.
Variable driver : WebDriver W E.

Lemma or_undefined_nonempty (v : option string) : or_undefined v <> Some "".
Proof.
  unfold or_undefined, truthy. destruct v as [s|]; [|discriminate].
  destruct (String.eqb_spec s ""); simpl; [discriminate | congruence].
Qed.

Lemma or_default_nonempty (v : option string) (d : string) :
  d <> "" -> or_default v d <> "".
Proof.
  intros Hd. unfold or_default. destruct v as [s|]; [|exact Hd].
  destruct (String.eqb_spec s ""); [exact Hd | assumption].
Qed.

Lemma fieldOptions_keeps (input : E) (w w' : W) (options : option (list string)) :
  fieldOptions driver input w = (inr options, w') ->
  List.Forall (fun x => x <> "" /\ trim x = x) (default [] options).
Proof.
  apply (scope_get_keeps
           (fun options => List.Forall (fun x => x <> "" /\ trim x = x) (default [] options)));
    [constructor|].
  apply preserves_try_catch; [|intros ?; apply preserves_ret].
  apply preserves_bind; [apply preserves_await | intros optionElements].
  apply preserves_bind; [apply preserves_modify; intros s _; constructor | intros _].
  apply preserves_for_of; intros option.
  apply preserves_bind; [apply preserves_await | intros text].
  destruct (nonblank text) eqn:Enb; simpl; [|apply preserves_ret].
  apply preserves_modify. intros s Hs. simpl. apply push_trimmed; assumption.
Qed.

Lemma formFields_keeps (inputElements : list E) (w w' : W) (fields : list FormField.t) :
  formFields driver inputElements w = (inr fields, w') ->
  List.Forall (fun field =>
       FormField.type field <> ""
       /\ FormField.name field <> Some ""
       /\ FormField.label field <> Some ""
       /\ FormField.placeholder field <> Some ""
       /\ (FormField.type field <> "select" -> FormField.options field = None)
       /\ List.Forall (fun x => x <> "" /\ trim x = x)
            (default [] (FormField.options field))) fields.
Proof.
  apply scope_get_keeps; [constructor|].
  apply preserves_for_of; intros input.
  apply preserves_bind; [apply preserves_await | intros typeAttr].
  apply preserves_bind; [apply preserves_await | intros name].
  apply preserves_bind; [apply preserves_await | intros placeholder].
  apply preserves_bind; [apply preserves_await | intros requiredAttr].
  apply preserves_bind; [apply preserves_await | intros label].
  destruct (String.eqb_spec (or_default typeAttr "text") "select") as [Hsel|Hsel].
  - apply (preserves_bind_await _
             (fun options => List.Forall (fun x => x <> "" /\ trim x = x)
                               (default [] options))).
    { intros w0 a w1. apply fieldOptions_keeps. }
    intros options Hoptions.
    apply preserves_modify. intros s Hs. unfold push.
    apply List.Forall_app. split; [exact Hs|].
    constructor; [|constructor]. simpl.
    repeat split; try apply or_undefined_nonempty; try exact Hoptions.
    + apply or_default_nonempty. discriminate.
    + intros Hno. contradiction.
  - apply preserves_ret_bind.
    apply preserves_modify. intros s Hs. unfold push.
    apply List.Forall_app. split; [exact Hs|].
    constructor; [|constructor]. simpl.
    repeat split; try apply or_undefined_nonempty; try constructor.
    apply or_default_nonempty. discriminate.
Qed.

Lemma extractForms_keeps (w w' : W) (forms : list Form.t) :
  extractForms driver w = (inr forms, w') ->
  List.Forall (fun form =>
       Form.action form <> Some ""
       /\ Form.method form <> Some ""
       /\ List.Forall (fun field =>
            FormField.type field <> ""
            /\ FormField.name field <> Some ""
            /\ FormField.label field <> Some ""
            /\ FormField.placeholder field <> Some ""
            /\ (FormField.type field <> "select" -> FormField.options field = None)
            /\ List.Forall (fun x => x <> "" /\ trim x = x)
                 (default [] (FormField.options field))) (Form.fields form)) forms.
Proof.
  apply scope_get_keeps; [constructor|].
  apply preserves_try_catch; [|intros ?; apply preserves_ret].
  apply preserves_bind; [apply preserves_await | intros formElements].
  apply preserves_for_of; intros form.
  apply preserves_bind; [apply preserves_await | intros action].
  apply preserves_bind; [apply preserves_await | intros method].
  apply preserves_bind; [apply preserves_await | intros inputElements].
  eapply preserves_bind_await.
  { intros w0 a w1. apply formFields_keeps. }
  intros fields Hfields.
  apply preserves_modify. intros s Hs. unfold push.
  apply List.Forall_app. split; [exact Hs|].
  constructor; [|constructor]. simpl.
  repeat split; try apply or_undefined_nonempty. exact Hfields.
Qed.

End FormFacts.

(** X14. extractForms always returns; in what it returns no action,
    method, field name, label or placeholder is the empty string (an empty
    one is left out), every field has a type that is not empty, only a
    field of type select has options, and every option is not empty and
    is trimmed. *)
Theorem extractForms_fields {W E : Type} (driver : WebDriver W E) (w : W) :
  exists forms w',
    ContentExtractor.extractForms driver w = (inr forms, w')
    /\ List.Forall (fun form =>
         Form.action form <> Some ""
         /\ Form.method form <> Some ""
         /\ List.Forall (fun field =>
              FormField.type field <> ""
              /\ FormField.name field <> Some ""
              /\ FormField.label field <> Some ""
              /\ FormField.placeholder field <> Some ""
              /\ (FormField.type field <> "select" -> FormField.options field = None)
              /\ List.Forall (fun x => x <> "" /\ JsString.trim x = x)
                   (default [] (FormField.options field))) (Form.fields form)) forms.
Proof.
  destruct (extractForms_returns driver w) as (forms & w' & Hrun).
  exists forms, w'. split; [exact Hrun|].
  apply (extractForms_keeps driver w w' forms Hrun).
Qed.

Section SocialFacts.
Import JsString Effects ContentExtractor.
Local Open Scope js_scope.
Context {W E : Type}.
Variable driver : WebDriver W E.

Lemma preserves_for_of_in {S X} (I : S -> Prop) (xs : list X)
    (body : X -> T W S unit) :
  (forall x, In x xs -> preserves I (body x)) -> preserves I (for_of xs body).
Proof.
  induction xs as [|x xs IH]; intros Hb; simpl.
  - apply preserves_ret.
  - apply preserves_bind; [apply Hb; left; reflexivity | intros _].
    apply IH. intros y Hy. apply Hb. right. exact Hy.
Qed.

Lemma or_undefined_some (v : option string) (h : string) :
  or_undefined v = Some h -> h <> "".
Proof.
  intros H Hh. subst h. exact (or_undefined_nonempty v H).
Qed.

Lemma extractSocialMedia_keeps (w w' : W) (socialMedia : gmap string string) :
  extractSocialMedia driver w = (inr socialMedia, w') ->
  map_Forall (fun platform href =>
       In platform (map fst socialSelectors) /\ href <> "") socialMedia.
Proof.
  apply scope_get_keeps; [apply map_Forall_empty|].
  apply preserves_try_catch; [|intros ?; apply preserves_ret].
  apply preserves_for_of_in. intros [platform selector] Hin.
  apply preserves_try_catch; [|intros ?; apply preserves_ret].
  apply preserves_bind; [apply preserves_await | intros element].
  apply preserves_bind; [apply preserves_await | intros href].
  destruct (or_undefined href) as [h|] eqn:Eh; [|apply preserves_ret].
  apply preserves_modify. intros s Hs.
  apply map_Forall_insert_2; [|exact Hs].
  split; [|apply (or_undefined_some href), Eh].
  apply (in_map fst) in Hin. exact Hin.
Qed.

End SocialFacts.

(** X15. extractSocialMedia always returns; the object it returns has
    keys among facebook, twitter, instagram, linkedin, youtube and tiktok
    only, and no value of it is the empty string. *)
Theorem extractSocialMedia_platforms {W E : Type} (driver : WebDriver W E) (w : W) :
  exists socialMedia w',
    ContentExtractor.extractSocialMedia driver w = (inr socialMedia, w')
    /\ map_Forall (fun platform href =>
         In platform ["facebook"; "twitter"; "instagram"; "linkedin"; "youtube"; "tiktok"]
         /\ href <> "") socialMedia.
Proof.
  destruct (extractSocialMedia_returns driver w) as (socialMedia & w' & Hrun).
  exists socialMedia, w'. split; [exact Hrun|].
  apply (extractSocialMedia_keeps driver w w' socialMedia Hrun).
Qed.

(* --------------------------------------------------------------------- *)
(** ** Image files, further                                                *)
(* --------------------------------------------------------------------- *)

Section FilenameMore.
Import JsString Stated Effects ContentExtractor.
Context {W Json : Type}.
Variable rt : Runtime W Json.

Lemma last_segment_in_split (pathname : string) :
  In (last_segment pathname) (split "/" pathname).
Proof.
  unfold last_segment. destruct (split_shape "/" pathname) as [Hn Hs].
  destruct (after_last "/" pathname) as [e|].
  - destruct (Hs e eq_refl) as (piece & pieces & ->). simpl.
    right. apply in_or_app. right. left. reflexivity.
  - rewrite (Hn eq_refl). left. reflexivity.
Qed.

Lemma last_segment_no_slash (pathname : string) :
  includes (last_segment pathname) "/" = false.
Proof.
  apply includes_char_false.
  exact (split_no_sep _ _ _ (last_segment_in_split pathname)).
Qed.

Lemma includes_char_app (c : ascii) (a b : string) :
  includes a (String c "") = false -> includes b (String c "") = false ->
  includes (a +:+ b) (String c "") = false.
Proof.
  rewrite !includes_char_false, list_ascii_of_string_app.
  intros Ha Hb Hin. apply in_app_or in Hin. tauto.
Qed.

Lemma app_nonempty (a b : string) : a <> "" -> a +:+ b <> "".
Proof. destruct a; [congruence | discriminate]. Qed.

Lemma generateImageFilename_safe (url : string) (format : option string)
    (u : URL.t) (w : W) :
  URL_parse rt url = Some u ->
  exists name,
    generateImageFilename rt url format w = (inr name, w)
    /\ name = (let segment := last_segment (URL.pathname u) in
               let name := if String.eqb segment "" then "image" else segment in
               match or_undefined format with
               | Some fmt => if includes name "." then name else name +:+ "." +:+ fmt
               | None => name
               end)
    /\ name <> ""
    /\ (includes (default "" format) "/" = false -> includes name "/" = false).
Proof.
  intros Hu. eexists. split; [apply generateImageFilename_name, Hu|].
  split; [reflexivity|]. cbv zeta.
  set (segment := last_segment (URL.pathname u)).
  assert (Hname : (if String.eqb segment "" then "image" else segment) <> ""
                  /\ includes (if String.eqb segment "" then "image" else segment) "/"
                     = false).
  { destruct (String.eqb_spec segment "") as [He|He].
    - split; [discriminate | reflexivity].
    - split; [exact He | apply last_segment_no_slash]. }
  destruct Hname as [Hne Hslash].
  set (name := if String.eqb segment "" then "image" else segment) in *.
  destruct (or_undefined format) as [fmt|] eqn:Ef; [|tauto].
  destruct (includes name "."); [tauto|].
  split; [apply app_nonempty, Hne|].
  intros Hfmt. apply includes_char_app; [exact Hslash|].
  apply includes_char_app; [reflexivity|].
  unfold or_undefined in Ef. destruct (truthy format); [|discriminate].
  subst format. exact Hfmt.
Qed.

End FilenameMore.

(** X16. For a URL that parses, generateImageFilename returns without
    reading the clock or changing anything; the name depends on the last
    path segment and the format only, so two images whose URLs end in the
    same segment get the same name and are written to the same path; the
    name is never empty and, the format holding no slash, holds no
    slash. *)
Theorem generateImageFilename_same_segment_same_name {W Json : Type}
    (rt : Runtime W Json) (url1 url2 : string) (format : option string)
    (u1 u2 : URL.t) (w1 w2 : W) :
  URL_parse rt url1 = Some u1 ->
  URL_parse rt url2 = Some u2 ->
  Stated.last_segment (URL.pathname u1) = Stated.last_segment (URL.pathname u2) ->
  exists name,
    ContentExtractor.generateImageFilename rt url1 format w1 = (inr name, w1)
    /\ ContentExtractor.generateImageFilename rt url2 format w2 = (inr name, w2)
    /\ name <> ""
    /\ (JsString.includes (default "" format) "/" = false ->
        JsString.includes name "/" = false).
Proof.
  intros H1 H2 Hseg.
  destruct (generateImageFilename_safe rt url1 format u1 w1 H1)
    as (name1 & Hrun1 & Hn1 & Hne & Hslash).
  destruct (generateImageFilename_safe rt url2 format u2 w2 H2)
    as (name2 & Hrun2 & Hn2 & _ & _).
  exists name1. split; [exact Hrun1|]. split; [|split; assumption].
  rewrite Hrun2. rewrite Hn1, Hn2. cbv zeta. rewrite Hseg. reflexivity.
Qed.

(** X16 for two logos on different hosts. *)
Lemma generateImageFilename_same_segment_same_name_witness :
  exists name,
    ContentExtractor.generateImageFilename (Samples.runtime Regex.Optional [])
      "https://x.com/a/logo.png" (Some "png") [] = (inr name, [])
    /\ ContentExtractor.generateImageFilename (Samples.runtime Regex.Optional [])
         "https://y.com/b/logo.png" (Some "png") [] = (inr name, [])
    /\ name <> ""
    /\ (JsString.includes (default "" (Some "png")) "/" = false ->
        JsString.includes name "/" = false).
Proof.
  eapply (generateImageFilename_same_segment_same_name
            (Samples.runtime Regex.Optional [])
            "https://x.com/a/logo.png" "https://y.com/b/logo.png" (Some "png")).
  - vm_compute. reflexivity.
  - vm_compute. reflexivity.
  - vm_compute. reflexivity.
Defined.

Section DownloadMore.
Import JsString Effects ContentExtractor.
Local Open Scope js_scope.
Context {W Json : Type}.
Variable rt : Runtime W Json.
Variable downloadDir : string.

(** What one turn of the loop of [downloadImages] does for [image]: it
    never throws, and appends nothing, the record of a failure, or the
    record of a download. *)
Lemma download_turn (image : ImageData.t) (s : list ImageData.t) (w : W) :
  exists ext w',
    try_catch
      (let! response := await (fetch rt (ImageData.src image)) in
       when (Response.ok response)
         (let! buffer := await (Response.buffer response) in
          let! filename := await (generateImageFilename rt (ImageData.src image)
                                    (ImageData.format image)) in
          await (fs_writeFile rt (path_join rt downloadDir filename) buffer) >>
          modify (push (image_downloaded image (length buffer)
                          (path_join rt downloadDir filename)))))
      (fun _ => modify (push (image_failed image))) s w
    = (inr tt, s ++ ext, w')
    /\ (ext = []
        \/ ext = [image_failed image]
        \/ exists size filename,
             ext = [image_downloaded image size (path_join rt downloadDir filename)]).
Proof.
  unfold try_catch, bind, await, when, modify, ret, push.
  destruct (fetch rt (ImageData.src image) w) as [[e|response] w1].
  { eexists _, _. split; [reflexivity|]. right; left; reflexivity. }
  destruct (Response.ok response).
  2:{ exists [], w1. rewrite app_nil_r. split; [reflexivity | left; reflexivity]. }
  destruct (Response.buffer response w1) as [[e|buffer] w2].
  { eexists _, _. split; [reflexivity|]. right; left; reflexivity. }
  destruct (generateImageFilename rt (ImageData.src image) (ImageData.format image) w2)
    as [[e|filename] w3].
  { eexists _, _. split; [reflexivity|]. right; left; reflexivity. }
  destruct (fs_writeFile rt (path_join rt downloadDir filename) buffer w3) as [[e|[]] w4].
  { eexists _, _. split; [reflexivity|]. right; left; reflexivity. }
  eexists _, _. split; [reflexivity|]. right; right. eauto.
Qed.

Lemma download_loop (images : list ImageData.t) :
  forall (s : list ImageData.t) (w : W),
  exists out kept w',
    for_of images (fun image =>
      try_catch
        (let! response := await (fetch rt (ImageData.src image)) in
         when (Response.ok response)
           (let! buffer := await (Response.buffer response) in
            let! filename := await (generateImageFilename rt (ImageData.src image)
                                      (ImageData.format image)) in
            await (fs_writeFile rt (path_join rt downloadDir filename) buffer) >>
            modify (push (image_downloaded image (length buffer)
                            (path_join rt downloadDir filename)))))
        (fun _ => modify (push (image_failed image)))) s w
    = (inr tt, s ++ out, w')
    /\ sublist kept images
    /\ Forall2 (fun record image =>
         record = image_failed image
         \/ exists size filename,
              record = image_downloaded image size (path_join rt downloadDir filename))
         out kept.
Proof.
  induction images as [|image images IH]; intros s w.
  - exists [], [], w. rewrite app_nil_r. split; [reflexivity|].
    split; constructor.
  - cbn [for_of]. unfold bind at 1. cbv beta.
    destruct (download_turn image s w) as (ext & w1 & -> & Hext).
    destruct (IH (s ++ ext) w1) as (out & kept & w2 & -> & Hsub & Hall).
    rewrite <- app_assoc.
    destruct Hext as [->|[->|(size & filename & ->)]].
    + exists out, kept, w2. split; [reflexivity|]. split; [|exact Hall].
      apply sublist_cons, Hsub.
    + eexists _, (image :: kept), w2. split; [reflexivity|].
      split; [apply sublist_skip, Hsub|]. constructor; [left; reflexivity | exact Hall].
    + eexists _, (image :: kept), w2. split; [reflexivity|].
      split; [apply sublist_skip, Hsub|]. constructor; [right; eauto | exact Hall].
Qed.

End DownloadMore.

(** X17. downloadImages always returns. Its records stand, in order,
    for some of the given images (none twice, none that was not given):
    each is the image with downloaded = false, or the image with
    downloaded = true, a size and a path in the download directory. So
    there are never more records than images; and when the directory
    cannot be made there are none. *)
Theorem downloadImages_records {W Json : Type} (rt : Runtime W Json)
    (images : list ImageData.t) (downloadDir : string) (w : W) :
  exists records kept w',
    ContentExtractor.downloadImages rt images downloadDir w = (inr records, w')
    /\ sublist kept images
    /\ Forall2 (fun record image =>
         record = ContentExtractor.image_failed image
         \/ exists size filename,
              record = ContentExtractor.image_downloaded image size
                         (path_join rt downloadDir filename))
         records kept
    /\ length records <= length images
    /\ (forall e w1, fs_mkdir rt downloadDir w = (inl e, w1) -> records = []).
Proof.
  unfold ContentExtractor.downloadImages, Effects.scope.
  unfold Effects.bind at 1. unfold Effects.try_catch at 1.
  unfold Effects.bind at 1. unfold Effects.await at 1.
  destruct (fs_mkdir rt downloadDir w) as [[e|[]] w1].
  - exists [], [], w1. split; [reflexivity|]. split; [apply sublist_nil_l|].
    split; [constructor|]. split; [simpl; lia | reflexivity].
  - destruct (download_loop rt downloadDir images [] w1)
      as (out & kept & w2 & Hrun & Hsub & Hall).
    cbv zeta. rewrite Hrun. exists out, kept, w2. split; [reflexivity|].
    split; [exact Hsub|]. split; [exact Hall|]. split.
    + rewrite (Forall2_length _ _ _ Hall). apply sublist_length, Hsub.
    + intros e' w1' [=].
Qed.

(* --------------------------------------------------------------------- *)
(** ** cleanText                                                           *)
(* --------------------------------------------------------------------- *)

Section CleanFacts.
Import JsString Regex ContentExtractor.

(** The greedy part of [p+] after its first character: it stops at the
    first character outside the class, or at the end. *)
Lemma optional_Class (p : ascii -> bool) (optional : nat -> state -> option state) :
  optional
  = (fix optional (budget : nat) (x : state) {struct budget} : option state :=
       match budget with
       | 0 => Some x
       | S budget' =>
           match run (Class p)
                   (fun y => if length (rest y) =? length (rest x) then None
                             else optional budget' y) x
           with
           | Some z => Some z
           | None => Some x
           end
       end) ->
  forall (budget : nat) (y : state),
  length (rest y) <= budget ->
  exists taken tail y',
    rest y = taken ++ tail
    /\ List.Forall (fun c => p c = true) taken
    /\ match tail with [] => True | d :: _ => p d = false end
    /\ rest y' = tail
    /\ optional budget y = Some y'.
Proof.
  intros Hdef.
  assert (Hzero : forall y, optional 0 y = Some y) by (rewrite Hdef; reflexivity).
  assert (Hstep : forall budget y,
            optional (S budget) y
            = match run (Class p)
                      (fun z => if length (rest z) =? length (rest y) then None
                                else optional budget z) y
              with
              | Some z => Some z
              | None => Some y
              end) by (rewrite Hdef; reflexivity).
  clear Hdef.
  induction budget as [|budget IH]; intros y Hlen.
  - exists [], [], y. destruct (rest y) eqn:Ey; [|simpl in Hlen; lia].
    rewrite Hzero. repeat split; auto.
  - rewrite Hstep. cbn [run].
    destruct (rest y) as [|c t] eqn:Ey.
    + exists [], [], y. repeat split; auto.
    + destruct (p c) eqn:Epc.
      * destruct (IH {| prev := Some c; rest := t |})
          as (run0 & tail & y' & Hr & Hall & Htail & Hy' & Hopt).
        { simpl in *. lia. }
        exists (c :: run0), tail, y'. simpl in Hr. subst t.
        split; [reflexivity|]. split; [constructor; assumption|].
        split; [exact Htail|]. split; [exact Hy'|].
        cbn [rest].
        replace (length (run0 ++ tail) =? length (c :: run0 ++ tail)) with false
          by (symmetry; apply Nat.eqb_neq; simpl; lia).
        rewrite Hopt. reflexivity.
      * exists [], (c :: t), y. rewrite Ey. repeat split; auto.
Qed.

Lemma exec_Plus_Class (p : ascii -> bool) (x : state) :
  match rest x with
  | [] => exec (Plus (Class p)) x = None
  | c :: t =>
      if p c
      then exists taken tail y',
             t = taken ++ tail
             /\ List.Forall (fun c => p c = true) taken
             /\ match tail with [] => True | d :: _ => p d = false end
             /\ rest y' = tail
             /\ exec (Plus (Class p)) x = Some y'
      else exec (Plus (Class p)) x = None
  end.
Proof.
  unfold exec, Plus.
  destruct (rest x) as [|c t] eqn:Ex.
  - cbn [run]. rewrite Ex. reflexivity.
  - destruct (p c) eqn:Epc.
    + destruct (optional_Class p _ eq_refl (length t) {| prev := Some c; rest := t |}
                  (le_n _))
        as (run0 & tail & y' & Hr & Hall & Htail & Hy' & Hopt).
      exists run0, tail, y'.
      split; [exact Hr|]. split; [exact Hall|]. split; [exact Htail|].
      split; [exact Hy'|].
      cbn [run]. rewrite Ex, Epc. exact Hopt.
    + cbn [run]. rewrite Ex, Epc. reflexivity.
Qed.

Lemma squeeze_run (taken tail : list ascii) :
  List.Forall (fun c => is_space c = true) taken ->
  match tail with [] => True | d :: _ => is_space d = false end ->
  Plain.squeeze true (taken ++ tail) = Plain.squeeze false tail.
Proof.
  intros Hrun Htail. induction Hrun as [|c taken Hc _ IH]; simpl.
  - destruct tail as [|d tail]; [reflexivity|]. simpl. rewrite Htail. reflexivity.
  - rewrite Hc. exact IH.
Qed.

(** Replacing [\s+] by one space collapses the white space. *)
Lemma substitute_spaces : forall (fuel : nat) (x : state),
  length (rest x) < fuel ->
  substitute fuel (Plus (Class is_space)) [" "%char] x = Plain.squeeze false (rest x).
Proof.
  induction fuel as [|fuel IH]; intros x Hlen; [lia|].
  cbn [substitute].
  pose proof (exec_Plus_Class is_space x) as Hexec.
  destruct (rest x) as [|c t] eqn:Ex.
  - rewrite Hexec. reflexivity.
  - destruct (is_space c) eqn:Ec.
    + destruct Hexec as (run0 & tail & y' & -> & Hall & Htail & Hy' & ->).
      rewrite Hy'.
      replace (length tail =? length (c :: run0 ++ tail)) with false
        by (symmetry; apply Nat.eqb_neq; simpl; rewrite length_app; lia).
      rewrite IH by (rewrite Hy'; simpl in Hlen; rewrite length_app in Hlen; lia).
      rewrite Hy'. simpl. rewrite Ec. rewrite squeeze_run by assumption. reflexivity.
    + rewrite Hexec. rewrite IH by (simpl in *; lia).
      simpl. rewrite Ec. reflexivity.
Qed.

Lemma squeeze_no_LF (in_run : bool) (cs : list ascii) :
  List.Forall (fun c => Ascii.eqb LF c = false) (Plain.squeeze in_run cs).
Proof.
  revert in_run. induction cs as [|c t IH]; intros in_run; cbn [Plain.squeeze];
    [constructor|].
  destruct (is_space c) eqn:Ec.
  - destruct in_run; [apply IH | constructor; [reflexivity | apply IH]].
  - constructor; [|apply IH].
    destruct (Ascii.eqb LF c) eqn:E; [|reflexivity].
    apply Ascii.eqb_eq in E. subst c. vm_compute in Ec. discriminate.
Qed.

Lemma squeeze_only_blank (c : ascii) (cs : list ascii) :
  is_space c = true ->
  forall in_run, In c (Plain.squeeze in_run cs) -> c = " "%char.
Proof.
  intros Hsp. induction cs as [|d t IH]; intros in_run; cbn [Plain.squeeze]; [intros []|].
  destruct (is_space d) eqn:Ed.
  - destruct in_run; [apply IH|]. intros [<-|Hin]; [reflexivity | exact (IH _ Hin)].
  - intros [<-|Hin]; [congruence | exact (IH _ Hin)].
Qed.

(** Where no line feed is left, the blank-line pattern matches nowhere. *)
Lemma substitute_blank_lines (replacement : list ascii) :
  forall (fuel : nat) (x : state),
  List.Forall (fun c => Ascii.eqb LF c = false) (rest x) ->
  length (rest x) < fuel ->
  substitute fuel (Seqs [Chr LF; Star (Class is_space); Chr LF]) replacement x = rest x.
Proof.
  induction fuel as [|fuel IH]; intros x Hall Hlen; [lia|].
  cbn [substitute].
  assert (Hexec : exec (Seqs [Chr LF; Star (Class is_space); Chr LF]) x = None).
  { unfold exec. cbn [Seqs].
    change (run (Chr LF) (run (Seq (Star (Class is_space)) (Chr LF)) Some) x = None).
    unfold Chr at 1. cbn [run].
    destruct (rest x) as [|c t]; [reflexivity|].
    apply Forall_inv in Hall. rewrite Hall. reflexivity. }
  rewrite Hexec.
  destruct (rest x) as [|c t] eqn:Ex; [reflexivity|].
  f_equal. rewrite IH; [reflexivity | | simpl in *; lia].
  apply Forall_inv_tail in Hall. exact Hall.
Qed.

Lemma length_list_ascii_of_string (s : string) :
  length (list_ascii_of_string s) = String.length s.
Proof. induction s as [|c s IH]; simpl; [reflexivity | by rewrite IH]. Qed.

Lemma replace_spaces (text : string) :
  replace_all (Plus (Class is_space)) " " text
  = string_of_list_ascii (Plain.squeeze false (list_ascii_of_string text)).
Proof.
  unfold replace_all. f_equal.
  apply (substitute_spaces _ {| prev := None; rest := list_ascii_of_string text |}).
  simpl. rewrite length_list_ascii_of_string. lia.
Qed.

Lemma replace_blank_lines (text : string) :
  List.Forall (fun c => Ascii.eqb LF c = false) (list_ascii_of_string text) ->
  replace_all (Seqs [Chr LF; Star (Class is_space); Chr LF]) (String LF "") text = text.
Proof.
  intros Hall. unfold replace_all.
  rewrite (substitute_blank_lines _ _ {| prev := None; rest := list_ascii_of_string text |});
    [apply string_of_list_ascii_of_string | exact Hall |].
  simpl. rewrite length_list_ascii_of_string. lia.
Qed.

End CleanFacts.

(** X18. cleanText collapses every run of white space to one space and
    trims the ends. Its second replacement, of blank lines by one line
    feed, never changes anything, the first having left no line feed; so
    no line feed, tab or other white space than the space is in the
    result, and no line structure of the text survives. *)
Theorem cleanText_collapses (text : string) :
  ContentExtractor.cleanText text = Plain.collapsed text
  /\ Regex.replace_all
       (Regex.Seqs [Regex.Chr ContentExtractor.LF;
                    Regex.Star (Regex.Class JsString.is_space);
                    Regex.Chr ContentExtractor.LF])
       (String ContentExtractor.LF "")
       (Regex.replace_all (Regex.Plus (Regex.Class JsString.is_space)) " " text)
     = Regex.replace_all (Regex.Plus (Regex.Class JsString.is_space)) " " text
  /\ List.Forall (fun c => JsString.is_space c = true -> c = " "%char)
       (list_ascii_of_string (ContentExtractor.cleanText text)).
Proof.
  assert (Hsecond :
    Regex.replace_all
       (Regex.Seqs [Regex.Chr ContentExtractor.LF;
                    Regex.Star (Regex.Class JsString.is_space);
                    Regex.Chr ContentExtractor.LF])
       (String ContentExtractor.LF "")
       (Regex.replace_all (Regex.Plus (Regex.Class JsString.is_space)) " " text)
     = Regex.replace_all (Regex.Plus (Regex.Class JsString.is_space)) " " text).
  { apply replace_blank_lines. rewrite replace_spaces.
    rewrite list_ascii_of_string_of_list_ascii. apply squeeze_no_LF. }
  assert (Hclean : ContentExtractor.cleanText text = Plain.collapsed text).
  { unfold ContentExtractor.cleanText, Plain.collapsed.
    rewrite Hsecond, replace_spaces. reflexivity. }
  split; [exact Hclean|]. split; [exact Hsecond|].
  rewrite Hclean. unfold Plain.collapsed.
  apply List.Forall_forall. intros c Hc Hsp.
  apply trim_chars in Hc. rewrite list_ascii_of_string_of_list_ascii in Hc.
  exact (squeeze_only_blank c _ Hsp false Hc).
Qed.

(* --------------------------------------------------------------------- *)
(** ** The scraper and the route, further                                  *)
(* --------------------------------------------------------------------- *)

Section ResultFacts.
Import JsString Effects ContentExtractor SeleniumScraper.
Local Open Scope js_scope.
Context {W E Json : Type}.
Variable rt : Runtime W Json.
Variable driver : WebDriver W E.
Variable config : ScrapingConfig.t.

Lemma extractAll_fresh (baseUrl : string) (w w' : W) (c : ExtractedContent.t Json) :
  extractAll rt driver baseUrl w = (inr c, w') ->
  ExtractedContent.downloadedImages c = None
  /\ ExtractedContent.captchaDetected c = None
  /\ ExtractedContent.timestamp c = None
  /\ ExtractedContent.language _ c <> ""
  /\ ExtractedContent.cleanedText _ c = cleanText (ExtractedContent.textContent _ c).
Proof.
  unfold extractAll. intros Hrun. apply scope_inr in Hrun as (s1 & Hrun).
  repeat bind_step Hrun.
  apply ret_inr in Hrun. subst c. cbn.
  repeat split. apply or_default_nonempty. discriminate.
Qed.





End ResultFacts.


(** scrapeUrl does return: without the anti-bot measures, on the sample
    page with two images, of which the network serves the first and
    refuses the second, one path is recorded and one image record is
    left; and with no image asked for, downloadedImages stays undefined
    and the two records of extractAll are kept. *)
Example scrapeUrl_gallery :
  (exists content s' w',
     SeleniumScraper.scrapeUrl
       (Samples.runtime Regex.Optional
          [("https://x.com/img/Logo.PNG", inr (true, list_ascii_of_string "PNG"));
           ("https://cdn.y.com/a/banner.jpeg?v=2", inr (false, []))])
       (Samples.session Samples.galleryPage) (Samples.plainConfig true)
       "https://x.com/" Route.fresh []
     = (inr content, s', w')
     /\ ExtractedContent.downloadedImages content = Some [Some "downloads/Logo.PNG"]
     /\ length (ExtractedContent.images content) = 1)
  /\ (exists content s' w',
        SeleniumScraper.scrapeUrl (Samples.runtime Regex.Optional [])
          (Samples.session Samples.galleryPage) (Samples.plainConfig false)
          "https://x.com/" Route.fresh []
        = (inr content, s', w')
        /\ ExtractedContent.downloadedImages content = None
        /\ length (ExtractedContent.images content) = 2).
Proof.
  split; eexists _, _, _; (split; [vm_compute; reflexivity|]); split; reflexivity.
Qed.

(** X20. The POST route answers 400 exactly when the request has no url
    (or an empty one) or one that does not parse; it then answers with
    the matching message, starts no browser session and does nothing
    beyond reading the request. When reading the request throws, it
    answers 500 with that error as the details. When the url parses, the
    route runs scrapeUrl on a scraper without a session, with the url and
    the configuration of the request, and its answer is the outcome of
    that run: 200 with what scrapeUrl returned, once quit has returned,
    and otherwise 500 with the error as the details, the error of
    scrapeUrl or, when quit threw, the error of quit. *)
Theorem POST_validation {W E Json : Type}
    (rt : Runtime W Json) (driver : WebDriver W E)
    (request_json : Effects.M W (option string * ScrapingConfig.t)) (w : W) :
  match request_json w with
  | (inl e, w1) =>
      Route.POST rt driver request_json w
      = (inr ({| Route.status := 500;
                 Route.json := Route.ErrorBody "Scraping failed" (Some e) |},
              [SeleniumScraper.Failed e]), w1)
  | (inr (url, config), w1) =>
      match JsString.or_undefined url with
      | None =>
          Route.POST rt driver request_json w
          = (inr ({| Route.status := 400;
                     Route.json := Route.ErrorBody "URL is required" None |}, []), w1)
      | Some url' =>
          match URL_parse rt url' with
          | None =>
              Route.POST rt driver request_json w
              = (inr ({| Route.status := 400;
                         Route.json := Route.ErrorBody "Invalid URL format" None |}, []),
                 w1)
          | Some _ =>
              exists response events w',
                Route.POST rt driver request_json w = (inr (response, events), w')
                /\ Route.status response <> 400
                /\ events <> []
                /\ match SeleniumScraper.scrapeUrl rt driver config url' Route.fresh w1 with
                   | (inr results, _, w2) =>
                       match quit driver w2 with
                       | (inr _, _) =>
                           response = {| Route.status := 200;
                                         Route.json := Route.Results results |}
                       | (inl e', _) =>
                           response
                           = {| Route.status := 500;
                                Route.json := Route.ErrorBody "Scraping failed" (Some e') |}
                       end
                   | (inl e, s2, w2) =>
                       response
                       = {| Route.status := 500;
                            Route.json := Route.ErrorBody "Scraping failed" (Some e) |}
                       \/ exists e' w3,
                            SeleniumScraper.this_driver s2 = true
                            /\ quit driver w2 = (inl e', w3)
                            /\ response
                               = {| Route.status := 500;
                                    Route.json :=
                                      Route.ErrorBody "Scraping failed" (Some e') |}
                   end
          end
      end
  end.
Proof.
  pose proof (POST_outcome rt driver request_json w) as Hpost.
  destruct (request_json w) as [[e|[url config]] w1]; [exact Hpost|].
  destruct (JsString.or_undefined url) as [url'|]; [|exact Hpost].
  destruct (URL_parse rt url') as [parsed|]; [|exact Hpost].
  destruct (SeleniumScraper.scrapeUrl rt driver config url' Route.fresh w1)
    as [[[e|results] s2] w2].
  - destruct Hpost as [[_ ->]|[Hs2 Hpost]].
    + eexists _, _, _. split; [reflexivity|].
      split; [discriminate|]. split; [discriminate|]. left. reflexivity.
    + destruct (quit driver w2) as [[e'|[]] w3] eqn:Hquit; rewrite Hpost;
        eexists _, _, _; (split; [reflexivity|]);
        (split; [discriminate|]); (split; [discriminate|]).
      * right. exists e', w3. auto.
      * left. reflexivity.
  - destruct Hpost as [_ Hpost].
    destruct (quit driver w2) as [[e'|[]] w3]; rewrite Hpost;
      eexists _, _, _; (split; [reflexivity|]);
      (split; [discriminate|]); (split; [discriminate|]); reflexivity.
Qed.

Section CaptchaFacts.
Import JsString Effects SeleniumScraper.
Local Open Scope js_scope.
Context {W E : Type}.
Variable driver : WebDriver W E.

Lemma firstCaptcha_found (selectors : list string) :
  forall (s : state) (w : W),
  exists found w',
    firstCaptcha driver selectors s w = (inr found, s, w')
    /\ (found = true ->
        exists selector w0 element elements w1,
          In selector selectors
          /\ findElements driver (css selector) w0 = (inr (element :: elements), w1))
    /\ ((forall selector w0, In selector selectors ->
           match findElements driver (css selector) w0 with
           | (inr (_ :: _), _) => False
           | _ => True
           end) -> found = false).
Proof.
  induction selectors as [|selector selectors IH]; intros s w.
  - exists false, w. split; [reflexivity|]. split; [discriminate | reflexivity].
  - cbn [firstCaptcha]. unfold bind at 1, try_catch at 1. rewrite bind_await.
    destruct (findElements driver (css selector) w) as [[e|elements] w1] eqn:Efind.
    + unfold ret at 1.
      destruct (IH s w1) as (found & w2 & -> & Htrue & Hfalse).
      exists found, w2. split; [reflexivity|]. split.
      * intros Hf. destruct (Htrue Hf) as (sel & w0 & el & els & w3 & Hin & Hrun).
        exists sel, w0, el, els, w3. split; [right; exact Hin | exact Hrun].
      * intros Hnone. apply Hfalse. intros sel w0 Hin. apply Hnone. right. exact Hin.
    + unfold ret at 1. destruct elements as [|element elements]; cbn [length Nat.ltb Nat.leb].
      * destruct (IH s w1) as (found & w2 & -> & Htrue & Hfalse).
        exists found, w2. split; [reflexivity|]. split.
        -- intros Hf. destruct (Htrue Hf) as (sel & w0 & el & els & w3 & Hin & Hrun).
           exists sel, w0, el, els, w3. split; [right; exact Hin | exact Hrun].
        -- intros Hnone. apply Hfalse. intros sel w0 Hin. apply Hnone. right. exact Hin.
      * exists true, w1. split; [reflexivity|]. split.
        -- intros _. exists selector, w, element, elements, w1.
           split; [left; reflexivity | exact Efind].
        -- intros Hnone. specialize (Hnone selector w (or_introl eq_refl)).
           rewrite Efind in Hnone. contradiction.
Qed.

End CaptchaFacts.

(** X21. detectCaptcha never throws and assigns nothing. Without a
    session it answers false and looks nothing up. It answers true only
    when one of the nine selectors found at least one element; a lookup
    that throws counts as finding nothing, so when every lookup throws or
    finds nothing the answer is false. *)
Theorem detectCaptcha_lookups {W E : Type} (driver : WebDriver W E)
    (s : SeleniumScraper.state) (w : W) :
  exists found w',
    SeleniumScraper.detectCaptcha driver s w = (inr found, s, w')
    /\ (SeleniumScraper.this_driver s = false -> found = false /\ w' = w)
    /\ (found = true ->
        exists selector w0 element elements w1,
          In selector SeleniumScraper.captchaSelectors
          /\ findElements driver (css selector) w0 = (inr (element :: elements), w1))
    /\ ((forall selector w0, In selector SeleniumScraper.captchaSelectors ->
           match findElements driver (css selector) w0 with
           | (inr (_ :: _), _) => False
           | _ => True
           end) -> found = false).
Proof.
  unfold SeleniumScraper.detectCaptcha. rewrite bind_get.
  destruct (SeleniumScraper.this_driver s) eqn:Hs; cbn [negb].
  - unfold Effects.try_catch.
    destruct (firstCaptcha_found driver SeleniumScraper.captchaSelectors s w)
      as (found & w' & -> & Htrue & Hfalse).
    exists found, w'. split; [reflexivity|]. split; [discriminate|].
    split; assumption.
  - exists false, w. split; [reflexivity|]. split; [auto|].
    split; [discriminate | reflexivity].
Qed.

(** X22. close on a scraper that holds a session calls quit once; when
    quit returns the session field is cleared and a second close does
    nothing, but when quit throws the field stays set, close throws, and
    a second close calls quit on the same session again. *)
Theorem close_clears_only_after_quit {W E : Type} (driver : WebDriver W E)
    (events : list SeleniumScraper.Event) (w : W) :
  match quit driver w with
  | (inr _, w1) =>
      SeleniumScraper.close driver
        {| SeleniumScraper.this_driver := true; SeleniumScraper.trace := events |} w
      = (inr tt,
         {| SeleniumScraper.this_driver := false;
            SeleniumScraper.trace := events ++ [SeleniumScraper.QuitCalled] |}, w1)
      /\ SeleniumScraper.close driver
           {| SeleniumScraper.this_driver := false;
              SeleniumScraper.trace := events ++ [SeleniumScraper.QuitCalled] |} w1
         = (inr tt,
            {| SeleniumScraper.this_driver := false;
               SeleniumScraper.trace := events ++ [SeleniumScraper.QuitCalled] |}, w1)
  | (inl e, w1) =>
      SeleniumScraper.close driver
        {| SeleniumScraper.this_driver := true; SeleniumScraper.trace := events |} w
      = (inl e,
         {| SeleniumScraper.this_driver := true;
            SeleniumScraper.trace := events ++ [SeleniumScraper.QuitCalled] |}, w1)
      /\ SeleniumScraper.trace
           (Effects.final_state (SeleniumScraper.close driver)
              {| SeleniumScraper.this_driver := true;
                 SeleniumScraper.trace := events ++ [SeleniumScraper.QuitCalled] |} w1)
         = events ++ [SeleniumScraper.QuitCalled; SeleniumScraper.QuitCalled]
  end.
Proof.
  rewrite (close_with_session driver
             {| SeleniumScraper.this_driver := true; SeleniumScraper.trace := events |} w
             eq_refl).
  destruct (quit driver w) as [[e|[]] w1].
  - split; [reflexivity|]. unfold Effects.final_state.
    rewrite (close_with_session driver
               {| SeleniumScraper.this_driver := true;
                  SeleniumScraper.trace := events ++ [SeleniumScraper.QuitCalled] |}
               w1 eq_refl).
    destruct (quit driver w1) as [[e'|[]] w2]; cbn; rewrite <- app_assoc; reflexivity.
  - split; [reflexivity|]. apply close_without_session. reflexivity.
Qed.

Section AggregateFacts.
Import JsString Effects ContentExtractor SeleniumScraper.
Local Open Scope js_scope.
Context {W E Json : Type}.
Variable rt : Runtime W Json.
Variable driver : WebDriver W E.

Lemma extractKeywords_keeps (w w' : W) (keywords : list string) :
  extractKeywords driver w = (inr keywords, w') ->
  List.Forall (fun k => k <> "" /\ trim k = k /\ includes k "," = false) keywords.
Proof.
  destruct (extractKeywords_cases driver w) as (w1 & [Hrun|(content & Hrun)]);
    rewrite Hrun; intros [= <- _]; [constructor | apply keywords_of_content].
Qed.

Lemma extractAll_fields (baseUrl : string) (w w' : W) (c : ExtractedContent.t Json) :
  extractAll rt driver baseUrl w = (inr c, w') ->
  List.Forall (fun k => k <> "" /\ trim k = k /\ includes k "," = false)
    (ExtractedContent.keywords _ c)
  /\ (StronglySorted (fun a b => Heading.level a <= Heading.level b)
        (ExtractedContent.headings _ c)
      /\ List.Forall (fun h => 1 <= Heading.level h <= 6
                               /\ Heading.text h <> ""
                               /\ trim (Heading.text h) = Heading.text h)
           (ExtractedContent.headings _ c))
  /\ List.Forall (fun p => p <> "" /\ trim p = p) (ExtractedContent.paragraphs _ c)
  /\ List.Forall (fun block => ListBlock.items block <> [])
       (ExtractedContent.lists _ c)
  /\ List.Forall (fun table => Table.rows table <> []) (ExtractedContent.tables _ c)
  /\ List.Forall (Stated.resolved_image rt baseUrl) (ExtractedContent.images c)
  /\ List.Forall (Stated.classified_link rt baseUrl) (ExtractedContent.links c)
  /\ Stated.deduplicated_without_phones (ExtractedContent.contactInfo c).
Proof.
  unfold extractAll. intros Hrun. apply scope_inr in Hrun as (s1 & Hrun).
  repeat bind_step Hrun.
  apply ret_inr in Hrun. subst c. cbn.
  repeat match goal with
         | H : await _ _ _ = (inr _, _, _) |- _ => apply await_inr in H as [H _]
         end.
  repeat match goal with
         | H : extractKeywords _ _ = _ |- _ => apply extractKeywords_keeps in H
         | H : extractHeadings _ _ = _ |- _ => apply extractHeadings_collects in H
         | H : extractParagraphs _ _ = _ |- _ => apply extractParagraphs_keeps in H
         | H : extractLists _ _ = _ |- _ => apply extractLists_keeps in H as [H _]
         | H : extractTables _ _ = _ |- _ => apply extractTables_keeps in H
         | H : extractImages _ _ _ _ = _ |- _ => apply extractImages_resolved in H
         | H : extractLinks _ _ _ _ = _ |- _ => apply extractLinks_classified in H
         | H : extractContactInfo _ _ _ = _ |- _ => apply extractContactInfo_keeps in H
         end.
  split; [assumption|]. split; [assumption|]. split; [assumption|].
  split.
  { match goal with
    | H : List.Forall (fun block => ListBlock.items block <> [] /\ _) _ |- _ =>
        eapply List.Forall_impl; [|exact H]; cbv beta; tauto
    end. }
  split.
  { match goal with
    | H : List.Forall (fun table => Table.rows table <> [] /\ _) _ |- _ =>
        eapply List.Forall_impl; [|exact H]; cbv beta; tauto
    end. }
  split; [assumption|]. split; assumption.
Qed.

End AggregateFacts.

(** X23. What extractAll returns, when it returns, is put together from
    what the extractors return and keeps what holds of each: the three
    fields the scraper fills later are undefined, the language is not
    empty, the cleaned text is the cleaning of the text content, the
    keywords are clean, the headings ascend with levels from 1 to 6, no
    paragraph, list or table is empty, every image and link record is
    resolved and classified against the base URL, and the contact lists
    are free of duplicates with no phone number. *)
Theorem extractAll_wellformed {W E Json : Type} (rt : Runtime W Json)
    (driver : WebDriver W E) (baseUrl : string) (w : W) :
  match ContentExtractor.extractAll rt driver baseUrl w with
  | (inl _, _) => True
  | (inr c, _) =>
      (ExtractedContent.downloadedImages c = None
       /\ ExtractedContent.captchaDetected c = None
       /\ ExtractedContent.timestamp c = None
       /\ ExtractedContent.language _ c <> ""
       /\ ExtractedContent.cleanedText _ c
          = ContentExtractor.cleanText (ExtractedContent.textContent _ c))
      /\ List.Forall (fun k => k <> "" /\ JsString.trim k = k
                               /\ JsString.includes k "," = false)
           (ExtractedContent.keywords _ c)
      /\ (StronglySorted (fun a b => Heading.level a <= Heading.level b)
            (ExtractedContent.headings _ c)
          /\ List.Forall (fun h => 1 <= Heading.level h <= 6
                                   /\ Heading.text h <> ""
                                   /\ JsString.trim (Heading.text h) = Heading.text h)
               (ExtractedContent.headings _ c))
      /\ List.Forall (fun p => p <> "" /\ JsString.trim p = p)
           (ExtractedContent.paragraphs _ c)
      /\ List.Forall (fun block => ListBlock.items block <> [])
           (ExtractedContent.lists _ c)
      /\ List.Forall (fun table => Table.rows table <> [])
           (ExtractedContent.tables _ c)
      /\ List.Forall (Stated.resolved_image rt baseUrl) (ExtractedContent.images c)
      /\ List.Forall (Stated.classified_link rt baseUrl) (ExtractedContent.links c)
      /\ Stated.deduplicated_without_phones (ExtractedContent.contactInfo c)
  end.
Proof.
  destruct (ContentExtractor.extractAll rt driver baseUrl w) as [[e|c] w'] eqn:Hrun;
    [exact I|].
  split.
  - exact (extractAll_fresh rt driver baseUrl w w' c Hrun).
  - exact (extractAll_fields rt driver baseUrl w w' c Hrun).
Qed.

Section SwallowFacts.
Import JsString Effects SeleniumScraper.
Local Open Scope js_scope.
Context {W E Json : Type}.
Variable rt : Runtime W Json.
Variable driver : WebDriver W E.

Lemma simulateHumanBehavior_swallows (s : state) (w : W) :
  exists w', simulateHumanBehavior rt driver s w = (inr tt, s, w').
Proof.
  unfold simulateHumanBehavior. rewrite bind_get.
  destruct (negb (this_driver s)); [exists w; reflexivity|].
  unfold try_catch.
  match goal with
  | |- context [match ?c s w with _ => _ end] =>
      assert (Hc : preserves (fun x => x = s) c) by (repeat neutral_step);
      destruct (neutral_outcome c s w Hc) as [(e & w1 & ->)|([] & w1 & ->)]
  end.
  - exists w1. reflexivity.
  - exists w1. reflexivity.
Qed.

End SwallowFacts.

(** X24. The two page scripts fail differently. simulateHumanBehavior
    never throws, whatever its scripts, the random draw and the sleep do,
    and assigns nothing. scrollToBottom has no guard: with a session, an
    error of its script is thrown on as it is (and so fails scrapeUrl);
    without a session it does nothing. *)
Theorem human_behavior_swallows_scroll_throws {W E Json : Type}
    (rt : Runtime W Json) (driver : WebDriver W E)
    (s : SeleniumScraper.state) (w : W) :
  (exists w', SeleniumScraper.simulateHumanBehavior rt driver s w = (inr tt, s, w'))
  /\ SeleniumScraper.scrollToBottom driver s w
     = (if SeleniumScraper.this_driver s
        then match executeScript driver ScrollToBottom w with
             | (inl e, w') => (inl e, s, w')
             | (inr _, w') => (inr tt, s, w')
             end
        else (inr tt, s, w)).
Proof.
  split; [apply simulateHumanBehavior_swallows|].
  unfold SeleniumScraper.scrollToBottom. rewrite bind_get.
  destruct (SeleniumScraper.this_driver s); cbn [negb]; [|reflexivity].
  rewrite bind_await.
  destruct (executeScript driver ScrollToBottom w) as [[e|v] w']; reflexivity.
Qed.

Section MetadataFacts.
Import JsString Effects ContentExtractor.
Local Open Scope js_scope.
Context {W E Json : Type}.
Variable rt : Runtime W Json.
Variable driver : WebDriver W E.

Lemma extractMetadata_keeps (w w' : W) (metadata : Metadata.t Json) :
  extractMetadata rt driver w = (inr metadata, w') ->
  map_Forall (fun property content => property <> "" /\ content <> "")
    (Metadata.openGraph metadata)
  /\ map_Forall (fun name content => name <> "" /\ content <> "")
       (Metadata.twitterCard metadata).
Proof.
  apply (scope_get_keeps
           (fun m : Metadata.t Json =>
              map_Forall (fun property content => property <> "" /\ content <> "")
                (Metadata.openGraph m)
              /\ map_Forall (fun name content => name <> "" /\ content <> "")
                   (Metadata.twitterCard m))).
  { split; apply map_Forall_empty. }
  apply preserves_try_catch; [|intros ?; apply preserves_ret].
  apply preserves_bind; [apply preserves_await | intros charset].
  apply preserves_bind; [apply preserves_modify; intros s Hs; exact Hs | intros _].
  apply preserves_bind; [apply preserves_await | intros viewport].
  apply preserves_bind; [apply preserves_modify; intros s Hs; exact Hs | intros _].
  apply preserves_bind; [apply preserves_await | intros robots].
  apply preserves_bind; [apply preserves_modify; intros s Hs; exact Hs | intros _].
  apply preserves_bind; [apply preserves_await | intros canonical].
  apply preserves_bind; [apply preserves_modify; intros s Hs; exact Hs | intros _].
  apply preserves_bind; [apply preserves_await | intros ogTags].
  apply preserves_bind.
  { apply preserves_for_of; intros tag.
    apply preserves_bind; [apply preserves_await | intros property].
    apply preserves_bind; [apply preserves_await | intros content].
    destruct (or_undefined property) as [p|] eqn:Ep; [|apply preserves_ret].
    destruct (or_undefined content) as [c|] eqn:Ec; [|apply preserves_ret].
    apply preserves_modify. intros s [Hog Htw]. split; [|exact Htw].
    cbn. apply map_Forall_insert_2; [|exact Hog].
    split; [apply (or_undefined_some property), Ep | apply (or_undefined_some content), Ec]. }
  intros _.
  apply preserves_bind; [apply preserves_await | intros twitterTags].
  apply preserves_bind.
  { apply preserves_for_of; intros tag.
    apply preserves_bind; [apply preserves_await | intros name].
    apply preserves_bind; [apply preserves_await | intros content].
    destruct (or_undefined name) as [n|] eqn:En; [|apply preserves_ret].
    destruct (or_undefined content) as [c|] eqn:Ec; [|apply preserves_ret].
    apply preserves_modify. intros s [Hog Htw]. split; [exact Hog|].
    cbn. apply map_Forall_insert_2; [|exact Htw].
    split; [apply (or_undefined_some name), En | apply (or_undefined_some content), Ec]. }
  intros _.
  apply preserves_bind; [apply preserves_await | intros jsonLdScripts].
  apply preserves_for_of; intros script.
  apply preserves_try_catch; [|intros ?; apply preserves_ret].
  apply preserves_bind; [apply preserves_await | intros content].
  destruct (or_undefined content) as [c|]; [|apply preserves_ret].
  apply preserves_bind.
  { unfold JSON_parse_or_throw. destruct (JSON_parse rt c);
      [apply preserves_ret | apply preserves_throw]. }
  intros v. apply preserves_modify. intros s Hs. exact Hs.
Qed.

End MetadataFacts.

(** X25. extractMetadata always returns; in what it returns no Open
    Graph or Twitter card entry has an empty name or an empty content (a
    tag lacking either is left out). *)
Theorem extractMetadata_tags {W E Json : Type} (rt : Runtime W Json)
    (driver : WebDriver W E) (w : W) :
  exists metadata w',
    ContentExtractor.extractMetadata rt driver w = (inr metadata, w')
    /\ map_Forall (fun property content => property <> "" /\ content <> "")
         (Metadata.openGraph metadata)
    /\ map_Forall (fun name content => name <> "" /\ content <> "")
         (Metadata.twitterCard metadata).
Proof.
  destruct (extractMetadata_returns rt driver w) as (metadata & w' & Hrun).
  exists metadata, w'. split; [exact Hrun|].
  apply (extractMetadata_keeps rt driver w w' metadata Hrun).
Qed.

(* --------------------------------------------------------------------- *)
(** ** The matcher is sound, and what the e-mail pattern accepts           *)
(* --------------------------------------------------------------------- *)

Section MatcherFacts.
Import JsString Regex Denotation.

(** Whatever the matcher finds is a match of the pattern followed by a
    success of the continuation. *)
Lemma run_sound (r : regex) :
  forall (k : state -> option state) (x z : state),
  run r k x = Some z -> exists y, matches r x y /\ k y = Some z.
Proof.
  induction r as [ | p | r1 IH1 r2 IH2 | r1 IH1 r2 IH2 | min max r IH | | ];
    intros k x z; cbn [run matches].
  - intros H. exists x. auto.
  - destruct (rest x) as [|c t] eqn:Ex; [discriminate|].
    destruct (p c) eqn:Ep; [|discriminate].
    intros H. exists {| prev := Some c; rest := t |}. split; [|exact H].
    exists c. auto.
  - intros H. apply IH1 in H as (m & Hm & H). apply IH2 in H as (y & Hy & H).
    exists y. split; [exists m; auto | exact H].
  - destruct (run r1 k x) as [z'|] eqn:E1.
    + intros [= <-]. apply IH1 in E1 as (y & Hy & H). exists y. auto.
    + intros H. apply IH2 in H as (y & Hy & H). exists y. auto.
  - assert (Hopt : forall budget x0 z0,
              (fix optional (budget : nat) (x : state) {struct budget} : option state :=
                 match budget with
                 | 0 => k x
                 | S budget' =>
                     match run r
                             (fun y => if length (rest y) =? length (rest x) then None
                                       else optional budget' y) x
                     with
                     | Some z => Some z
                     | None => k x
                     end
                 end) budget x0 = Some z0 ->
              exists n y, n <= budget /\ iter (matches r) n x0 y /\ k y = Some z0).
    { induction budget as [|budget IHb]; intros x0 z0.
      - intros H. exists 0, x0. simpl. auto.
      - destruct (run r _ x0) as [z'|] eqn:Er.
        + intros [= <-]. apply IH in Er as (m & Hm & Hrest).
          destruct (length (rest m) =? length (rest x0)); [discriminate|].
          apply IHb in Hrest as (n & y & Hn & Hiter & Hk).
          exists (S n), y. split; [lia|]. split; [exists m; auto | exact Hk].
        + intros H. exists 0, x0. simpl. split; [lia | auto]. }
    assert (Hmand : forall (budget_of : state -> nat) n0 x0 z0,
              (fix mandatory (n : nat) (x : state) {struct n} : option state :=
                 match n with
                 | 0 =>
                     (fix optional (budget : nat) (x : state) {struct budget}
                        : option state :=
                        match budget with
                        | 0 => k x
                        | S budget' =>
                            match run r
                                    (fun y => if length (rest y) =? length (rest x)
                                              then None else optional budget' y) x
                            with
                            | Some z => Some z
                            | None => k x
                            end
                        end) (budget_of x) x
                 | S n' => run r (mandatory n') x
                 end) n0 x0 = Some z0 ->
              exists n y,
                n0 <= n
                /\ (forall B, (forall x', budget_of x' <= B) -> n <= n0 + B)
                /\ iter (matches r) n x0 y /\ k y = Some z0).
    { intros budget_of. induction n0 as [|n0 IHn]; intros x0 z0 H.
      - apply Hopt in H as (n & y & Hn & Hiter & Hk).
        exists n, y. split; [lia|]. split; [|auto].
        intros B HB. specialize (HB x0). lia.
      - apply IH in H as (m & Hm & H). apply IHn in H as (n & y & Hn & HB & Hiter & Hk).
        exists (S n), y. split; [lia|]. split; [|split; [exists m; auto | exact Hk]].
        intros B HB'. specialize (HB B HB'). lia. }
    intros H.
    apply (Hmand (fun x => match max with
                           | Some m => m - min
                           | None => length (rest x)
                           end) min x z) in H as (n & y & Hn & HB & Hiter & Hk).
    exists y. split; [|exact Hk]. exists n. split; [exact Hn|]. split; [|exact Hiter].
    destruct max as [m|]; [|exact I].
    specialize (HB (m - min) (fun _ => le_n _)). lia.
  - destruct (at_boundary x) eqn:Eb; [|discriminate]. intros H. exists x. auto.
  - destruct (rest x) eqn:Ex; [|discriminate]. intros H. exists x. auto.
Qed.

Lemma exec_sound (r : regex) (x y : state) :
  exec r x = Some y -> matches r x y.
Proof.
  intros H. apply run_sound in H as (y' & Hm & [= ->]). exact Hm.
Qed.

(** Every match a global scan reports is a match of the pattern
    somewhere. *)
Lemma scan_sound (r : regex) : forall (fuel : nat) (x : state) (s : list ascii),
  In s (scan fuel r x) ->
  exists x' y, matches r x' y /\ s = matched x' y.
Proof.
  induction fuel as [|fuel IH]; intros x s; cbn [scan]; [intros []|].
  destruct (exec r x) as [y|] eqn:Eexec.
  - intros [<-|Hin].
    + exists x, y. split; [apply exec_sound, Eexec | reflexivity].
    + destruct (length (rest y) =? length (rest x)).
      * unfold advance in Hin. destruct (rest x) as [|c t]; [destruct Hin|].
        apply IH in Hin. exact Hin.
      * apply IH in Hin. exact Hin.
  - unfold advance. destruct (rest x) as [|c t]; [intros []|]. apply IH.
Qed.

Lemma matched_consumed (x y : state) (cs : list ascii) :
  rest x = cs ++ rest y -> matched x y = cs.
Proof.
  intros H. unfold matched. rewrite H, length_app.
  replace (length cs + length (rest y) - length (rest y)) with (length cs) by lia.
  apply take_app_length.
Qed.

Lemma matches_Chr (c : ascii) (x y : state) :
  matches (Chr c) x y -> rest x = c :: rest y.
Proof.
  intros (d & Hrest & Hd & _). apply Ascii.eqb_eq in Hd. subst d. exact Hrest.
Qed.

Lemma iter_Class (p : ascii -> bool) : forall (n : nat) (x y : state),
  iter (matches (Class p)) n x y ->
  exists cs, length cs = n /\ List.Forall (fun c => p c = true) cs
             /\ rest x = cs ++ rest y.
Proof.
  induction n as [|n IH]; intros x y; cbn [iter].
  - intros ->. exists []. repeat split. constructor.
  - intros (m & (c & Hrest & Hc & _) & Hiter).
    apply IH in Hiter as (cs & Hlen & Hall & Hm).
    exists (c :: cs). split; [simpl; lia|]. split; [constructor; assumption|].
    rewrite Hrest, Hm. reflexivity.
Qed.

Lemma matches_AtLeast_Class (min : nat) (p : ascii -> bool) (x y : state) :
  matches (Quant min None (Class p)) x y ->
  exists cs, min <= length cs /\ List.Forall (fun c => p c = true) cs
             /\ rest x = cs ++ rest y.
Proof.
  intros (n & Hn & _ & Hiter). apply iter_Class in Hiter as (cs & Hlen & Hall & Hrest).
  exists cs. split; [lia | auto].
Qed.

Lemma nonempty_string_of_list (cs : list ascii) :
  1 <= length cs -> string_of_list_ascii cs <> "".
Proof. destruct cs; simpl; [lia | discriminate]. Qed.

(** What the e-mail pattern matches has the shape of an address. *)
Lemma emailRegex_shape (x y : state) :
  matches ContentExtractor.emailRegex x y ->
  email_shape (string_of_list_ascii (matched x y)).
Proof.
  unfold ContentExtractor.emailRegex. cbn [Seqs].
  intros (m0 & [-> _] & m1 & Hlocal & m2 & Hat & m3 & Hdomain & m4 & Hdot
          & m5 & Htld & [-> _]).
  apply matches_AtLeast_Class in Hlocal as (localPart & Hl1 & Hl2 & Hl3).
  apply matches_Chr in Hat.
  apply matches_AtLeast_Class in Hdomain as (domain & Hd1 & Hd2 & Hd3).
  apply matches_Chr in Hdot.
  apply matches_AtLeast_Class in Htld as (tld & Ht1 & Ht2 & Ht3).
  rewrite (matched_consumed x m5
             (localPart ++ "@"%char :: domain ++ "."%char :: tld)).
  2:{ rewrite Hl3, Hat, Hd3, Hdot, Ht3.
      rewrite <- !app_assoc. simpl. rewrite <- !app_assoc. reflexivity. }
  exists (string_of_list_ascii localPart), (string_of_list_ascii domain),
         (string_of_list_ascii tld).
  rewrite !list_ascii_of_string_of_list_ascii.
  split.
  { rewrite string_of_list_ascii_app. simpl. rewrite string_of_list_ascii_app.
    reflexivity. }
  split; [apply nonempty_string_of_list, Hl1|].
  split; [apply nonempty_string_of_list, Hd1|].
  split.
  { clear -Ht1. revert Ht1. generalize 2.
    induction tld as [|c tld IH]; intros n Hn; simpl in *; [exact Hn|].
    destruct n as [|n]; [lia|]. specialize (IH n). lia. }
  split; [exact Ht2|]. split; [exact Hl2 | exact Hd2].
Qed.

Lemma match_all_emails (text : string) :
  List.Forall email_shape (match_all ContentExtractor.emailRegex text).
Proof.
  apply List.Forall_forall. intros e He. unfold match_all in He.
  apply in_map_iff in He as (s & <- & Hs).
  apply scan_sound in Hs as (x & y & Hm & ->).
  apply emailRegex_shape, Hm.
Qed.

Lemma set_add_from (seen : list string) (x e : string) :
  In e (set_add seen x) -> In e seen \/ e = x.
Proof.
  induction seen as [|y seen IH]; simpl.
  - intros [<-|[]]. right. reflexivity.
  - destruct (String.eqb y x); [intros Hin; left; exact Hin|].
    intros [<-|Hin]; [left; left; reflexivity|].
    destruct (IH Hin); [left; right; assumption | right; assumption].
Qed.

Lemma spread_set_from (xs : list string) (e : string) :
  In e (spread_set xs) -> In e xs.
Proof.
  unfold spread_set.
  assert (H : forall seen, In e (fold_left set_add xs seen) -> In e seen \/ In e xs).
  { induction xs as [|x xs IH]; intros seen; simpl; [tauto|].
    intros Hin. apply IH in Hin as [Hin|Hin]; [|tauto].
    apply set_add_from in Hin as [Hin| ->]; [left; exact Hin | right; left; reflexivity]. }
  intros Hin. apply H in Hin as [[]|Hin]. exact Hin.
Qed.

End MatcherFacts.

Section EmailFacts.
Import JsString Regex Effects ContentExtractor.
Local Open Scope js_scope.
Context {W E Json : Type}.
Variable rt : Runtime W Json.
Variable driver : WebDriver W E.

Lemma extractContactInfo_emails (w w' : W) (info : ContactInfo.t) :
  extractContactInfo rt driver w = (inr info, w') ->
  List.Forall Denotation.email_shape (ContactInfo.emails info).
Proof.
  unfold extractContactInfo.
  apply (scope_get_keeps
           (fun info => List.Forall Denotation.email_shape (ContactInfo.emails info)));
    [constructor|].
  apply preserves_try_catch; [|intros; apply preserves_ret].
  apply preserves_bind; [apply preserves_await | intros bodyText].
  apply preserves_bind.
  { apply preserves_modify. intros s _. cbn.
    apply List.Forall_forall. intros e He. apply spread_set_from in He.
    pose proof (match_all_emails bodyText) as Hall.
    rewrite List.Forall_forall in Hall. apply Hall, He. }
  intros _.
  destruct (phoneRegex (RegExp_quantified_assertion rt)) as [r|];
    [|apply preserves_throw_bind].
  apply preserves_ret_bind.
  apply preserves_bind; [apply preserves_modify; intros s Hs; exact Hs | intros _].
  apply preserves_modify. intros s Hs. exact Hs.
Qed.

End EmailFacts.

(** X26. Every e-mail address extractContactInfo returns has the shape
    local@domain.tld: a local part and a domain that are not empty, made
    of the characters of their classes, and a top-level part of two or
    more characters, each a letter or a bar, which the class [A-Z|a-z]
    of the pattern lets in: on the text x@y.a|b the whole of it is
    returned as an address. *)
Theorem extractContactInfo_email_shape {W E Json : Type} (rt : Runtime W Json)
    (driver : WebDriver W E) (w : W) :
  (exists info w',
     ContentExtractor.extractContactInfo rt driver w = (inr info, w')
     /\ List.Forall Denotation.email_shape (ContactInfo.emails info))
  /\ Regex.match_all ContentExtractor.emailRegex "mail x@y.a|b now" = ["x@y.a|b"].
Proof.
  split; [|vm_compute; reflexivity].
  destruct (extractContactInfo_returns rt driver w) as (info & w' & Hrun).
  exists info, w'. split; [exact Hrun|].
  apply (extractContactInfo_emails rt driver w w' info Hrun).
Qed.

Section MicrodataFacts.
Import JsString Effects ContentExtractor.
Local Open Scope js_scope.
Context {W E Json : Type}.
Variable rt : Runtime W Json.
Variable driver : WebDriver W E.

Lemma microdataProperties_keeps (propElements : list E) (w w' : W)
    (properties : gmap string string) :
  microdataProperties driver propElements w = (inr properties, w') ->
  map_Forall (fun name content => name <> "" /\ content <> "") properties.
Proof.
  apply scope_get_keeps; [apply map_Forall_empty|].
  apply preserves_for_of; intros prop.
  apply preserves_bind; [apply preserves_await | intros name].
  apply preserves_bind; [apply preserves_await | intros contentAttr].
  apply preserves_bind.
  { destruct (or_undefined contentAttr); [apply preserves_ret|].
    apply preserves_bind; [apply preserves_await | intros text]. apply preserves_ret. }
  intros content.
  destruct (or_undefined name) as [n|] eqn:En; [|apply preserves_ret].
  destruct (or_undefined content) as [c|] eqn:Ec; [|apply preserves_ret].
  apply preserves_modify. intros s Hs.
  apply map_Forall_insert_2; [|exact Hs].
  split; [apply (or_undefined_some name), En | apply (or_undefined_some content), Ec].
Qed.

Lemma microdataObject_entries (itemType : option string)
    (properties : gmap string string) :
  map_Forall (fun name content => name <> "" /\ content <> "") properties ->
  (exists type, microdataObject itemType properties !! "@type" = Some type)
  /\ (forall name value,
        microdataObject itemType properties !! name = Some value ->
        name = "@type" \/ exists content, value = Some content
                                          /\ name <> "" /\ content <> "").
Proof.
  intros Hall. unfold microdataObject. split.
  - destruct (properties !! "@type") as [v|] eqn:Ev.
    + exists (Some v). apply lookup_union_Some_l. rewrite lookup_fmap, Ev. reflexivity.
    + exists itemType. rewrite lookup_union_r by (rewrite lookup_fmap, Ev; reflexivity).
      apply lookup_singleton_eq.
  - intros name value Hlook. apply lookup_union_Some_raw in Hlook as [Hl|[_ Hr]].
    + right. rewrite lookup_fmap in Hl.
      destruct (properties !! name) as [content|] eqn:Ec; [|discriminate].
      injection Hl as <-. exists content. split; [reflexivity|]. exact (Hall _ _ Ec).
    + left. apply lookup_singleton_Some in Hr as [<- _]. reflexivity.
Qed.

Lemma extractStructuredData_keeps (w w' : W)
    (structuredData : list (StructuredData.t Json)) :
  extractStructuredData rt driver w = (inr structuredData, w') ->
  List.Forall (fun entry =>
       match entry with
       | StructuredData.JsonLd _ => True
       | StructuredData.Microdata object =>
           (exists type, object !! "@type" = Some type)
           /\ (forall name value,
                 object !! name = Some value ->
                 name = "@type" \/ exists content, value = Some content
                                                   /\ name <> "" /\ content <> "")
       end) structuredData.
Proof.
  apply scope_get_keeps; [constructor|].
  apply preserves_try_catch; [|intros ?; apply preserves_ret].
  apply preserves_bind; [apply preserves_await | intros jsonLdElements].
  apply preserves_bind.
  { apply preserves_for_of; intros element.
    apply preserves_try_catch; [|intros ?; apply preserves_ret].
    apply preserves_bind; [apply preserves_await | intros content].
    destruct (or_undefined content) as [c|]; [|apply preserves_ret].
    apply preserves_bind.
    { unfold JSON_parse_or_throw. destruct (JSON_parse rt c);
        [apply preserves_ret | apply preserves_throw]. }
    intros v. apply preserves_modify. intros s Hs. unfold push.
    apply List.Forall_app. split; [exact Hs|]. constructor; [exact I | constructor]. }
  intros _.
  apply preserves_bind; [apply preserves_await | intros microdataElements].
  apply preserves_for_of; intros element.
  apply preserves_try_catch; [|intros ?; apply preserves_ret].
  apply preserves_bind; [apply preserves_await | intros itemType].
  apply preserves_bind; [apply preserves_await | intros propElements].
  eapply preserves_bind_await.
  { intros w0 a w1. apply microdataProperties_keeps. }
  intros properties Hprops.
  apply preserves_when, preserves_modify. intros s Hs. unfold push.
  apply List.Forall_app. split; [exact Hs|].
  constructor; [|constructor]. apply microdataObject_entries, Hprops.
Qed.

End MicrodataFacts.

(** X27. extractStructuredData always returns; every microdata object it
    returns has the key @type, and every other key of it is not empty and
    carries a content that is not empty (a property lacking a name or a
    content is left out). *)
Theorem extractStructuredData_microdata {W E Json : Type} (rt : Runtime W Json)
    (driver : WebDriver W E) (w : W) :
  exists structuredData w',
    ContentExtractor.extractStructuredData rt driver w = (inr structuredData, w')
    /\ List.Forall (fun entry =>
         match entry with
         | StructuredData.JsonLd _ => True
         | StructuredData.Microdata object =>
             (exists type, object !! "@type" = Some type)
             /\ (forall name value,
                   object !! name = Some value ->
                   name = "@type" \/ exists content, value = Some content
                                                     /\ name <> "" /\ content <> "")
         end) structuredData.
Proof.
  destruct (extractStructuredData_returns rt driver w) as (structuredData & w' & Hrun).
  exists structuredData, w'. split; [exact Hrun|].
  apply (extractStructuredData_keeps rt driver w w' structuredData Hrun).
Qed.
